(** * video-assistant: the Gemini-driven rough-cut script

    A shallow embedding of [scripts/auto_edit_gemini_cli.py]: the JSON
    extractor for model responses, the SRT caption codec, the match
    sanitizer with its deterministic fallback, the material-analysis cache
    and the matching phase, with the properties the specification states
    about them; further the caption writer, the collection of material
    files, the B-roll loop of [main], and the client of
    [scripts/gemini_cli_bridge.py] with its quoting and its retries.

    Python values are embedded as follows.
    - [str] is a sequence of Unicode code points ([list N]); positions and
      lengths are counted in code points, as Python does.
    - [int] is [Z]; [float] is IEEE-754 binary64, as [spec_float] with the
      operations of [SpecFloat] at precision 53 and maximal exponent 1024.
    - a value read from JSON is a [pyval]; a [dict] is an association list
      in insertion order with unique keys.
    - a call that may raise returns a [result]; code with effects on files
      and on the model client is a function on a [World]. *)

From Stdlib Require Import ZArith NArith List Bool Lia String Ascii.
From Stdlib Require Import Floats.SpecFloat Sorting.Sorted.
From stdpp Require Import gmap list.

Local Open Scope Z_scope.

(** ** Characters and strings *)

Definition char := N.
Definition str := list char.

(** An ASCII literal of the source as a [str]. *)
Definition lit (s : string) : str :=
  List.map N_of_ascii (list_ascii_of_string s).

Definition c_quote : char := 34%N.      (* the double quote *)
Definition c_backslash : char := 92%N.  (* the backslash *)
Definition c_lbrace : char := 123%N.    (* left brace *)
Definition c_rbrace : char := 125%N.    (* right brace *)
Definition c_lbracket : char := 91%N.   (* left bracket *)
Definition c_rbracket : char := 93%N.   (* right bracket *)
Definition c_backtick : char := 96%N.   (* backtick *)
Definition c_newline : char := 10%N.
Definition c_cr : char := 13%N.
Definition c_comma : char := 44%N.
Definition c_dot : char := 46%N.
Definition c_colon : char := 58%N.
Definition c_space : char := 32%N.

(** [str.isspace] for one character, which is also what [str.strip]
    removes: the complete table of CPython's Unicode database. *)
Definition is_space (c : char) : bool :=
  ((9 <=? c) && (c <=? 13) || (28 <=? c) && (c <=? 32)
   || (c =? 133) || (c =? 160) || (c =? 5760)
   || (8192 <=? c) && (c <=? 8202)
   || (c =? 8232) || (c =? 8233) || (c =? 8239) || (c =? 8287)
   || (c =? 12288))%N.

Fixpoint lstrip (s : str) : str :=
  match s with
  | c :: s' => if is_space c then lstrip s' else s
  | [] => []
  end.

Definition rstrip (s : str) : str := rev (lstrip (rev s)).

Definition strip (s : str) : str := rstrip (lstrip s).

(** [str.lower], exact on every character whose lower-case form holds an
    ASCII character: the ASCII capitals, the Kelvin sign (to k) and the
    dotted capital I (to i and a combining dot). The source compares
    lowered strings with ASCII constants only. *)
Definition lower_char (c : char) : str :=
  if ((65 <=? c) && (c <=? 90))%N then [(c + 32)%N]
  else if (c =? 8490)%N then [107%N]
  else if (c =? 304)%N then [105%N; 775%N]
  else [c].

Definition lower (s : str) : str := flat_map lower_char s.

Definition str_eqb (a b : str) : bool := bool_decide (a = b).

Fixpoint startswith (p s : str) : bool :=
  match p, s with
  | [], _ => true
  | c :: p', d :: s' => (c =? d)%N && startswith p' s'
  | _ :: _, [] => false
  end.

(** [sub in s] *)
Fixpoint contains (sub s : str) : bool :=
  startswith sub s ||
  match s with
  | [] => false
  | _ :: s' => contains sub s'
  end.

(** [s.split(sep)] for a non-empty separator: cut at the leftmost
    occurrences, never overlapping. [acc] holds the current chunk in
    reverse, [skip] counts separator characters still to be passed over. *)
Fixpoint split_go (sep : str) (acc : str) (skip : nat) (s : str) : list str :=
  match s with
  | [] => [rev acc]
  | c :: s' =>
      match skip with
      | S k => split_go sep acc k s'
      | O =>
          if startswith sep s
          then rev acc :: split_go sep [] (length sep - 1) s'
          else split_go sep (c :: acc) 0 s'
      end
  end.

Definition split (sep s : str) : list str := split_go sep [] 0 s.

(** [sep.join(l)] *)
Fixpoint join (sep : str) (l : list str) : str :=
  match l with
  | [] => []
  | [x] => x
  | x :: l' => x ++ sep ++ join sep l'
  end.

(** [s.replace(old, new)] for a non-empty [old]. *)
Definition replace (old new s : str) : str := join new (split old s).

Fixpoint take_while {A} (p : A -> bool) (l : list A) : list A :=
  match l with
  | x :: l' => if p x then x :: take_while p l' else []
  | [] => []
  end.

(** A literal of the source in which the double quote is written as a
    single quote here. *)
Definition jlit (s : string) : str :=
  List.map (fun c => if (c =? 39)%N then c_quote else c) (lit s).

(** ** Exceptions and results *)

Inductive exn :=
| ValueError (msg : string)
| TypeError
| AttributeError
| OverflowError
| JSONDecodeError
| OSError
| GeminiCliError
| RuntimeError (msg : string).

Inductive result (A : Type) :=
| Ok (a : A)
| Raise (e : exn).
Arguments Ok {A} a.
Arguments Raise {A} e.

Definition bind {A B} (r : result A) (k : A -> result B) : result B :=
  match r with
  | Ok a => k a
  | Raise e => Raise e
  end.

(** [try: r except Exception: h] *)
Definition try_except {A} (r : result A) (h : exn -> result A) : result A :=
  match r with
  | Ok a => Ok a
  | Raise e => h e
  end.

Notation "'let?' x ':=' r 'in' k" := (bind r (fun x => k))
  (at level 10, x name, r at level 100, k at level 200).

(** ** Python values *)

#[warnings="-register-all"]
Inductive pyval :=
| PyNone
| PyBool (b : bool)
| PyInt (z : Z)
| PyFloat (f : spec_float)
| PyStr (s : str)
| PyList (l : list pyval)
| PyDict (d : list (str * pyval)).

Definition is_list (v : pyval) : bool :=
  match v with PyList _ => true | _ => false end.

(** [d.get(k)] on the entries of a dict; [None] is Python's [None] default. *)
Fixpoint dict_get (d : list (str * pyval)) (k : str) : option pyval :=
  match d with
  | [] => None
  | (k', v) :: d' => if str_eqb k' k then Some v else dict_get d' k
  end.

Definition dict_get_default (d : list (str * pyval)) (k : str) (dflt : pyval) : pyval :=
  match dict_get d k with Some v => v | None => dflt end.

(** [d[k] = v]: an existing key keeps its position. *)
Fixpoint dict_set (d : list (str * pyval)) (k : str) (v : pyval) : list (str * pyval) :=
  match d with
  | [] => [(k, v)]
  | (k', v') :: d' =>
      if str_eqb k' k then (k, v) :: d' else (k', v') :: dict_set d' k v
  end.

(** ** _extract_json_from_text: the balanced scan *)

Definition is_opener (c : char) : bool := ((c =? c_lbrace) || (c =? c_lbracket))%N.
Definition is_closer (c : char) : bool := ((c =? c_rbrace) || (c =? c_rbracket))%N.

(** The first loop of [_find_span]: index of the first opening brace or bracket. *)
Fixpoint find_start (i : nat) (s : str) : option nat :=
  match s with
  | [] => None
  | ch :: s' => if is_opener ch then Some i else find_start (S i) s'
  end.

(** The second loop of [_find_span], at index [i] with [s] the characters
    from [i] on. The Python list [stack] is kept with its last element at
    the head, so [stack[-1]] is the head and [append]/[pop] act there. *)
Fixpoint scan (start : nat) (stack : list char) (in_str esc : bool)
    (i : nat) (s : str) : result (nat * nat) :=
  match s with
  | [] => Raise (ValueError "unterminated json value")
  | ch :: s' =>
      if in_str then
        if esc then scan start stack in_str false (S i) s'
        else if (ch =? c_backslash)%N then scan start stack in_str true (S i) s'
        else if (ch =? c_quote)%N then scan start stack false esc (S i) s'
        else scan start stack in_str esc (S i) s'
      else if (ch =? c_quote)%N then scan start stack true esc (S i) s'
      else if (ch =? c_lbrace)%N then scan start (c_rbrace :: stack) in_str esc (S i) s'
      else if (ch =? c_lbracket)%N then scan start (c_rbracket :: stack) in_str esc (S i) s'
      else if is_closer ch then
        match stack with
        | [] => scan start stack in_str esc (S i) s'
        | top :: rest =>
            if negb (ch =? top)%N then scan start stack in_str esc (S i) s'
            else
              match rest with
              | [] => Ok (start, i)
              | _ :: _ => scan start rest in_str esc (S i) s'
              end
        end
      else scan start stack in_str esc (S i) s'
  end.

Definition _find_span (s : str) : result (nat * nat) :=
  match find_start 0 s with
  | None => Raise (ValueError "no json start bracket found")
  | Some start => scan start [] false false start (drop start s)
  end.

(** [s[a : b]] for non-negative bounds. *)
Definition slice (s : str) (a b : nat) : str := take (b - a) (drop a s).

(** ** _extract_json_from_text: choosing the candidate text *)

(** The sort key [(("{" in s) or ("[" in s), len(s))]. *)
Definition cand_key (s : str) : bool * nat :=
  (contains [c_lbrace] s || contains [c_lbracket] s, length s).

(** Tuple order of Python on such keys, [False < True]. *)
Definition key_lt (a b : bool * nat) : bool :=
  match fst a, fst b with
  | false, true => true
  | true, false => false
  | _, _ => (snd a <? snd b)%nat
  end.

(** [list.sort(key=..., reverse=True)] is stable: elements with equal keys
    keep their order. Insertion from the right places [x] before the first
    element whose key is strictly smaller. *)
Fixpoint insert_desc (x : str) (l : list str) : list str :=
  match l with
  | [] => [x]
  | y :: l' =>
      if key_lt (cand_key x) (cand_key y) then y :: insert_desc x l'
      else x :: l
  end.

Definition sort_desc (l : list str) : list str := foldr insert_desc [] l.

(** [[chunks[i].strip() for i in range(1, len(chunks), 2) if chunks[i].strip()]] *)
Fixpoint fenced_chunks (odd : bool) (chunks : list str) : list str :=
  match chunks with
  | [] => []
  | c :: cs =>
      if odd && negb (str_eqb (strip c) [])
      then strip c :: fenced_chunks (negb odd) cs
      else fenced_chunks (negb odd) cs
  end.

Definition nonempty_stripped (chunks : list str) : list str :=
  List.filter (fun c => negb (str_eqb c [])) (List.map strip chunks).

Definition fence : str := [c_backtick; c_backtick; c_backtick].

(** The text that is scanned: the stripped input, or the chosen chunk when
    the input holds a Markdown fence. *)
Definition select_text (text : str) : str :=
  if contains fence text then
    let chunks := split fence text in
    let fenced := fenced_chunks false chunks in
    let candidates :=
      match fenced with [] => nonempty_stripped chunks | _ :: _ => fenced end in
    let text :=
      match sort_desc candidates with c :: _ => c | [] => [] end in
    let low := lower (lstrip text) in
    if startswith (lit "json") low then strip (drop 4 (lstrip text)) else text
  else text.

(** ** Numbers *)

(** binary64: precision 53, maximal exponent 1024. *)
Definition prec : Z := 53.
Definition emax : Z := 1024.

Definition fmul : spec_float -> spec_float -> spec_float := SFmul prec emax.
Definition fadd : spec_float -> spec_float -> spec_float := SFadd prec emax.
Definition float_eq : spec_float -> spec_float -> bool := SFeqb.

(** The binary64 nearest to an integer (ties to even). *)
Definition float_of_Z (z : Z) : spec_float := binary_normalize prec emax z 0 false.

(** The binary64 nearest to [m * 10^e10], correctly rounded, as
    [float(str)] computes it from a decimal numeral. *)
Definition float_of_decimal (neg : bool) (m : Z) (e10 : Z) : spec_float :=
  match m with
  | Zpos p =>
      if 0 <=? e10
      then binary_normalize prec emax ((if neg then -1 else 1) * (m * 10 ^ e10)) 0 false
      else SFdiv prec emax (S754_finite neg p 0)
                           (S754_finite false (Z.to_pos (10 ^ (- e10))) 0)
  | _ => S754_zero neg
  end.

(** [int(x)] of a float: truncation toward zero. *)
Definition float_trunc (f : spec_float) : result Z :=
  match f with
  | S754_nan => Raise (ValueError "cannot convert float NaN to integer")
  | S754_infinity _ => Raise OverflowError
  | S754_zero _ => Ok 0
  | S754_finite s m e =>
      let a := if 0 <=? e then Zpos m * 2 ^ e else Zpos m / 2 ^ (- e) in
      Ok (if s then - a else a)
  end.

(** [round(x)] of a float: the nearest integer, ties to even. *)
Definition float_round (f : spec_float) : result Z :=
  match f with
  | S754_nan => Raise (ValueError "cannot convert float NaN to integer")
  | S754_infinity _ => Raise OverflowError
  | S754_zero _ => Ok 0
  | S754_finite s m e =>
      let a :=
        if 0 <=? e then Zpos m * 2 ^ e
        else
          let d := 2 ^ (- e) in
          let q := Zpos m / d in
          let r := Zpos m mod d in
          match Z.compare (2 * r) d with
          | Lt => q
          | Gt => q + 1
          | Eq => if Z.even q then q else q + 1
          end in
      Ok (if s then - a else a)
  end.

(** Decimal digits of a non-negative integer, most significant first. *)
Fixpoint dec_go (fuel : nat) (n : Z) (acc : str) : str :=
  match fuel with
  | O => acc
  | S fuel' =>
      let acc' := Z.to_N (48 + n mod 10) :: acc in
      if n <? 10 then acc' else dec_go fuel' (n / 10) acc'
  end.

Definition dec_digits (n : Z) : str := dec_go (S (Z.to_nat (Z.log2 n))) n [].

(** [str(z)] of an int. *)
Definition str_of_int (z : Z) : str :=
  if z <? 0 then 45%N :: dec_digits (- z) else dec_digits z.

(** The format specification [0wd]: sign-aware zero padding to width [w]. *)
Definition fmt_0d (w : nat) (z : Z) : str :=
  if z <? 0 then
    let d := dec_digits (- z) in
    45%N :: replicate (w - 1 - length d) 48%N ++ d
  else
    let d := dec_digits z in
    replicate (w - length d) 48%N ++ d.

(** ** Constants and records of the script *)

Definition ALLOWED_TRANSITIONS : list str :=
  [ [21472; 21270]; [38378; 30333]; [21521; 24038]; [21521; 21491];
    [21521; 19978]; [21521; 19979]; [32553; 25918]; [27169; 31946] ]%N.

Definition DEFAULT_TRANSITION : str := [21472; 21270]%N.

Record SrtItem := {
  idx : Z;
  start : spec_float;
  end_ : spec_float;
  text : str
}.

(** A record of the match list, the dict with keys srt_idx, id and
    transition that [_sanitize_matches] builds; [mid] is its id. *)
Record MatchRecord := {
  srt_idx : Z;
  mid : option Z;
  transition : str
}.

(** ** format_srt_timestamp *)

Definition format_srt_timestamp (seconds : spec_float) : result str :=
  let? ms := float_round (fmul seconds (float_of_Z 1000)) in
  let s := ms / 1000 in
  let ms := ms mod 1000 in
  let m := s / 60 in
  let s := s mod 60 in
  let h := m / 60 in
  let m := m mod 60 in
  Ok (fmt_0d 2 h ++ [c_colon] ++ fmt_0d 2 m ++ [c_colon] ++ fmt_0d 2 s
      ++ [c_comma] ++ fmt_0d 3 ms).

(** ** Files, the model client and the trace of external effects *)

Record GeminiRequest := {
  g_prompt : str;
  g_model : option str;
  g_stdin : str;
  g_dirs : list str;
  g_cwd : str;
  g_timeout : Z
}.

Inductive Event :=
| EvGemini (req : GeminiRequest)
| EvWrite (path content : str)
| EvStoryboard (src dst : str)
| EvCopy (src dst : str)
| EvPrint (subject : str).

(** [files] holds the text files, [blobs] the other paths that exist
    (media, images), [trace] the external effects in the order made. *)
Record World := {
  files : gmap str str;
  blobs : gset str;
  trace : list Event
}.

(** What an attempt to write a text file does. *)
Inductive WriteOutcome :=
| Written
| NotOpened
| Broken (partial : str).

Definition M (A : Type) : Type := World -> result A * World.

Definition mret {A} (a : A) : M A := fun w => (Ok a, w).
Definition mraise {A} (e : exn) : M A := fun w => (Raise e, w).
Definition mlift {A} (r : result A) : M A := fun w => (r, w).

Definition mbind {A B} (m : M A) (k : A -> M B) : M B :=
  fun w =>
    match m w with
    | (Ok a, w') => k a w'
    | (Raise e, w') => (Raise e, w')
    end.

(** [try: m except Exception as e: h e] *)
Definition mtry {A} (m : M A) (h : exn -> M A) : M A :=
  fun w =>
    match m w with
    | (Ok a, w') => (Ok a, w')
    | (Raise e, w') => h e w'
    end.

Notation "'let!' x ':=' m 'in' k" := (mbind m (fun x => k))
  (at level 10, x name, m at level 100, k at level 200).
Notation "m ';;' k" := (mbind m (fun _ => k))
  (at level 100, k at level 200, right associativity).

Definition emit (e : Event) : M unit :=
  fun w => (Ok tt, {| files := files w; blobs := blobs w; trace := trace w ++ [e] |}).

(** [os.path.exists] *)
Definition path_exists (p : str) : M bool :=
  fun w => (Ok (bool_decide (is_Some (files w !! p)) || bool_decide (p ∈ blobs w)), w).

Definition _read_text (path : str) : M str :=
  fun w =>
    match files w !! path with
    | Some c => (Ok c, w)
    | None => (Raise OSError, w)
    end.

Definition set_file (p c : str) : M unit :=
  fun w => (Ok tt, {| files := <[p := c]> (files w); blobs := blobs w; trace := trace w |}).

Definition add_blob (p : str) : M unit :=
  fun w => (Ok tt, {| files := files w; blobs := {[p]} ∪ blobs w; trace := trace w |}).

Record MaterialInfo := {
  id : Z;
  path : str;
  kind : pyval;
  duration : spec_float;
  desc : str;
  tags : list pyval
}.

(** The dict stored in the analysis cache for one material. *)
Definition cache_entry (mtime : spec_float) (kind : str) (duration : spec_float)
    (tags : list str) (desc vision_image : str) : pyval :=
  PyDict [ (lit "mtime", PyFloat mtime); (lit "kind", PyStr kind);
           (lit "duration", PyFloat duration);
           (lit "tags", PyList (List.map PyStr tags));
           (lit "desc", PyStr desc);
           (lit "vision_image", PyStr vision_image) ].

Definition VIDEO_EXTS : list str :=
  [lit ".mp4"; lit ".mov"; lit ".mkv"; lit ".avi"; lit ".webm"; lit ".m4v"].

(** The instruction lines passed to the model client, as code points. *)
Definition ANALYZE_INSTRUCTION : str :=
  [35835; 21462; 83; 84; 68; 73; 78; 24182; 25353; 35201; 27714; 21482;
   36755; 20986; 74; 83; 79; 78; 12290]%N.

Definition MATCH_INSTRUCTION : str :=
  [25353; 83; 84; 68; 73; 78; 20013; 30340; 35268; 21017; 36755; 20986; 74;
   83; 79; 78; 25968; 32452; 65288; 21482; 36755; 20986; 74; 83; 79; 78;
   65292; 19981; 35201; 77; 97; 114; 107; 100; 111; 119; 110; 65289; 12290]%N.

(** Phrases by which a text-only model declines to look at an image. *)
Definition REFUSAL_MARKERS : list str :=
  [ [26080; 27861; 30452; 25509; 20998; 26512; 22270; 29255]%N;
    lit "cannot directly analyze";
    lit "only return raw data";
    [21482; 33021; 36820; 22238; 22270; 29255; 30340; 21407; 22987; 25968; 25454]%N ].

Definition META_MARKERS : list str :=
  [ lit ".gemini_cache"; [32531; 23384]%N; [30446; 24405]%N;
    [25991; 20214; 21517]%N; [21704; 24076]%N; lit "media" ].

Definition TAG_MARKERS : list str :=
  [ lit "png"; lit "jpg"; lit "jpeg"; lit "webp"; lit "image"; lit "file";
    lit "media"; lit "cache"; [25991; 20214]%N; [22270; 29255]%N ].

Definition record_to_py (m : MatchRecord) : pyval :=
  PyDict [ (lit "srt_idx", PyInt (srt_idx m));
           (lit "id", match mid m with Some z => PyInt z | None => PyNone end);
           (lit "transition", PyStr (transition m)) ].

Definition is_gemini (e : Event) : bool :=
  match e with EvGemini _ => true | _ => false end.

(** ** The environment

    What the program takes from outside itself: Unicode data beyond
    ASCII (the decimal value of a character of category Nd, and
    [str.isdigit] for one character), the limit
    [sys.get_int_max_str_digits()] (0 switches it off), [str] of a float,
    list or dict, [json.loads] and
    [json.dumps(..., ensure_ascii=False, indent=2)], the outcome of the
    [n]-th call of [run_gemini_cli] in a run (the response text or the
    exception raised), what an attempt to write a file does,
    [os.path.getmtime] (the materials are not touched while the program
    runs), whether [make_storyboard_image], [shutil.copy2] and
    [os.makedirs] go through, [os.path] ([abspath], [join],
    [splitext(p)[1]], the local [_rel]), the workspace root, [_sha1], and
    the request texts, which are built with f-strings and [json.dumps] and
    read by the model client only. *)
Record Env := {
  env_uni_decimal : char -> option Z;
  env_uni_isdigit : char -> bool;
  env_int_max_str_digits : nat;
  env_py_repr : pyval -> str;
  env_json_loads : str -> result pyval;
  env_json_dumps : pyval -> str;
  env_gemini : nat -> GeminiRequest -> result str;
  env_write_outcome : str -> str -> WriteOutcome;
  env_getmtime : str -> result spec_float;
  env_storyboard_ok : str -> str -> bool;
  env_copy_ok : str -> str -> bool;
  env_makedirs_ok : str -> bool;
  env_abspath : str -> str;
  env_path_join : str -> str -> str;
  env_path_ext : str -> str;
  env_rel : str -> str;
  env_workspace_root : str;
  env_sha1 : str -> str;
  env_analysis_prompt : str -> str;
  env_match_prompt : list SrtItem -> list MaterialInfo -> str -> bool -> str
}.

(** ** The program *)

Section Program.

Variable env : Env.

Local Abbreviation uni_decimal := (env_uni_decimal env).
Local Abbreviation uni_isdigit := (env_uni_isdigit env).
Local Abbreviation int_max_str_digits := (env_int_max_str_digits env).
Local Abbreviation py_repr := (env_py_repr env).
Local Abbreviation json_loads := (env_json_loads env).
Local Abbreviation json_dumps := (env_json_dumps env).
Local Abbreviation gemini := (env_gemini env).
Local Abbreviation write_outcome := (env_write_outcome env).
Local Abbreviation getmtime := (env_getmtime env).
Local Abbreviation storyboard_ok := (env_storyboard_ok env).
Local Abbreviation copy_ok := (env_copy_ok env).
Local Abbreviation makedirs_ok := (env_makedirs_ok env).
Local Abbreviation abspath := (env_abspath env).
Local Abbreviation path_join := (env_path_join env).
Local Abbreviation path_ext := (env_path_ext env).
Local Abbreviation _rel := (env_rel env).
Local Abbreviation workspace_root := (env_workspace_root env).
Local Abbreviation _sha1 := (env_sha1 env).
Local Abbreviation analysis_prompt := (env_analysis_prompt env).
Local Abbreviation match_prompt := (env_match_prompt env).

Definition is_ascii_digit (c : char) : bool := ((48 <=? c) && (c <=? 57))%N.

Definition decimal_value (c : char) : option Z :=
  if is_ascii_digit c then Some (Z.of_N c - 48)
  else if (c <? 128)%N then None
  else uni_decimal c.

Definition isdigit_char (c : char) : bool :=
  is_ascii_digit c || (128 <=? c)%N && uni_isdigit c.

(** [s.isdigit()] *)
Definition isdigit (s : str) : bool :=
  match s with
  | [] => false
  | _ :: _ => forallb isdigit_char s
  end.

(** White space as [int] and [float] strip it from a string. *)
Definition is_space_num (c : char) : bool :=
  is_space c && negb ((28 <=? c) && (c <=? 31))%N.

Fixpoint lstrip_num (s : str) : str :=
  match s with
  | c :: s' => if is_space_num c then lstrip_num s' else s
  | [] => []
  end.

Definition strip_num (s : str) : str := rev (lstrip_num (rev (lstrip_num s))).

Definition split_sign (s : str) : bool * str :=
  match s with
  | 45%N :: r => (true, r)
  | 43%N :: r => (false, r)
  | _ => (false, s)
  end.

(** Digits of an integer literal: one digit or more, single underscores
    allowed between digits. Returns the value and the number of digits. *)
Fixpoint int_digits (prev_digit : bool) (acc : Z) (n : nat) (s : str) : option (Z * nat) :=
  match s with
  | [] => if prev_digit then Some (acc, n) else None
  | c :: s' =>
      if (c =? 95)%N then
        if prev_digit then int_digits false acc n s' else None
      else
        match decimal_value c with
        | Some d => int_digits true (acc * 10 + d) (S n) s'
        | None => None
        end
  end.

(** [int(s)] for a string. *)
Definition int_of_str (s : str) : result Z :=
  let '(neg, body) := split_sign (strip_num s) in
  match int_digits false 0 0 body with
  | Some (v, n) =>
      if negb (int_max_str_digits =? 0)%nat && (int_max_str_digits <? n)%nat
      then Raise (ValueError "Exceeds the limit for integer string conversion")
      else Ok (if neg then - v else v)
  | None => Raise (ValueError "invalid literal for int() with base 10")
  end.

(** A run of digits inside a float literal; an underscore is passed over
    only between two digits. Returns value, digit count and the rest. *)
Fixpoint digit_run (acc : Z) (n : nat) (s : str) : Z * nat * str :=
  match s with
  | [] => (acc, n, [])
  | c :: s' =>
      match decimal_value c with
      | Some d => digit_run (acc * 10 + d) (S n) s'
      | None =>
          if (c =? 95)%N && negb (n =? 0)%nat
             && match s' with
                | c' :: _ => bool_decide (is_Some (decimal_value c'))
                | [] => false
                end
          then digit_run acc n s'
          else (acc, n, s)
      end
  end.

Definition ascii_lower (s : str) : str :=
  List.map (fun c => if ((65 <=? c) && (c <=? 90))%N then (c + 32)%N else c) s.

(** The exponent part of a float literal: empty, or e, a sign, digits. *)
Definition float_exponent (s : str) : option Z :=
  match s with
  | [] => Some 0
  | c :: r =>
      if ((c =? 101) || (c =? 69))%N then
        let '(neg, body) := split_sign r in
        match digit_run 0 0 body with
        | (v, S _, []) => Some (if neg then - v else v)
        | _ => None
        end
      else None
  end.

(** [float(s)] for a string. *)
Definition float_of_str (s : str) : result spec_float :=
  let '(neg, body) := split_sign (strip_num s) in
  let low := ascii_lower body in
  if str_eqb low (lit "inf") || str_eqb low (lit "infinity") then Ok (S754_infinity neg)
  else if str_eqb low (lit "nan") then Ok S754_nan
  else
    let '(ip, ni, r1) := digit_run 0 0 body in
    let '(m, nf, r2) :=
      match r1 with
      | 46%N :: r => let '(fp, nf, r2) := digit_run ip 0 r in (fp, nf, r2)
      | _ => (ip, O, r1)
      end in
    if (ni + nf =? 0)%nat
    then Raise (ValueError "could not convert string to float")
    else
      match float_exponent r2 with
      | Some e => Ok (float_of_decimal neg m (e - Z.of_nat nf))
      | None => Raise (ValueError "could not convert string to float")
      end.

(** [int(x)] *)
Definition py_int (v : pyval) : result Z :=
  match v with
  | PyNone => Raise TypeError
  | PyBool b => Ok (if b then 1 else 0)
  | PyInt z => Ok z
  | PyFloat f => float_trunc f
  | PyStr s => int_of_str s
  | PyList _ | PyDict _ => Raise TypeError
  end.

(** [float(x)] *)
Definition py_float (v : pyval) : result spec_float :=
  match v with
  | PyNone => Raise TypeError
  | PyBool b => Ok (float_of_Z (if b then 1 else 0))
  | PyInt z =>
      match float_of_Z z with
      | S754_infinity _ => Raise OverflowError
      | f => Ok f
      end
  | PyFloat f => Ok f
  | PyStr s => float_of_str s
  | PyList _ | PyDict _ => Raise TypeError
  end.

(** [str(x)] *)
Definition py_str (v : pyval) : str :=
  match v with
  | PyNone => lit "None"
  | PyBool b => if b then lit "True" else lit "False"
  | PyInt z => str_of_int z
  | PyStr s => s
  | PyFloat _ | PyList _ | PyDict _ => py_repr v
  end.

(** Truth value of [x] in a condition. *)
Definition truthy (v : pyval) : bool :=
  match v with
  | PyNone => false
  | PyBool b => b
  | PyInt z => negb (z =? 0)
  | PyFloat f => match f with S754_zero _ => false | _ => true end
  | PyStr s => negb (str_eqb s [])
  | PyList l => match l with [] => false | _ => true end
  | PyDict d => match d with [] => false | _ => true end
  end.

(** ** _extract_json_from_text *)

Definition _extract_json_from_text (text : str) : result pyval :=
  let text := strip text in
  match text with
  | [] => Raise (ValueError "empty response")
  | _ :: _ =>
      let text := select_text text in
      try_except
        (let? se := _find_span text in
         json_loads (slice text (fst se) (snd se + 1)))
        (fun _ => json_loads text)
  end.

(** ** The match sanitizer *)

(** [str(name).strip() if name is not None else ""] *)
Definition trimmed_name (name : pyval) : str :=
  match name with PyNone => [] | _ => strip (py_str name) end.

Definition _sanitize_transition (name : pyval) (allowed : list str) : str :=
  let n := trimmed_name name in
  if bool_decide (n ∈ allowed) then n else DEFAULT_TRANSITION.

(** One pass of the loop body of [_sanitize_matches] over the candidate
    [m], on the set [used] and the list [out]. *)
Definition sanitize_step (allowed_transitions : list str) (max_material_id : Z)
    (allow_reuse : bool) (st : gset Z * list MatchRecord) (m : pyval)
    : gset Z * list MatchRecord :=
  let '(used, out) := st in
  match m with
  | PyDict d =>
      match py_int (dict_get_default d (lit "srt_idx") PyNone) with
      | Raise _ => st
      | Ok idx =>
          let mid_raw := dict_get_default d (lit "id") PyNone in
          let mid :=
            match mid_raw with
            | PyNone => None
            | _ => match py_int mid_raw with Ok z => Some z | Raise _ => None end
            end in
          let mid :=
            match mid with
            | Some z => if (z <? 0) || (max_material_id <? z) then None else Some z
            | None => None
            end in
          let '(used, mid) :=
            match mid with
            | Some z =>
                if negb allow_reuse then
                  if bool_decide (z ∈ used) then (used, None)
                  else ({[z]} ∪ used, Some z)
                else (used, mid)
            | None => (used, mid)
            end in
          let tname :=
            _sanitize_transition (dict_get_default d (lit "transition") PyNone)
              allowed_transitions in
          (used, out ++ [{| srt_idx := idx; mid := mid; transition := tname |}])
      end
  | _ => st
  end.

Definition _sanitize_matches (matches : pyval) (allowed_transitions : list str)
    (max_material_id : Z) (allow_reuse : bool) : result (list MatchRecord) :=
  match matches with
  | PyList ms =>
      Ok (snd (fold_left
                 (sanitize_step allowed_transitions max_material_id allow_reuse)
                 ms (∅, [])))
  | _ => Raise (ValueError "matches must be a list")
  end.

(** The deterministic fallback of [gemini_match_srt_to_materials], on the
    sanitized list and the number of materials. *)
Definition fallback (allow_reuse : bool) (material_count : nat)
    (matches : list MatchRecord) : list MatchRecord :=
  if negb (bool_decide (matches = [])) && negb (material_count =? 0)%nat
     && forallb (fun m => bool_decide (mid m = None)) matches
  then
    imap (fun i m =>
            {| srt_idx := srt_idx m;
               mid := if allow_reuse then Some (Z.of_nat i mod Z.of_nat material_count)
                      else if (i <? material_count)%nat then Some (Z.of_nat i) else None;
               transition :=
                 _sanitize_transition (PyStr (transition m)) ALLOWED_TRANSITIONS |})
         matches
  else matches.

(** ** The caption parser *)

Definition _parse_time (t : str) : result spec_float :=
  let t := replace [c_comma] [c_dot] t in
  match split [c_colon] t with
  | [h; m; s] =>
      let? fh := float_of_str h in
      let a := fmul fh (float_of_Z 3600) in
      let? fm := float_of_str m in
      let b := fadd a (fmul fm (float_of_Z 60)) in
      let? fs := float_of_str s in
      Ok (fadd b fs)
  | _ => Ok (S754_zero false)
  end.

Definition arrow : str := lit "-->".

Definition is_text_line (l : str) : bool := negb (str_eqb l []) && negb (isdigit l).

(** The loop of [parse_srt_content] at a line [i], with [lines] the lines
    from [i] on. After a block the source moves [i] to [j]; here [skip]
    counts the lines up to [j] that remain to be passed over. *)
Fixpoint parse_lines (skip : nat) (lines : list str) : result (list SrtItem) :=
  match lines with
  | [] => Ok []
  | l :: rest =>
      match skip with
      | S k => parse_lines k rest
      | O =>
          match rest with
          | time_line :: after =>
              if isdigit l && contains arrow time_line then
                let? idx := int_of_str l in
                let txt_lines := take_while is_text_line after in
                match List.map strip (take 2 (split arrow time_line)) with
                | [start_str; end_str] =>
                    let? start := _parse_time start_str in
                    let? end_ := _parse_time end_str in
                    let text :=
                      strip (join [c_space]
                               (List.filter (fun t => negb (str_eqb t [])) txt_lines)) in
                    let? items := parse_lines (S (length txt_lines)) rest in
                    Ok ({| idx := idx; start := start; end_ := end_; text := text |}
                          :: items)
                | _ => Raise (ValueError "not enough values to unpack")
                end
              else parse_lines 0 rest
          | [] => parse_lines 0 rest
          end
      end
  end.

Definition parse_srt_content (content : str) : result (list SrtItem) :=
  let content := replace [c_cr] [c_newline]
                   (replace [c_cr; c_newline] [c_newline] content) in
  let lines := List.map strip (split [c_newline] content) in
  parse_lines 0 lines.

(** ** The model client and the file writer *)

Definition run_gemini_cli (req : GeminiRequest) : M str :=
  fun w =>
    let n := length (List.filter is_gemini (trace w)) in
    (gemini n req,
     {| files := files w; blobs := blobs w; trace := trace w ++ [EvGemini req] |}).

Definition _write_text (path content : str) : M unit :=
  emit (EvWrite path content) ;;
  match write_outcome path content with
  | Written => set_file path content
  | NotOpened => mraise OSError
  | Broken partial => set_file path partial ;; mraise OSError
  end.

Definition _ensure_dir (p : str) : M str :=
  if makedirs_ok p then mret p else mraise OSError.

(** [s if s else None] on the optional model name. *)
Definition model_given (model : option str) : bool :=
  match model with
  | Some (_ :: _) => true
  | _ => false
  end.

(** ** gemini_match_srt_to_materials *)

(** The first lines of [gemini_match_srt_to_materials]: the stored match
    list, when it is not forced away, exists and parses. *)
Definition cached_matches (force : bool) (cache_json_path : str) : M (option pyval) :=
  let! cache_there := path_exists cache_json_path in
  if negb force && cache_there then
    mtry (let! c := _read_text cache_json_path in
          let! v := mlift (json_loads c) in
          mret (Some v))
         (fun _ => mret None)
  else mret None.

Definition match_request (srt_items : list SrtItem) (materials : list MaterialInfo)
    (cache_dir : str) (text_model : option str) (style_hint : str)
    (allow_reuse : bool) : GeminiRequest :=
  {| g_prompt := MATCH_INSTRUCTION; g_model := text_model;
     g_stdin := match_prompt srt_items materials style_hint allow_reuse;
     g_dirs := [workspace_root; cache_dir];
     g_cwd := workspace_root; g_timeout := 600 |}.

Definition gemini_match_srt_to_materials (srt_items : list SrtItem)
    (materials : list MaterialInfo) (cache_dir : str) (text_model : option str)
    (style_hint : str) (force allow_reuse : bool) : M pyval :=
  let cache_dir := abspath cache_dir in
  let cache_json_path := path_join cache_dir (lit "srt_matches.json") in
  let! cached := cached_matches force cache_json_path in
  match cached with
  | Some v => mret v
  | None =>
      let transitions := ALLOWED_TRANSITIONS in
      let! response :=
        run_gemini_cli (match_request srt_items materials cache_dir text_model
                          style_hint allow_reuse) in
      let! matches :=
        mtry (mlift (_extract_json_from_text response))
             (fun _ =>
                let raw_path := path_join cache_dir (lit "srt_matches_raw.txt") in
                mtry (_write_text raw_path response) (fun _ => mret tt) ;;
                mraise (RuntimeError "Failed to parse Gemini matches JSON")) in
      if negb (is_list matches)
      then mraise (RuntimeError "Gemini returned non-list matches JSON.")
      else
        let! matches :=
          mlift (_sanitize_matches matches transitions
                   (Z.of_nat (length materials) - 1) allow_reuse) in
        let matches := fallback allow_reuse (length materials) matches in
        let out := PyList (List.map record_to_py matches) in
        _write_text cache_json_path (json_dumps out) ;;
        mret out
  end.

(** ** analyze_materials_with_gemini *)

(** [tags] and [desc] of a parsed analysis, coerced as the source does. *)
Definition analysis_fields (analysis : pyval) : list str * str :=
  let tags := match analysis with PyDict d => dict_get_default d (lit "tags") PyNone | _ => PyNone end in
  let desc := match analysis with PyDict d => dict_get_default d (lit "desc") PyNone | _ => PyNone end in
  let tags := match tags with PyList l => l | _ => [] end in
  let tags :=
    List.map (fun t => strip (py_str t))
      (List.filter (fun t => negb (str_eqb (strip (py_str t)) [])) tags) in
  let desc := match desc with PyStr d => d | _ => [] end in
  (tags, desc).

Definition _looks_like_file_metadata (_tags : list str) (_desc : str) : bool :=
  match _desc with
  | [] => false
  | _ :: _ =>
      existsb (fun m => contains m _desc) META_MARKERS
      && existsb (fun t => bool_decide (lower (strip t) ∈ TAG_MARKERS)) _tags
  end.

(** The [try] block of the loop body: the calls of the model and the
    reading of its answer. *)
Definition describe (cache_dir : str) (vision_model : option str)
    (stdin_prompt : str) : M (list str * str) :=
  let _call (model : option str) :=
    run_gemini_cli {| g_prompt := ANALYZE_INSTRUCTION; g_model := model;
                      g_stdin := stdin_prompt;
                      g_dirs := [workspace_root; cache_dir];
                      g_cwd := workspace_root; g_timeout := 600 |} in
  let! g := _call vision_model in
  let! g :=
    if model_given vision_model && existsb (fun m => contains m g) REFUSAL_MARKERS
    then _call None else mret g in
  let! ga :=
    mtry (let! a := mlift (_extract_json_from_text g) in mret (g, a))
         (fun e =>
            if model_given vision_model then
              let! g := _call None in
              let! a := mlift (_extract_json_from_text g) in
              mret (g, a)
            else mraise e) in
  let '(g, analysis) := ga in
  let '(tags, desc) := analysis_fields analysis in
  if model_given vision_model
     && ((bool_decide (tags = []) && bool_decide (desc = []))
         || _looks_like_file_metadata tags desc)
  then
    let raw_path := path_join cache_dir (lit "analysis_raw_last.txt") in
    mtry (_write_text raw_path g) (fun _ => mret tt) ;;
    let! g := _call None in
    let! analysis := mlift (_extract_json_from_text g) in
    mret (analysis_fields analysis)
  else mret (tags, desc).

Definition _copy_into_cache (src_path cache_media_dir : str) : M str :=
  let src_path := abspath src_path in
  let ext := lower (path_ext src_path) in
  let! mt := mlift (getmtime src_path) in
  let key := _sha1 (src_path ++ py_repr (PyFloat mt)) in
  let dst := path_join cache_media_dir (key ++ ext) in
  let! there := path_exists dst in
  (if there then mret tt
   else
     _ensure_dir cache_media_dir ;;
     emit (EvCopy src_path dst) ;;
     if copy_ok src_path dst then add_blob dst else mraise OSError) ;;
  mret dst.

(** [cached.get(k, dflt)] where [cached] may be any value. *)
Definition py_get (v : pyval) (k : str) (dflt : pyval) : result pyval :=
  match v with
  | PyDict d => Ok (dict_get_default d k dflt)
  | _ => Raise AttributeError
  end.

(** [list(x)] *)
Definition py_list (v : pyval) : result (list pyval) :=
  match v with
  | PyList l => Ok l
  | PyStr s => Ok (List.map (fun c => PyStr [c]) s)
  | PyDict d => Ok (List.map (fun kv => PyStr (fst kv)) d)
  | _ => Raise TypeError
  end.

(** The test [cached and float(cached.get("mtime", 0)) == float(mtime)]
    with the [not force] before it. *)
Definition cache_fresh (force : bool) (cached : pyval) (mtime : spec_float)
    : result bool :=
  if force then Ok false
  else if negb (truthy cached) then Ok false
  else
    let? mt := py_get cached (lit "mtime") (PyInt 0) in
    let? f := py_float mt in
    Ok (float_eq f mtime).

(** The record built from a fresh cache entry. *)
Definition cached_record (n : nat) (abs_p : str) (kind : str) (cached : pyval)
    : result MaterialInfo :=
  let? k := py_get cached (lit "kind") (PyStr kind) in
  let? du := py_get cached (lit "duration") (PyFloat (S754_zero false)) in
  let? du := py_float du in
  let? de := py_get cached (lit "desc") (PyStr []) in
  let? tg := py_get cached (lit "tags") (PyList []) in
  let? tg := py_list tg in
  Ok {| id := Z.of_nat n; path := abs_p; kind := k; duration := du;
        desc := py_str de; tags := tg |}.

(** The steps of the loop body after a cache miss. *)
Definition compute_material (cache_dir cache_media_dir cache_story_dir
    cache_json_path : str) (vision_model : option str)
    (cache : list (str * pyval)) (results : list MaterialInfo)
    (abs_p kind : str) (mtime : spec_float) (cached : pyval)
    : M (list (str * pyval) * list MaterialInfo) :=
  let! vision_image :=
    if str_eqb kind (lit "video") then
      let key := _sha1 (abs_p ++ py_repr (PyFloat mtime)) in
      let storyboard_path := path_join cache_story_dir (key ++ lit ".jpg") in
      let! there := path_exists storyboard_path in
      (if there then mret tt
       else
         emit (EvStoryboard abs_p storyboard_path) ;;
         if storyboard_ok abs_p storyboard_path
         then add_blob storyboard_path else mraise (RuntimeError "storyboard")) ;;
      mret storyboard_path
    else _copy_into_cache abs_p cache_media_dir in
  let! duration :=
    if str_eqb kind (lit "video") && truthy cached then
      mlift (let? d := py_get cached (lit "duration") (PyFloat (S754_zero false)) in
             py_float d)
    else mret (S754_zero false) in
  let stdin_prompt := analysis_prompt (_rel vision_image) in
  let! td :=
    mtry (describe cache_dir vision_model stdin_prompt)
         (fun _ => emit (EvPrint abs_p) ;; mret ([], [])) in
  let '(tags, desc) := td in
  let cache :=
    dict_set cache abs_p (cache_entry mtime kind duration tags desc vision_image) in
  _write_text cache_json_path (json_dumps (PyDict cache)) ;;
  mret (cache,
        results ++ [{| id := Z.of_nat (length results); path := abs_p;
                       kind := PyStr kind; duration := duration; desc := desc;
                       tags := List.map PyStr tags |}]).

(** The body of the loop over [material_paths]. *)
Definition analyze_one (cache_dir cache_media_dir cache_story_dir
    cache_json_path : str) (vision_model : option str) (force : bool)
    (st : list (str * pyval) * list MaterialInfo) (p : str)
    : M (list (str * pyval) * list MaterialInfo) :=
  let '(cache, results) := st in
  let abs_p := abspath p in
  let ext := lower (path_ext abs_p) in
  let kind := if bool_decide (ext ∈ VIDEO_EXTS) then lit "video" else lit "image" in
  let mtime := match getmtime abs_p with Ok t => t | Raise _ => S754_zero false end in
  let cached := match dict_get cache abs_p with Some v => v | None => PyNone end in
  let! fresh := mlift (cache_fresh force cached mtime) in
  if fresh then
    let! r := mlift (cached_record (length results) abs_p kind cached) in
    mret (cache, results ++ [r])
  else
    compute_material cache_dir cache_media_dir cache_story_dir cache_json_path
      vision_model cache results abs_p kind mtime cached.

Fixpoint analyze_loop (cache_dir cache_media_dir cache_story_dir
    cache_json_path : str) (vision_model : option str) (force : bool)
    (st : list (str * pyval) * list MaterialInfo) (material_paths : list str)
    : M (list (str * pyval) * list MaterialInfo) :=
  match material_paths with
  | [] => mret st
  | p :: ps =>
      let! st' := analyze_one cache_dir cache_media_dir cache_story_dir
                    cache_json_path vision_model force st p in
      analyze_loop cache_dir cache_media_dir cache_story_dir cache_json_path
        vision_model force st' ps
  end.

(** [analyze_materials_with_gemini] up to its [return]: the cache and the
    results at the end of the loop. *)
Definition analyze_run (material_paths : list str) (cache_dir : str)
    (vision_model : option str) (force : bool)
    : M (list (str * pyval) * list MaterialInfo) :=
  let cache_dir := abspath cache_dir in
  let! cache_media_dir := _ensure_dir (path_join cache_dir (lit "media")) in
  let! cache_story_dir := _ensure_dir (path_join cache_dir (lit "storyboards")) in
  let cache_json_path := path_join cache_dir (lit "material_analysis.json") in
  let! there := path_exists cache_json_path in
  let! cache :=
    if there then
      mtry (let! c := _read_text cache_json_path in mlift (json_loads c))
           (fun _ => mret (PyDict []))
    else mret (PyDict []) in
  match cache with
  | PyDict d =>
      analyze_loop cache_dir cache_media_dir cache_story_dir cache_json_path
        vision_model force (d, []) material_paths
  | _ =>
      match material_paths with
      | [] => mret ([], [])
      | _ :: _ => mraise AttributeError
      end
  end.

Definition analyze_materials_with_gemini (material_paths : list str)
    (cache_dir : str) (vision_model : option str) (force : bool)
    : M (list MaterialInfo) :=
  let! st := analyze_run material_paths cache_dir vision_model force in
  mret (snd st).

End Program.

(** ** JSON text, as far as the scan looks at it *)

(** A character that is neither a double quote nor a brace or bracket. *)
Definition is_plain (c : char) : bool :=
  negb (c =? c_quote)%N && negb (is_opener c) && negb (is_closer c).

(** The rest of a string literal after its opening quote, closing quote
    included. A backslash takes the next character with it, whatever it
    is; any other character but the quote may stand for itself, braces and
    brackets too. *)
Inductive str_tail : str -> Prop :=
| st_close : str_tail [c_quote]
| st_char c s :
    (c =? c_quote)%N = false -> (c =? c_backslash)%N = false ->
    str_tail s -> str_tail (c :: s)
| st_escape c s : str_tail s -> str_tail (c_backslash :: c :: s).

(** Text in which braces and brackets outside string literals are
    matched: what stands between the delimiters of an object or array. *)
Inductive balanced : str -> Prop :=
| bal_nil : balanced []
| bal_plain c s : is_plain c = true -> balanced s -> balanced (c :: s)
| bal_string t s : str_tail t -> balanced s -> balanced (c_quote :: t ++ s)
| bal_object a s : balanced a -> balanced s ->
    balanced (c_lbrace :: a ++ c_rbrace :: s)
| bal_array a s : balanced a -> balanced s ->
    balanced (c_lbracket :: a ++ c_rbracket :: s).

Definition all_space (s : str) : bool := forallb is_space s.

(** The text from after the opening brace of an object to the value of
    its first field: the key, the colon and white space around them. *)
Inductive key_part : str -> Prop :=
| key_part_intro ws1 t ws2 ws3 :
    all_space ws1 = true -> str_tail t -> all_space ws2 = true ->
    all_space ws3 = true ->
    key_part (ws1 ++ c_quote :: t ++ ws2 ++ c_colon :: ws3).

Definition no_opener (s : str) : bool := forallb (fun c => negb (is_opener c)) s.

Definition fence_free (s : str) : bool := negb (contains fence s).

Definition no_tick (s : str) : bool := forallb (fun c => negb (c =? c_backtick)%N) s.

(** An object or an array with [body] between its delimiters. *)
Definition braces (body : str) : str := c_lbrace :: body ++ [c_rbrace].
Definition brackets (body : str) : str := c_lbracket :: body ++ [c_rbracket].

Definition delimited (object : bool) (body : str) : str :=
  if object then braces body else brackets body.

(** What may stand between the opening fence and the value: white space,
    or white space, the language hint and white space. *)
Inductive fence_hint : str -> Prop :=
| hint_none ws : all_space ws = true -> fence_hint ws
| hint_json ws1 ws2 :
    all_space ws1 = true -> all_space ws2 = true ->
    fence_hint (ws1 ++ lit "json" ++ ws2).

(** ** The first occurrence of an id wins *)

Definition demoted (m : MatchRecord) : MatchRecord :=
  {| srt_idx := srt_idx m; mid := None; transition := transition m |}.

(** What the specification asks of the mode without reuse, on the records
    as they are when ids may repeat: going through them in order with the
    ids [seen] so far, a record whose id was seen loses it. *)
Fixpoint demote_repeats (seen : gset Z) (l : list MatchRecord) : list MatchRecord :=
  match l with
  | [] => []
  | m :: l' =>
      match mid m with
      | Some z =>
          if bool_decide (z ∈ seen) then demoted m :: demote_repeats seen l'
          else m :: demote_repeats ({[z]} ∪ seen) l'
      | None => m :: demote_repeats seen l'
      end
  end.

Fixpoint seen_after (seen : gset Z) (l : list MatchRecord) : gset Z :=
  match l with
  | [] => seen
  | m :: l' =>
      match mid m with
      | Some z =>
          if bool_decide (z ∈ seen) then seen_after seen l'
          else seen_after ({[z]} ∪ seen) l'
      | None => seen_after seen l'
      end
  end.


(** The id the fallback gives to the record at a position. *)
Definition fallback_id (allow_reuse : bool) (material_count : nat) (i : nat)
    : option Z :=
  if allow_reuse then Some (Z.of_nat (i mod material_count))
  else if (i <? material_count)%nat then Some (Z.of_nat i) else None.

(** ** The files of the matching phase *)

Definition match_cache_path (env : Env) (cache_dir : str) : str :=
  env_path_join env (env_abspath env cache_dir) (lit "srt_matches.json").

Definition match_raw_path (env : Env) (cache_dir : str) : str :=
  env_path_join env (env_abspath env cache_dir) (lit "srt_matches_raw.txt").

(** The number of calls of the model made so far. *)
Definition calls_made (w : World) : nat := length (List.filter is_gemini (trace w)).

Definition with_trace (w : World) (t : list Event) : World :=
  {| files := files w; blobs := blobs w; trace := t |}.

Definition with_files (w : World) (f : gmap str str) : World :=
  {| files := f; blobs := blobs w; trace := trace w |}.

(** ** The files and probes of the descriptive phase *)

Definition analysis_cache_path (env : Env) (cache_dir : str) : str :=
  env_path_join env (env_abspath env cache_dir) (lit "material_analysis.json").

Definition analysis_raw_path (env : Env) (cache_dir : str) : str :=
  env_path_join env (env_abspath env cache_dir) (lit "analysis_raw_last.txt").

(** The modification time the loop body works with: the probe, or 0.0
    when the probe raises. *)
Definition probed_mtime (env : Env) (abs_p : str) : spec_float :=
  match env_getmtime env abs_p with Ok t => t | Raise _ => S754_zero false end.

Definition material_kind (env : Env) (abs_p : str) : str :=
  if bool_decide (lower (env_path_ext env abs_p) ∈ VIDEO_EXTS)
  then lit "video" else lit "image".

(** The record that stands for a cache entry in the results. *)
Definition entry_record (n : nat) (abs_p kind : str) (duration : spec_float)
    (tags : list str) (desc : str) : MaterialInfo :=
  {| id := Z.of_nat n; path := abs_p; kind := PyStr kind; duration := duration;
     desc := desc; tags := List.map PyStr tags |}.

Definition is_write_to (p : str) (e : Event) : bool :=
  match e with
  | EvWrite q _ => bool_decide (q = p)
  | _ => false
  end.

(** How often the file [p] has been written: for the analysis cache, the
    number of compute steps that ran to their end. *)
Definition writes_to (p : str) (w : World) : nat :=
  length (List.filter (is_write_to p) (trace w)).

(** A computation that does not write the file [p]. *)
Definition quiet {A} (p : str) (m : M A) : Prop :=
  forall w r w', m w = (r, w') ->
    List.filter (is_write_to p) (trace w') = List.filter (is_write_to p) (trace w).

(** The analysis cache as a run finds it: the parsed content of its file,
    and an empty dict when the file is absent or does not parse. *)
Definition loaded_cache (env : Env) (cache_dir : str) (w : World) : pyval :=
  match files w !! analysis_cache_path env cache_dir with
  | Some c =>
      match env_json_loads env c with
      | Ok v => v
      | Raise _ => PyDict []
      end
  | None => PyDict []
  end.

(** The entry of a material in the cache at hand, [None] when there is
    none. *)
Definition cached_entry (cache : list (str * pyval)) (abs_p : str) : pyval :=
  match dict_get cache abs_p with Some v => v | None => PyNone end.

(** ** The caption time format and rounding in binary64 *)

(** Nearest integer to [M / 2^k], ties to even. *)
Definition rne_shift (M k : Z) : Z :=
  let q := M / 2 ^ k in
  let r := M mod 2 ^ k in
  match Z.compare (2 * r) (2 ^ k) with
  | Lt => q
  | Gt => q + 1
  | Eq => if Z.even q then q else q + 1
  end.

(** Number of bits to drop so that 53 remain. *)
Definition excess (M : Z) : Z := Z.max 0 (Z.log2 M + 1 - 53).

(** [M] rounded to 53 significant bits, ties to even. *)
Definition rnd53 (M : Z) : Z := rne_shift M (excess M) * 2 ^ excess M.

(** The value of a non-negative float, scaled by 2^128 to an integer. *)
Definition fval (x : spec_float) : Z :=
  match x with
  | S754_finite false m e => Zpos m * 2 ^ (e + 128)
  | _ => 0
  end.

(** Zero or a positive finite float whose scaled value is an integer. *)
Definition fgood (x : spec_float) : bool :=
  match x with
  | S754_zero false => true
  | S754_finite false m e => (-128 <=? e) && (e <=? 971) && (Zpos m <? 2 ^ 53)
  | _ => false
  end.

(** [y] is the float of the small integer [c]. *)
Definition is_const (y : spec_float) (c : Z) : bool :=
  match y with
  | S754_finite false m e => (-60 <=? e) && (e <=? 0) && (Zpos m =? c * 2 ^ (- e))
  | _ => false
  end.

(** The float of the seconds field [N / 1000] is zero for [N = 0] and
    otherwise a normal number within half a unit in the last place of
    the quotient. *)
Definition sec_ok (N : Z) : bool :=
  match float_of_decimal false N (-3) with
  | S754_finite false m e =>
      (4503599627370496 <=? Zpos m) && (Zpos m <? 9007199254740992)
      && (-63 <=? e) && (e <=? -47)
      && (Z.abs (1000 * Zpos m - Z.shiftl N (- e)) <=? 500)
  | S754_zero false => N =? 0
  | _ => false
  end.

(** [p] holds of the [fuel] integers from [N] on. *)
Fixpoint all_from (p : Z -> bool) (fuel : nat) (N : Z) : bool :=
  match fuel with
  | O => true
  | S fuel' => p N && all_from p fuel' (N + 1)
  end.

(** The time in milliseconds that the fields of a time stand for. *)
Definition millis (h m s ms : Z) : Z := 3600000 * h + 60000 * m + 1000 * s + ms.

(** The float that [_parse_time] computes from the values of its fields. *)
Definition seconds_of (h m s ms : Z) : spec_float :=
  fadd (fadd (fmul (float_of_decimal false h 0) (float_of_Z 3600))
             (fmul (float_of_decimal false m 0) (float_of_Z 60)))
       (float_of_decimal false (1000 * s + ms) (-3)).

(** A run of ASCII digits. *)
Definition all_digits (l : str) : bool := forallb is_ascii_digit l.

(** The number that a run of ASCII digits continues from [acc]. *)
Definition digits_val (l : str) (acc : Z) : Z :=
  fold_left (fun a c => a * 10 + (Z.of_N c - 48)) l acc.

(** [c] does not occur in [s]. *)
Definition lacks (c : char) (s : str) : bool := forallb (fun d => negb (c =? d)%N) s.

(** The caption time format as the formatter writes it: hours of two
    digits or more, minutes and seconds of two, milliseconds of three. *)
Definition time_string (h m s ms : Z) : str :=
  fmt_0d 2 h ++ [c_colon] ++ fmt_0d 2 m ++ [c_colon] ++ fmt_0d 2 s
  ++ [c_comma] ++ fmt_0d 3 ms.

(** A character of an unsigned decimal numeral: a digit or the point. *)
Definition is_numeric (c : char) : bool := is_ascii_digit c || (c =? 46)%N.


(** ** An environment for the examples *)

(** Texts of the examples and their values. *)
Definition sample_tags_text : str := jlit "{'tags': ['a','b'], 'desc': 'x'}".

Definition sample_tags_value : pyval :=
  PyDict [ (lit "tags", PyList [PyStr (lit "a"); PyStr (lit "b")]);
           (lit "desc", PyStr (lit "x")) ].

(** A stored match list in which material 0 is used twice and the
    transitions are not allowed names. *)
Definition stale_matches_text : str :=
  jlit "[{'srt_idx': 1, 'id': 0, 'transition': '??'}, {'srt_idx': 2, 'id': 0, 'transition': '??'}]".

Definition stale_matches_value : pyval :=
  PyList [ PyDict [ (lit "srt_idx", PyInt 1); (lit "id", PyInt 0);
                    (lit "transition", PyStr (lit "??")) ];
           PyDict [ (lit "srt_idx", PyInt 2); (lit "id", PyInt 0);
                    (lit "transition", PyStr (lit "??")) ] ].

(** Values of [json.loads] at the texts used in the examples; on any
    other text this table raises. *)
Definition sample_loads (s : str) : result pyval :=
  if str_eqb s sample_tags_text then Ok sample_tags_value
  else if str_eqb s stale_matches_text then Ok stale_matches_value
  else Raise JSONDecodeError.

(** A file system and a model client for the examples. *)
Definition empty_world : World := {| files := ∅; blobs := ∅; trace := [] |}.

Definition gemini_says (response : str) : nat -> GeminiRequest -> result str :=
  fun _ _ => Ok response.

Definition always_written : str -> str -> WriteOutcome := fun _ _ => Written.

Definition slash_join (a b : str) : str := a ++ [47%N] ++ b.

Definition same_path (p : str) : str := p.

Definition no_prompt : list SrtItem -> list MaterialInfo -> str -> bool -> str :=
  fun _ _ _ _ => [].

Definition no_dumps : pyval -> str := fun _ => [].

(** No digits beyond ASCII, the default limit on integer literals, a
    [str] of floats and containers that is never looked at, a file system
    in which every write goes through, and a model that answers every
    request with the same text. *)
Definition sample_env (response : str) : Env :=
  {| env_uni_decimal := fun _ => None;
     env_uni_isdigit := fun _ => false;
     env_int_max_str_digits := 4300;
     env_py_repr := fun _ => [];
     env_json_loads := sample_loads;
     env_json_dumps := no_dumps;
     env_gemini := gemini_says response;
     env_write_outcome := always_written;
     env_getmtime := fun _ => Ok (float_of_Z 1700000000);
     env_storyboard_ok := fun _ _ => true;
     env_copy_ok := fun _ _ => true;
     env_makedirs_ok := fun _ => true;
     env_abspath := same_path;
     env_path_join := slash_join;
     env_path_ext := fun _ => lit ".png";
     env_rel := same_path;
     env_workspace_root := lit "ws";
     env_sha1 := same_path;
     env_analysis_prompt := same_path;
     env_match_prompt := no_prompt |}.

Definition plain_env : Env := sample_env (lit "sorry").

Definition world_with_matches : World :=
  {| files := {[ slash_join (lit "cache") (lit "srt_matches.json") := stale_matches_text ]};
     blobs := ∅; trace := [] |}.

(** The example of the specification: prose, a fence with a language
    hint, the object, the closing fence. *)
Definition sample_response : str :=
  lit "here you go " ++ fence ++ lit "json" ++ [c_newline]
    ++ sample_tags_text ++ [c_newline] ++ fence.

(** The first analysis of one image in an empty world, the cache it
    leaves, and an environment whose [json.dumps] writes a fixed text for
    it that [json.loads] reads back as that cache. *)
Definition memo_first :=
  analyze_run plain_env [lit "m.png"] (lit "cache") None false empty_world.

Definition memo_cache : list (str * pyval) :=
  match fst memo_first with Ok st => fst st | Raise _ => [] end.

Definition memo_results : list MaterialInfo :=
  match fst memo_first with Ok st => snd st | Raise _ => [] end.

Definition memo_env : Env :=
  {| env_uni_decimal := env_uni_decimal plain_env;
     env_uni_isdigit := env_uni_isdigit plain_env;
     env_int_max_str_digits := env_int_max_str_digits plain_env;
     env_py_repr := env_py_repr plain_env;
     env_json_loads :=
       fun s => if str_eqb s (lit "cache-1") then Ok (PyDict memo_cache)
                else Raise JSONDecodeError;
     env_json_dumps := fun _ => lit "cache-1";
     env_gemini := env_gemini plain_env;
     env_write_outcome := env_write_outcome plain_env;
     env_getmtime := env_getmtime plain_env;
     env_storyboard_ok := env_storyboard_ok plain_env;
     env_copy_ok := env_copy_ok plain_env;
     env_makedirs_ok := env_makedirs_ok plain_env;
     env_abspath := env_abspath plain_env;
     env_path_join := env_path_join plain_env;
     env_path_ext := env_path_ext plain_env;
     env_rel := env_rel plain_env;
     env_workspace_root := env_workspace_root plain_env;
     env_sha1 := env_sha1 plain_env;
     env_analysis_prompt := env_analysis_prompt plain_env;
     env_match_prompt := env_match_prompt plain_env |}.

Definition memo_world : World :=
  snd (analyze_run memo_env [lit "m.png"] (lit "cache") None false empty_world).

(** A caption block whose start time has three fields that are not
    numbers. *)
Definition srt_bad_time : str :=
  lit "1" ++ [c_newline] ++ lit "x:y:z --> 00:00:01,000" ++ [c_newline]
    ++ lit "hi" ++ [c_newline].

(** The same block with a start time of two fields. *)
Definition srt_short_time : str :=
  lit "1" ++ [c_newline] ++ lit "00:01 --> 00:00:01,000" ++ [c_newline]
    ++ lit "hi" ++ [c_newline].

Definition null_candidate (i : Z) : pyval :=
  PyDict [ (lit "srt_idx", PyInt i); (lit "id", PyNone);
           (lit "transition", PyStr DEFAULT_TRANSITION) ].

(** Three candidates, all without a material. *)
Definition three_null_candidates : pyval :=
  PyList [null_candidate 1; null_candidate 2; null_candidate 3].

(** Candidates with a repeated id and transitions in need of repair. *)
Definition mixed_candidates : pyval :=
  PyList
    [ PyDict [ (lit "srt_idx", PyInt 1); (lit "id", PyInt 0);
               (lit "transition", PyStr (lit " x ")) ];
      PyDict [ (lit "srt_idx", PyStr (lit "2")); (lit "id", PyBool false) ];
      PyInt 3;
      PyDict [ (lit "srt_idx", PyInt 3); (lit "id", PyInt 1);
               (lit "transition", PyStr [38378; 30333; 32]%N) ];
      PyDict [ (lit "srt_idx", PyInt 4); (lit "id", PyInt 2);
               (lit "transition", PyInt 5) ] ].

(** The sanitized form of [three_null_candidates] for two materials. *)
Definition sanitized_nulls (allow_reuse : bool) : list MatchRecord :=
  match _sanitize_matches plain_env three_null_candidates
          ALLOWED_TRANSITIONS 1 allow_reuse with
  | Ok out => out
  | Raise _ => []
  end.


(** ** One candidate of the match list at a time *)

(** The id of a candidate after the coercion and the range check of
    [_sanitize_matches], before ids are compared with each other. *)
Definition checked_id (env : Env) (max_material_id : Z) (mid_raw : pyval) : option Z :=
  match
    match mid_raw with
    | PyNone => None
    | _ => match py_int env mid_raw with Ok z => Some z | Raise _ => None end
    end
  with
  | Some z => if (z <? 0) || (max_material_id <? z) then None else Some z
  | None => None
  end.

(** What the loop body of [_sanitize_matches] makes of one candidate when
    ids may be reused: nothing, or one record. *)
Definition sanitize_one (env : Env) (allowed : list str) (max_material_id : Z)
    (m : pyval) : option MatchRecord :=
  match m with
  | PyDict d =>
      match py_int env (dict_get_default d (lit "srt_idx") PyNone) with
      | Ok i =>
          Some {| srt_idx := i;
                  mid := checked_id env max_material_id
                           (dict_get_default d (lit "id") PyNone);
                  transition :=
                    _sanitize_transition env
                      (dict_get_default d (lit "transition") PyNone) allowed |}
      | Raise _ => None
      end
  | _ => None
  end.

(** A candidate from which [_sanitize_matches] makes a record: a dict
    whose [srt_idx] is accepted by [int]. *)
Definition accepted (env : Env) (m : pyval) : bool :=
  match m with
  | PyDict d =>
      match py_int env (dict_get_default d (lit "srt_idx") PyNone) with
      | Ok _ => true
      | Raise _ => false
      end
  | _ => false
  end.

(** [m.get(k)] on a candidate of the match list. *)
Definition raw_field (k : str) (m : pyval) : pyval :=
  match m with
  | PyDict d => dict_get_default d k PyNone
  | _ => PyNone
  end.

(** Two responses that hold one JSON value, the object of the examples:
    one with a bracket in the prose before it, one with a fence around a
    word of the prose after it. *)
Definition draft_note_text : str := lit "Note [draft]: " ++ sample_tags_text.

Definition stray_fence_text : str :=
  lit "A " ++ sample_tags_text ++ lit " " ++ fence ++ lit "note" ++ fence ++ lit " B".

(** Candidates with a transition that needs trimming, a candidate that
    is not a dict, and a transition that is no allowed name. *)
Definition transition_candidates : list pyval :=
  [ PyDict [ (lit "srt_idx", PyInt 1);
             (lit "transition", PyStr ([c_space; 38378; 30333; c_space]%N)) ];
    PyInt 7;
    PyDict [ (lit "srt_idx", PyInt 2); (lit "transition", PyStr (lit "??")) ] ].

(** An id is null or lies in [0, n). *)
Definition id_below (n : Z) (r : MatchRecord) : Prop :=
  match mid r with Some z => 0 <= z < n | None => True end.

(** The closing character that matches an opening brace or bracket. *)
Definition closer_of (op : char) : char :=
  if (op =? c_lbrace)%N then c_rbrace else c_rbracket.

(** A record that the sanitizer would leave as it is. *)
Definition settled (env : Env) (allowed : list str) (max : Z) (r : MatchRecord) : Prop :=
  id_below (max + 1) r
  /\ _sanitize_transition env (PyStr (transition r)) allowed = transition r.

(** ** More environments for the examples *)

(** [env] with another model client. *)
Definition with_gemini (env : Env) (g : nat -> GeminiRequest -> result str) : Env :=
  {| env_uni_decimal := env_uni_decimal env;
     env_uni_isdigit := env_uni_isdigit env;
     env_int_max_str_digits := env_int_max_str_digits env;
     env_py_repr := env_py_repr env;
     env_json_loads := env_json_loads env;
     env_json_dumps := env_json_dumps env;
     env_gemini := g;
     env_write_outcome := env_write_outcome env;
     env_getmtime := env_getmtime env;
     env_storyboard_ok := env_storyboard_ok env;
     env_copy_ok := env_copy_ok env;
     env_makedirs_ok := env_makedirs_ok env;
     env_abspath := env_abspath env;
     env_path_join := env_path_join env;
     env_path_ext := env_path_ext env;
     env_rel := env_rel env;
     env_workspace_root := env_workspace_root env;
     env_sha1 := env_sha1 env;
     env_analysis_prompt := env_analysis_prompt env;
     env_match_prompt := env_match_prompt env |}.

(** [env] with another [json.dumps]. *)
Definition with_dumps (env : Env) (d : pyval -> str) : Env :=
  {| env_uni_decimal := env_uni_decimal env;
     env_uni_isdigit := env_uni_isdigit env;
     env_int_max_str_digits := env_int_max_str_digits env;
     env_py_repr := env_py_repr env;
     env_json_loads := env_json_loads env;
     env_json_dumps := d;
     env_gemini := env_gemini env;
     env_write_outcome := env_write_outcome env;
     env_getmtime := env_getmtime env;
     env_storyboard_ok := env_storyboard_ok env;
     env_copy_ok := env_copy_ok env;
     env_makedirs_ok := env_makedirs_ok env;
     env_abspath := env_abspath env;
     env_path_join := env_path_join env;
     env_path_ext := env_path_ext env;
     env_rel := env_rel env;
     env_workspace_root := env_workspace_root env;
     env_sha1 := env_sha1 env;
     env_analysis_prompt := env_analysis_prompt env;
     env_match_prompt := env_match_prompt env |}.

(** A model client that is out of service. *)
Definition gemini_down : nat -> GeminiRequest -> result str :=
  fun _ _ => Raise GeminiCliError.

Definition down_env : Env := with_gemini plain_env gemini_down.

(** A model that answers with the stored match list of the examples, and
    a [json.dumps] that writes that text for every value. *)
Definition matching_env : Env :=
  with_dumps (sample_env stale_matches_text) (fun _ => stale_matches_text).

(** A world whose match cache holds text that is not JSON. *)
Definition world_with_broken_cache : World :=
  {| files := {[ slash_join (lit "cache") (lit "srt_matches.json") := lit "{oops" ]};
     blobs := ∅; trace := [] |}.

(** The first and only model call of a matching run from [w]. *)
Definition first_match_call (env : Env) (srt_items : list SrtItem)
    (materials : list MaterialInfo) (cache_dir : str) (text_model : option str)
    (style_hint : str) (allow_reuse : bool) : GeminiRequest :=
  match_request env srt_items materials (env_abspath env cache_dir) text_model
    style_hint allow_reuse.

(** The value that a matching run makes of a parsed list [ms] for [n]
    materials: the sanitized records after the fallback, as dicts. *)
Definition matched_output (env : Env) (ms : list pyval) (n : nat)
    (allow_reuse : bool) : pyval :=
  match _sanitize_matches env (PyList ms) ALLOWED_TRANSITIONS (Z.of_nat n - 1)
          allow_reuse with
  | Ok recs => PyList (List.map record_to_py (fallback env allow_reuse n recs))
  | Raise _ => PyNone
  end.

(** ** The descriptive phase when the model is out of service *)

(** A file system in which every operation of the analysis goes through. *)
Definition fs_works (env : Env) : Prop :=
  (forall p, env_makedirs_ok env p = true)
  /\ (forall p, exists t, env_getmtime env p = Ok t)
  /\ (forall a b, env_storyboard_ok env a b = true)
  /\ (forall a b, env_copy_ok env a b = true)
  /\ (forall p c, env_write_outcome env p c = Written).

(** Every call of the model client raises. *)
Definition model_down (env : Env) : Prop :=
  forall n req, exists e, env_gemini env n req = Raise e.

(** Every entry of the cache is one that the analysis wrote. *)
Definition well_kept (cache : list (str * pyval)) : Prop :=
  forall k v, dict_get cache k = Some v ->
    exists mt kind du tg d vi, v = cache_entry mt kind du tg d vi.

(** A record without tags and description. *)
Definition blank (r : MaterialInfo) : Prop := tags r = [] /\ desc r = [].

(** ** More about the caption codec *)

Definition is_value_error (e : exn) : Prop :=
  match e with ValueError _ => True | _ => False end.

(** How often the character [c] occurs in [s]. *)
Definition count_char (c : char) (s : str) : nat :=
  length (List.filter (N.eqb c) s).

(** A time without milliseconds, as the parser also reads it. *)
Definition short_time_string (h m s : Z) : str :=
  fmt_0d 2 h ++ [c_colon] ++ fmt_0d 2 m ++ [c_colon] ++ fmt_0d 2 s.

(** The float that [_parse_time] computes from three whole fields. *)
Definition whole_seconds_of (h m s : Z) : spec_float :=
  fadd (fadd (fmul (float_of_decimal false h 0) (float_of_Z 3600))
             (fmul (float_of_decimal false m 0) (float_of_Z 60)))
       (float_of_decimal false s 0).

(** ** _normalize_model_arg *)

Definition NO_MODEL_NAMES : list str :=
  [lit "auto"; lit "default"; lit "none"; lit "null"].

(** The argument is [None] or a string, as [argparse] gives it, so
    [str(s)] is [s]. *)
Definition _normalize_model_arg (s : option str) : option str :=
  match s with
  | None => None
  | Some s =>
      let s := strip s in
      if str_eqb s [] || bool_decide (lower s ∈ NO_MODEL_NAMES) then None
      else Some s
  end.

(** ** SrtItem.duration *)

Definition fsub : spec_float -> spec_float -> spec_float := SFsub prec emax.

(** [max(a, b)] on two floats: [b] when [b > a], and [a] otherwise. *)
Definition float_max (a b : spec_float) : spec_float := if SFltb a b then b else a.

(** The property [duration] of an [SrtItem]. *)
Definition item_duration (it : SrtItem) : spec_float :=
  float_max (S754_zero false) (fsub (end_ it) (start it)).

(** ** gemini_cli_bridge.py *)

Module GeminiCliBridge.

Definition c_apostrophe : char := 39%N.

Definition _ps_quote (s : str) : str :=
  [c_apostrophe] ++ replace [c_apostrophe] [c_apostrophe; c_apostrophe] s
    ++ [c_apostrophe].

(** [s.find(c)] and [s.rfind(c)] for one character, from index [i] on. *)
Fixpoint find_char (c : char) (i : nat) (s : str) : option nat :=
  match s with
  | [] => None
  | d :: s' => if (c =? d)%N then Some i else find_char c (S i) s'
  end.

Fixpoint rfind_char (c : char) (i : nat) (s : str) : option nat :=
  match s with
  | [] => None
  | d :: s' =>
      match rfind_char c (S i) s' with
      | Some j => Some j
      | None => if (c =? d)%N then Some i else None
      end
  end.

Definition _extract_first_json_object (env : Env) (text : str) : result pyval :=
  let text := strip text in
  match text with
  | [] => Raise GeminiCliError
  | _ :: _ =>
      match find_char c_lbrace 0 text, rfind_char c_rbrace 0 text with
      | Some start, Some end_ =>
          if (end_ <? start)%nat then Raise GeminiCliError
          else
            try_except (env_json_loads env (slice text start (end_ + 1)))
              (fun _ => Raise GeminiCliError)
      | _, _ => Raise GeminiCliError
      end
  end.

(** What [subprocess.run] returns. *)
Record Completed := {
  returncode : Z;
  stdout : str;
  stderr : str
}.

Record GeminiCliResult := {
  r_session_id : pyval;
  r_response : pyval;
  r_raw : pyval;
  r_stdout : str;
  r_stderr : str;
  r_returncode : Z
}.

(** The effects of a call, in the order made. *)
Inductive Effect :=
| TempWrite (name content : str)
| Spawn (attempt : nat) (script : str) (cwd : option str) (timeout_s : Z)
| Sleep (seconds : Z)
| TempRemove (name : str).

(** What a call takes from outside: the name of the temporary file, or
    the exception its creation raises; and what the [n]-th run of
    PowerShell with a script gives, a completed process or the exception
    [subprocess.run] raises (time-out, no such program). *)
Record Host := {
  host_temp : result str;
  host_run : nat -> str -> result Completed
}.

Definition BOOTSTRAP_MARKERS : list str :=
  [ lit "ready for your first command";
    lit "please provide your first command";
    lit "waiting for your command";
    lit "what can i do for you";
    lit "what would you like me to do";
    lit "i am ready for your first command";
    lit "i'm ready for your first command";
    lit "ready for your next command";
    [25105; 24050; 20934; 22791; 22909]%N;
    [35831; 32473; 20986; 20320; 30340; 31532; 19968; 20010; 25351; 20196]%N ].

(** The capacity and rate-limit signals; the second holds a double
    quote, written as a single quote in the literal. *)
Definition RETRY_MARKERS : list str :=
  [ lit "status 429"; jlit "code': 429"; lit "Too Many Requests";
    lit "No capacity"; lit "Retrying with backoff" ].

Definition max_attempts : nat := 3.

(** The directories, made absolute, each once, in the order given. *)
Fixpoint norm_dirs_go (env : Env) (seen : list str) (dirs : list str) : list str :=
  match dirs with
  | [] => []
  | d :: rest =>
      match d with
      | [] => norm_dirs_go env seen rest
      | _ :: _ =>
          let nd := env_abspath env d in
          if bool_decide (nd ∈ seen) then norm_dirs_go env seen rest
          else nd :: norm_dirs_go env (nd :: seen) rest
      end
  end.

Definition norm_dirs (env : Env) (include_directories : option (list str)) : list str :=
  norm_dirs_go env [] (match include_directories with Some l => l | None => [] end).

(** The PowerShell script of one attempt. *)
Definition ps_script (prompt : str) (model : option str) (output_format : str)
    (dirs : list str) (stdin_file : option str) : str :=
  let ps_lines :=
    [ lit "$ErrorActionPreference = 'Continue'";
      lit "$argsList = @('-p', " ++ _ps_quote prompt ++ lit ", '-o', "
        ++ _ps_quote output_format ++ lit ")" ]
    ++ (match model with
        | Some (c :: m) => [lit "$argsList += @('-m', " ++ _ps_quote (c :: m) ++ lit ")"]
        | _ => []
        end)
    ++ (match dirs with
        | [] => []
        | _ :: _ =>
            [ lit "$inc = @(" ++ join (lit ", ") (List.map _ps_quote dirs) ++ lit ")";
              lit "foreach ($d in $inc) { $argsList += @('--include-directories', $d) }" ]
        end)
    ++ (match stdin_file with
        | Some (c :: f) =>
            [ lit "Get-Content -Raw -Encoding UTF8 " ++ _ps_quote (c :: f)
                ++ lit " | & gemini @argsList" ]
        | _ => [lit "& gemini @argsList"]
        end) in
  join [c_newline] ps_lines.

(** The test for a bootstrap message in an answer that exited with 0;
    an exception on the way counts as no. *)
Definition is_bootstrap (env : Env) (out : str) : bool :=
  match
    (let? raw := _extract_first_json_object env out in
     let? v := py_get raw (lit "response") (PyStr []) in
     let v := if truthy v then v else PyStr [] in
     Ok (lower (strip (py_str env v))))
  with
  | Ok resp => existsb (fun m => contains m resp) BOOTSTRAP_MARKERS
  | Raise _ => false
  end.

Definition retryable (err : str) : bool :=
  existsb (fun s => contains s err) RETRY_MARKERS.

(** The loop over the attempts, from [attempt] on with [fuel] attempts
    left; [last] is [last_completed]. It gives the process to read, or
    the exception raised, and the effects. *)
Fixpoint attempts (env : Env) (host : Host) (script : str) (cwd : option str)
    (timeout_s : Z) (is_json : bool) (fuel attempt : nat) (sleep_s : Z)
    (last : option Completed) : result Completed * list Effect :=
  match fuel with
  | O =>
      match last with
      | Some cp => (Ok cp, [])
      | None => (Raise GeminiCliError, [])
      end
  | S fuel' =>
      let spawn := Spawn attempt script cwd timeout_s in
      match host_run host attempt script with
      | Raise e => (Raise e, [spawn])
      | Ok cp =>
          if returncode cp =? 0 then
            if is_json && is_bootstrap env (stdout cp) && (attempt <? max_attempts)%nat
            then
              let '(r, eff) := attempts env host script cwd timeout_s is_json fuel'
                                 (S attempt) sleep_s (Some cp) in
              (r, spawn :: eff)
            else (Ok cp, [spawn])
          else if negb (retryable (stderr cp)) || (attempt =? max_attempts)%nat
          then (Raise GeminiCliError, [spawn])
          else
            let '(r, eff) := attempts env host script cwd timeout_s is_json fuel'
                               (S attempt) (Z.min (sleep_s * 3) 60) (Some cp) in
            (r, spawn :: Sleep sleep_s :: eff)
      end
  end.

Definition run_gemini_cli (env : Env) (host : Host) (prompt : str)
    (model : option str) (output_format : str)
    (include_directories : option (list str)) (stdin_text : option str)
    (cwd : option str) (timeout_s : Z) : result GeminiCliResult * list Effect :=
  let dirs := norm_dirs env include_directories in
  let go (stdin_file : option str) : result GeminiCliResult * list Effect :=
    let script := ps_script prompt model output_format dirs stdin_file in
    let is_json := str_eqb output_format (lit "json") in
    let '(r, eff) := attempts env host script cwd timeout_s is_json max_attempts 1 5 None in
    (let? cp := r in
     if is_json then
       let? raw := _extract_first_json_object env (stdout cp) in
       let? sid := py_get raw (lit "session_id") PyNone in
       let? resp := py_get raw (lit "response") (PyStr []) in
       Ok {| r_session_id := sid; r_response := resp; r_raw := raw;
             r_stdout := stdout cp; r_stderr := stderr cp;
             r_returncode := returncode cp |}
     else
       Ok {| r_session_id := PyNone; r_response := PyStr (stdout cp);
             r_raw := PyDict []; r_stdout := stdout cp; r_stderr := stderr cp;
             r_returncode := returncode cp |},
     eff) in
  match stdin_text with
  | None => go None
  | Some text =>
      match host_temp host with
      | Raise e => (Raise e, [])
      | Ok name =>
          let '(r, eff) := go (Some name) in
          (r, TempWrite name text :: eff
              ++ match name with [] => [] | _ :: _ => [TempRemove name] end)
      end
  end.

End GeminiCliBridge.


(** The seconds slept and the number of processes started in a list of
    effects. *)
Definition sleeps (eff : list GeminiCliBridge.Effect) : list Z :=
  omap (fun e => match e with GeminiCliBridge.Sleep s => Some s | _ => None end) eff.

Definition spawns (eff : list GeminiCliBridge.Effect) : nat :=
  length (List.filter (fun e => match e with GeminiCliBridge.Spawn _ _ _ _ => true
                                        | _ => false end) eff).

(** A host on which every run exits with code 1 and the given [stderr]. *)
Definition failing_host (err : str) : GeminiCliBridge.Host :=
  {| GeminiCliBridge.host_temp := Ok (lit "t.stdin.txt");
     GeminiCliBridge.host_run := fun _ _ =>
       Ok {| GeminiCliBridge.returncode := 1; GeminiCliBridge.stdout := [];
             GeminiCliBridge.stderr := err |} |}.

(** ** collect_material_files *)


(** What [collect_material_files] asks the file system: [os.path.isfile],
    [os.path.isdir], and [os.walk], of which the directory lists are not
    used. *)
Record Tree := {
  fs_isfile : str -> bool;
  fs_isdir : str -> bool;
  fs_walk : str -> list (str * list str)
}.

(** The order of Python on strings: by code point, a proper prefix
    first. *)
Fixpoint str_ltb (a b : str) : bool :=
  match a, b with
  | _, [] => false
  | [], _ :: _ => true
  | x :: a', y :: b' => (x <? y)%N || ((x =? y)%N && str_ltb a' b')
  end.






(** A tree with one directory that holds a clip, a picture and notes. *)
Definition sample_tree : Tree :=
  {| fs_isfile := fun p => str_eqb p (lit "x.txt");
     fs_isdir := fun p => str_eqb p (lit "d");
     fs_walk := fun _ => [(lit "d", [lit "b.png"; lit "a.png"; lit "b.png"])] |}.

(** ** main: placing the materials on the B-roll track *)

(** The calls that the loop of [main] over the matches makes on the
    project: [add_media_safe] with the path of a material and the start
    and duration of a caption (passed as [.3f] strings of these floats)
    and whether it returned a segment, and [add_transition_simple] with
    a name. *)
Inductive DraftCall :=
| AddMedia (path : str) (start duration : spec_float) (placed : bool)
| AddTransition (name : str).

(** [{it.idx: it for it in srt_items}.get(i)]: the last item with that
    index. *)
Definition sub_by_idx (srt_items : list SrtItem) (i : Z) : option SrtItem :=
  List.find (fun it => idx it =? i) (rev srt_items).

(** [{m.id: m for m in materials}.get(i)] *)
Definition mat_by_id (materials : list MaterialInfo) (i : Z) : option MaterialInfo :=
  List.find (fun m => id m =? i) (rev materials).

(** One pass of the loop body on the match [m], with [added] and the
    calls made so far; [placed] tells whether [add_media_safe] returns a
    segment, given the calls before it. *)
Definition broll_step (env : Env) (placed : list DraftCall -> str -> bool)
    (srt_items : list SrtItem) (materials : list MaterialInfo)
    (st : nat * list DraftCall) (m : pyval) : nat * list DraftCall :=
  let '(added, calls) := st in
  match (let? v := py_get m (lit "srt_idx") PyNone in py_int env v) with
  | Raise _ => st
  | Ok srt_idx =>
      match sub_by_idx srt_items srt_idx with
      | None => st
      | Some sub =>
          if str_eqb (text sub) [] then st
          else
            match m with
            | PyDict d =>
                match dict_get_default d (lit "id") PyNone with
                | PyNone => st
                | mid =>
                    match py_int env mid with
                    | Raise _ => st
                    | Ok mid_int =>
                        match mat_by_id materials mid_int with
                        | None => st
                        | Some mat =>
                            let ok := placed calls (path mat) in
                            let calls :=
                              calls ++ [AddMedia (path mat) (start sub)
                                          (item_duration sub) ok] in
                            if ok then
                              if (2 <=? S added)%nat then
                                let tname :=
                                  _sanitize_transition env
                                    (dict_get_default d (lit "transition") PyNone)
                                    ALLOWED_TRANSITIONS in
                                (S added, calls ++ [AddTransition tname])
                              else (S added, calls)
                            else (added, calls)
                        end
                    end
                end
            | _ => st
            end
      end
  end.

(** The loop of [main] over [matches], which is what the matching phase
    returned: a list, or whatever the cache file held. *)
Definition broll_calls (env : Env) (placed : list DraftCall -> str -> bool)
    (srt_items : list SrtItem) (materials : list MaterialInfo) (matches : pyval)
    : result (list DraftCall) :=
  let? ms := py_list matches in
  Ok (snd (fold_left (broll_step env placed srt_items materials) ms (0%nat, []))).

(** A call that the loop may make for these captions and materials. *)
Definition guarded_call (srt_items : list SrtItem) (materials : list MaterialInfo)
    (c : DraftCall) : Prop :=
  match c with
  | AddMedia p st du _ =>
      (exists mat, In mat materials /\ p = path mat)
      /\ (exists sub, In sub srt_items /\ text sub <> []
                      /\ st = start sub /\ du = item_duration sub)
  | AddTransition n => n ∈ ALLOWED_TRANSITIONS
  end.

Definition placed_count (calls : list DraftCall) : nat :=
  length (List.filter (fun c => match c with AddMedia _ _ _ true => true | _ => false end)
            calls).

Definition transition_count (calls : list DraftCall) : nat :=
  length (List.filter (fun c => match c with AddTransition _ => true | _ => false end)
            calls).

(** The state of the loop: [added] counts the segments placed, and the
    transitions asked for are one fewer. *)
Definition broll_inv (srt_items : list SrtItem) (materials : list MaterialInfo)
    (st : nat * list DraftCall) : Prop :=
  Forall (guarded_call srt_items materials) (snd st)
  /\ placed_count (snd st) = fst st
  /\ transition_count (snd st) = Nat.pred (fst st).

(** ** transcribe_to_srt_faster_whisper: writing the captions *)

(** A segment as the recogniser yields it; [seg.text] may be [None]. *)
Record Segment := {
  seg_text : option str;
  seg_start : spec_float;
  seg_end : spec_float
}.

(** The loop of [transcribe_to_srt_faster_whisper] over the segments:
    the lines appended to [blocks], from the index [idx] on. *)
Fixpoint srt_blocks (idx : Z) (segments : list Segment) : result (list str) :=
  match segments with
  | [] => Ok []
  | seg :: rest =>
      let text := strip (match seg_text seg with Some t => t | None => [] end) in
      match text with
      | [] => srt_blocks idx rest
      | _ :: _ =>
          let? a := format_srt_timestamp (seg_start seg) in
          let? b := format_srt_timestamp (seg_end seg) in
          let? more := srt_blocks (idx + 1) rest in
          Ok ([str_of_int idx; a ++ lit " --> " ++ b; text; []] ++ more)
      end
  end.

(** The text that is written to the caption file. *)
Definition srt_document (segments : list Segment) : result str :=
  let? blocks := srt_blocks 1 segments in
  Ok (strip (join [c_newline] blocks) ++ [c_newline]).

(** The text of a segment as it is written. *)
Definition seg_line (seg : Segment) : str :=
  strip (match seg_text seg with Some t => t | None => [] end).

(** The segments that are written: those with text. *)
Definition kept (segments : list Segment) : list Segment :=
  List.filter (fun seg => negb (str_eqb (seg_line seg) [])) segments.

(** The time stamp of a number of milliseconds, and the float that the
    parser reads from it. *)
Definition stamp (T : Z) : str :=
  time_string (T / 1000 / 60 / 60) (T / 1000 / 60 mod 60) (T / 1000 mod 60)
    (T mod 1000).

Definition stamp_value (T : Z) : spec_float :=
  seconds_of (T / 1000 / 60 / 60) (T / 1000 / 60 mod 60) (T / 1000 mod 60)
    (T mod 1000).

(** The milliseconds of a time, as [format_srt_timestamp] rounds it. *)
Definition ms_of (x : spec_float) : Z :=
  match float_round (fmul x (float_of_Z 1000)) with
  | Ok T => T
  | Raise _ => 0
  end.

(** The caption that a written segment is read back as. *)
Definition written_item (i : Z) (seg : Segment) : SrtItem :=
  {| idx := i;
     start := stamp_value (ms_of (seg_start seg));
     end_ := stamp_value (ms_of (seg_end seg));
     text := seg_line seg |}.

Fixpoint written_items (i : Z) (segments : list Segment) : list SrtItem :=
  match segments with
  | [] => []
  | seg :: rest => written_item i seg :: written_items (i + 1) rest
  end.

(** The lines of the blocks of segments that all have text. *)
Fixpoint block_lines (i : Z) (segments : list Segment) : list str :=
  match segments with
  | [] => []
  | seg :: rest =>
      [ str_of_int i;
        stamp (ms_of (seg_start seg)) ++ lit " --> " ++ stamp (ms_of (seg_end seg));
        seg_line seg; [] ]
      ++ block_lines (i + 1) rest
  end.

(** A time that is finite and not negative, to the millisecond. *)
Definition time_ok (x : spec_float) : Prop :=
  exists T, float_round (fmul x (float_of_Z 1000)) = Ok T /\ 0 <= T.

(** A segment whose text is one line that is not a number, with times
    that are finite and not negative. *)
Definition clean_segment (env : Env) (seg : Segment) : Prop :=
  lacks c_newline (seg_line seg) = true
  /\ lacks c_cr (seg_line seg) = true
  /\ isdigit env (seg_line seg) = false
  /\ time_ok (seg_start seg) /\ time_ok (seg_end seg).

(** [int] reads the decimal form of every index up to [n]: the limit on
    the digits of an integer literal is off, or [n] stays within it. *)
Definition int_limit_allows (env : Env) (n : nat) : Prop :=
  env_int_max_str_digits env = 0%nat
  \/ (length (dec_digits (Z.of_nat n)) <= env_int_max_str_digits env)%nat.

(** A text without white space. *)
Definition solid (s : str) : bool := forallb (fun c => negb (is_space c)) s.

(** A text that begins and ends with a character other than white space. *)
Definition tight (s : str) : Prop :=
  (exists c r, s = c :: r /\ is_space c = false)
  /\ (exists y d, s = y ++ [d] /\ is_space d = false).

(** A line as the parser sees it again: one line, already stripped. *)
Definition good_line (l : str) : Prop :=
  lacks c_newline l = true /\ lacks c_cr l = true /\ strip l = l.

(** A character of a time stamp. *)
Definition is_stamp_char (c : char) : bool :=
  is_ascii_digit c || (c =? c_colon)%N || (c =? c_comma)%N.

(** Two segments for the examples, the second without text. *)
Definition sample_segments : list Segment :=
  [ {| seg_text := Some (lit " hello there "); seg_start := S754_zero false;
       seg_end := float_of_Z 2 |};
    {| seg_text := None; seg_start := float_of_Z 2; seg_end := float_of_Z 3 |};
    {| seg_text := Some (lit "bye"); seg_start := float_of_Z 3;
       seg_end := float_of_Z 5 |} ].


(** Right-nested form of a concatenation. *)
Ltac norm_app := repeat first [rewrite <- app_assoc | progress cbn [app]].

(** ** Properties of the scan *)

Section Scan.

Lemma scan_str_tail t :
  str_tail t ->
  forall start stack i rest,
    scan start stack true false i (t ++ rest)
    = scan start stack false false (i + length t) rest.
Proof.
  induction 1 as [|c s Hq Hb Hs IH|c s Hs IH]; intros start stack i rest.
  - cbn. replace (i + 1)%nat with (S i) by lia. reflexivity.
  - cbn [app scan]. rewrite Hb, Hq. rewrite IH. f_equal. cbn. lia.
  - cbn [app scan]. change (c_backslash =? c_backslash)%N with true.
    cbn iota. rewrite IH. f_equal. cbn. lia.
Qed.

Lemma is_plain_spec c :
  is_plain c = true ->
  (c =? c_quote)%N = false /\ (c =? c_lbrace)%N = false
  /\ (c =? c_lbracket)%N = false /\ is_closer c = false.
Proof.
  unfold is_plain, is_opener. intros H.
  repeat (apply andb_prop in H; destruct H as [H ?]).
  repeat match goal with
         | H : negb _ = true |- _ => apply negb_true_iff in H
         | H : (_ || _) = false |- _ => apply orb_false_elim in H; destruct H
         end.
  auto.
Qed.

Lemma scan_balanced a :
  balanced a ->
  forall start top stack i rest,
    scan start (top :: stack) false false i (a ++ rest)
    = scan start (top :: stack) false false (i + length a) rest.
Proof.
  induction 1 as [|c s Hc Hs IH|t s Ht Hs IH|a s Ha IHa Hs IHs|a s Ha IHa Hs IHs];
    intros start top stack i rest.
  - cbn. f_equal. lia.
  - destruct (is_plain_spec c Hc) as (Hq & Ho & Hk & Hcl).
    cbn [app scan]. rewrite Hq, Ho, Hk, Hcl. rewrite IH. f_equal. cbn. lia.
  - cbn [app scan]. change (c_quote =? c_quote)%N with true. cbn iota.
    rewrite <- app_assoc, (scan_str_tail t Ht), IH.
    f_equal. cbn. rewrite length_app. lia.
  - cbn [app scan]. change (c_lbrace =? c_quote)%N with false.
    change (c_lbrace =? c_lbrace)%N with true. cbn iota.
    rewrite <- app_assoc, IHa. cbn [app scan].
    change (c_rbrace =? c_quote)%N with false.
    change (c_rbrace =? c_lbrace)%N with false.
    change (c_rbrace =? c_lbracket)%N with false.
    change (is_closer c_rbrace) with true.
    change (c_rbrace =? c_rbrace)%N with true. cbn iota. cbn [negb].
    rewrite IHs. f_equal. cbn. rewrite length_app. cbn. lia.
  - cbn [app scan]. change (c_lbracket =? c_quote)%N with false.
    change (c_lbracket =? c_lbrace)%N with false.
    change (c_lbracket =? c_lbracket)%N with true. cbn iota.
    rewrite <- app_assoc, IHa. cbn [app scan].
    change (c_rbracket =? c_quote)%N with false.
    change (c_rbracket =? c_lbrace)%N with false.
    change (c_rbracket =? c_lbracket)%N with false.
    change (is_closer c_rbracket) with true.
    change (c_rbracket =? c_rbracket)%N with true. cbn iota. cbn [negb].
    rewrite IHs. f_equal. cbn. rewrite length_app. cbn. lia.
Qed.

Lemma find_start_pre pre c rest i :
  no_opener pre = true -> is_opener c = true ->
  find_start i (pre ++ c :: rest) = Some (i + length pre)%nat.
Proof.
  revert i. induction pre as [|x pre IH]; intros i Hpre Hc; cbn in *.
  - rewrite Hc. f_equal. lia.
  - apply andb_prop in Hpre as [Hx Hpre]. apply negb_true_iff in Hx.
    rewrite Hx, IH by assumption. f_equal. lia.
Qed.

Lemma find_span_object pre a post :
  no_opener pre = true -> balanced a ->
  _find_span (pre ++ c_lbrace :: a ++ c_rbrace :: post)
  = Ok (length pre, S (length pre + length a)).
Proof.
  intros Hpre Ha. unfold _find_span.
  rewrite find_start_pre by (assumption || reflexivity). cbn [Nat.add].
  rewrite drop_app_length. cbn [scan].
  change (c_lbrace =? c_quote)%N with false.
  change (c_lbrace =? c_lbrace)%N with true. cbn iota.
  rewrite (scan_balanced a Ha). cbn [scan].
  change (c_rbrace =? c_quote)%N with false.
  change (c_rbrace =? c_lbrace)%N with false.
  change (c_rbrace =? c_lbracket)%N with false.
  change (is_closer c_rbrace) with true.
  change (c_rbrace =? c_rbrace)%N with true. cbn iota. cbn [negb].
  reflexivity.
Qed.

Lemma find_span_array pre a post :
  no_opener pre = true -> balanced a ->
  _find_span (pre ++ c_lbracket :: a ++ c_rbracket :: post)
  = Ok (length pre, S (length pre + length a)).
Proof.
  intros Hpre Ha. unfold _find_span.
  rewrite find_start_pre by (assumption || reflexivity). cbn [Nat.add].
  rewrite drop_app_length. cbn [scan].
  change (c_lbracket =? c_quote)%N with false.
  change (c_lbracket =? c_lbrace)%N with false.
  change (c_lbracket =? c_lbracket)%N with true. cbn iota.
  rewrite (scan_balanced a Ha). cbn [scan].
  change (c_rbracket =? c_quote)%N with false.
  change (c_rbracket =? c_lbrace)%N with false.
  change (c_rbracket =? c_lbracket)%N with false.
  change (is_closer c_rbracket) with true.
  change (c_rbracket =? c_rbracket)%N with true. cbn iota. cbn [negb].
  reflexivity.
Qed.

Lemma slice_middle pre mid post :
  slice (pre ++ mid ++ post) (length pre) (length pre + length mid) = mid.
Proof.
  unfold slice. rewrite drop_app_length.
  replace (length pre + length mid - length pre)%nat with (length mid) by lia.
  apply take_app_length.
Qed.

End Scan.



(** ** Properties of the string primitives *)

Section Strings.

Lemma lstrip_app_nonspace pre c s :
  is_space c = false -> lstrip (pre ++ c :: s) = lstrip pre ++ c :: s.
Proof.
  intros Hc. induction pre as [|x pre IH]; cbn.
  - now rewrite Hc.
  - destruct (is_space x); [exact IH | reflexivity].
Qed.

Lemma lstrip_all_space ws s :
  all_space ws = true -> lstrip (ws ++ s) = lstrip s.
Proof.
  induction ws as [|x ws IH]; cbn; [reflexivity|].
  intros H. apply andb_prop in H as [Hx Hws]. now rewrite Hx, IH.
Qed.

Lemma lstrip_space_nil ws : all_space ws = true -> lstrip ws = [].
Proof.
  intros H. rewrite <- (app_nil_r ws). now rewrite lstrip_all_space.
Qed.

Lemma all_space_rev ws : all_space ws = true -> all_space (rev ws) = true.
Proof.
  unfold all_space. rewrite !forallb_forall. intros H x Hx.
  apply H. now apply in_rev.
Qed.

Lemma rstrip_app_nonspace s c post :
  is_space c = false -> rstrip (s ++ c :: post) = s ++ c :: rstrip post.
Proof.
  intros Hc. unfold rstrip.
  rewrite rev_app_distr. cbn [rev]. rewrite <- app_assoc. cbn [app].
  rewrite lstrip_app_nonspace by assumption.
  rewrite rev_app_distr. cbn [rev]. rewrite rev_involutive.
  now rewrite <- app_assoc.
Qed.

Lemma rstrip_space_nil ws : all_space ws = true -> rstrip ws = [].
Proof.
  intros H. unfold rstrip. now rewrite lstrip_space_nil by now apply all_space_rev.
Qed.

Lemma strip_between pre c mid d post :
  is_space c = false -> is_space d = false ->
  strip (pre ++ c :: mid ++ d :: post) = lstrip pre ++ c :: mid ++ d :: rstrip post.
Proof.
  intros Hc Hd. unfold strip. rewrite lstrip_app_nonspace by assumption.
  change (lstrip pre ++ c :: mid ++ d :: post)
    with (lstrip pre ++ (c :: mid) ++ d :: post).
  rewrite app_assoc, rstrip_app_nonspace by assumption.
  now rewrite <- app_assoc.
Qed.

Lemma lstrip_suffix s : exists ws, s = ws ++ lstrip s.
Proof.
  induction s as [|x s [ws IH]]; cbn.
  - now exists [].
  - destruct (is_space x).
    + exists (x :: ws). cbn. now f_equal.
    + now exists [].
Qed.

Lemma rstrip_prefix s : exists ws, s = rstrip s ++ ws.
Proof.
  unfold rstrip. destruct (lstrip_suffix (rev s)) as [ws H].
  exists (rev ws). rewrite <- rev_app_distr, <- H. now rewrite rev_involutive.
Qed.

Lemma strip_infix s : exists a b, s = a ++ strip s ++ b.
Proof.
  unfold strip. destruct (lstrip_suffix s) as [a Ha].
  destruct (rstrip_prefix (lstrip s)) as [b Hb].
  exists a, b. now rewrite <- Hb.
Qed.

Lemma startswith_app p u v :
  (length p <= length u)%nat -> startswith p (u ++ v) = startswith p u.
Proof.
  revert u. induction p as [|c p IH]; intros u Hlen; [now destruct u|].
  destruct u as [|d u]; cbn in *; [lia|].
  rewrite IH by lia. reflexivity.
Qed.

Lemma startswith_mono p u v :
  startswith p u = true -> startswith p (u ++ v) = true.
Proof.
  revert u. induction p as [|c p IH]; intros u H; [now destruct u|].
  destruct u as [|d u]; cbn in *; [discriminate|].
  apply andb_prop in H as [H1 H2]. now rewrite H1, IH.
Qed.

Lemma startswith_self p v : startswith p (p ++ v) = true.
Proof.
  induction p as [|c p IH]; cbn; [reflexivity|].
  now rewrite N.eqb_refl, IH.
Qed.

Lemma contains_app_l sub u v :
  contains sub u = true -> contains sub (u ++ v) = true.
Proof.
  induction u as [|x u IH]; cbn; intros H.
  - rewrite orb_false_r in H. destruct sub; [|discriminate].
    destruct v; reflexivity.
  - apply orb_prop in H as [H|H].
    + change (x :: u ++ v) with ((x :: u) ++ v).
      now rewrite startswith_mono.
    + rewrite IH by assumption. apply orb_true_r.
Qed.

Lemma contains_app_r sub u v :
  contains sub v = true -> contains sub (u ++ v) = true.
Proof.
  induction u as [|x u IH]; cbn; intros H; [assumption|].
  rewrite IH by assumption. apply orb_true_r.
Qed.

Lemma contains_here sub v : contains sub (sub ++ v) = true.
Proof.
  destruct (sub ++ v) eqn:E; cbn; rewrite <- E, startswith_self; reflexivity.
Qed.

Lemma fence_free_infix a s b :
  fence_free (a ++ s ++ b) = true -> fence_free s = true.
Proof.
  unfold fence_free. rewrite !negb_true_iff. intros H.
  destruct (contains fence s) eqn:E; [|reflexivity].
  rewrite <- H. symmetry. apply contains_app_r. now apply contains_app_l.
Qed.

Lemma fence_free_strip s : fence_free s = true -> fence_free (strip s) = true.
Proof.
  intros H. destruct (strip_infix s) as (a & b & E).
  rewrite E in H. exact (fence_free_infix _ _ _ H).
Qed.

(** A fence cannot reach across a character that is not a backtick. *)
Lemma contains_fence_cut u c v :
  (c =? c_backtick)%N = false ->
  contains fence (u ++ c :: v) = contains fence u || contains fence v.
Proof.
  intros Hc. rewrite N.eqb_sym in Hc. induction u as [|x u IH].
  - cbn [app contains]. unfold fence. cbn [startswith]. now rewrite Hc.
  - cbn [app contains]. rewrite IH, orb_assoc. f_equal. f_equal.
    destruct u as [|y [|z u]]; unfold fence; cbn [app startswith].
    + now rewrite Hc.
    + now rewrite Hc, !andb_false_r.
    + reflexivity.
Qed.

Lemma is_space_not_backtick c : is_space c = true -> (c =? c_backtick)%N = false.
Proof.
  intros H. destruct (c =? c_backtick)%N eqn:E; [|reflexivity].
  apply N.eqb_eq in E. subst c. discriminate H.
Qed.

Lemma all_space_no_tick ws : all_space ws = true -> no_tick ws = true.
Proof.
  unfold all_space, no_tick. rewrite !forallb_forall. intros H x Hx.
  now rewrite is_space_not_backtick by now apply H.
Qed.

Lemma no_tick_app u v : no_tick (u ++ v) = no_tick u && no_tick v.
Proof. apply forallb_app. Qed.

Lemma no_tick_free u v : no_tick u = true -> contains fence (u ++ v) = contains fence v.
Proof.
  induction u as [|x u IH]; intros H; [reflexivity|].
  cbn in H. apply andb_prop in H as [Hx Hu]. apply negb_true_iff in Hx.
  change ((x :: u) ++ v) with ([] ++ x :: (u ++ v)).
  rewrite contains_fence_cut by assumption. cbn [contains]. cbn.
  now apply IH.
Qed.

Lemma fence_free_two_ticks : fence_free [c_backtick; c_backtick] = true.
Proof. reflexivity. Qed.

Lemma split_go_last acc s :
  fence_free s = true -> split_go fence acc 0 s = [rev acc ++ s].
Proof.
  revert acc. induction s as [|c s IH]; intros acc H; cbn [split_go].
  - now rewrite app_nil_r.
  - unfold fence_free in *. apply negb_true_iff in H. cbn [contains] in H.
    apply orb_false_elim in H as [H1 H2]. rewrite H1.
    rewrite IH by now apply negb_true_iff. cbn [rev].
    now rewrite <- app_assoc.
Qed.

Lemma split_go_first acc a rest :
  fence_free (a ++ [c_backtick; c_backtick]) = true ->
  split_go fence acc 0 (a ++ fence ++ rest)
  = (rev acc ++ a) :: split_go fence [] 0 rest.
Proof.
  revert acc. induction a as [|c a IH]; intros acc H.
  - cbn. now rewrite app_nil_r.
  - cbn [app split_go].
    assert (Hs : startswith fence (c :: a ++ fence ++ rest) = false).
    { unfold fence_free in H. apply negb_true_iff in H. cbn [app contains] in H.
      apply orb_false_elim in H as [H1 _].
      change (fence ++ rest) with ([c_backtick; c_backtick] ++ c_backtick :: rest).
      change (c :: a ++ [c_backtick; c_backtick] ++ c_backtick :: rest)
        with ((c :: a) ++ [c_backtick; c_backtick] ++ c_backtick :: rest).
      rewrite app_assoc, startswith_app; [exact H1|].
      rewrite length_app. cbn. lia. }
    rewrite Hs. rewrite IH.
    + cbn [rev]. now rewrite <- app_assoc.
    + unfold fence_free in *. apply negb_true_iff in H. apply negb_true_iff.
      cbn [app contains] in H. now apply orb_false_elim in H as [_ H].
Qed.

Lemma split_fenced a b c :
  fence_free (a ++ [c_backtick; c_backtick]) = true ->
  fence_free (b ++ [c_backtick; c_backtick]) = true ->
  fence_free c = true ->
  split fence (a ++ fence ++ b ++ fence ++ c) = [a; b; c].
Proof.
  intros Ha Hb Hc. unfold split.
  rewrite split_go_first by assumption.
  rewrite split_go_first by assumption.
  now rewrite split_go_last by assumption.
Qed.

End Strings.


(** ** Properties of the extractor *)

Section ExtractProps.

Variable env : Env.

Lemma balanced_app x y : balanced x -> balanced y -> balanced (x ++ y).
Proof.
  induction 1 as [|c s Hc Hs IH|t s Ht Hs IH|a s Ha IHa Hs IHs|a s Ha IHa Hs IHs];
    intros Hy; cbn [app].
  - assumption.
  - apply bal_plain; auto.
  - rewrite <- app_assoc. apply bal_string; auto.
  - rewrite <- app_assoc. cbn [app]. apply bal_object; auto.
  - rewrite <- app_assoc. cbn [app]. apply bal_array; auto.
Qed.

Lemma is_space_plain c : is_space c = true -> is_plain c = true.
Proof.
  intros H. unfold is_plain, is_opener, is_closer.
  destruct (c =? c_quote)%N eqn:E1;
    [apply N.eqb_eq in E1; subst c; discriminate H|].
  destruct (c =? c_lbrace)%N eqn:E2;
    [apply N.eqb_eq in E2; subst c; discriminate H|].
  destruct (c =? c_lbracket)%N eqn:E3;
    [apply N.eqb_eq in E3; subst c; discriminate H|].
  destruct (c =? c_rbrace)%N eqn:E4;
    [apply N.eqb_eq in E4; subst c; discriminate H|].
  destruct (c =? c_rbracket)%N eqn:E5;
    [apply N.eqb_eq in E5; subst c; discriminate H|].
  reflexivity.
Qed.

Lemma balanced_space ws : all_space ws = true -> balanced ws.
Proof.
  induction ws as [|c ws IH]; cbn; intros H; [constructor|].
  apply andb_prop in H as [Hc Hws].
  apply bal_plain; [now apply is_space_plain | auto].
Qed.

Lemma balanced_key_part k : key_part k -> balanced k.
Proof.
  intros [ws1 t ws2 ws3 H1 Ht H2 H3].
  apply balanced_app; [now apply balanced_space|].
  apply bal_string; [assumption|].
  apply balanced_app; [now apply balanced_space|].
  apply bal_plain; [reflexivity | now apply balanced_space].
Qed.

Lemma select_text_plain t : fence_free t = true -> select_text t = t.
Proof.
  unfold select_text, fence_free. intros H. apply negb_true_iff in H. now rewrite H.
Qed.

Lemma fence_hint_no_tick hint : fence_hint hint -> no_tick hint = true.
Proof.
  intros [ws H|ws1 ws2 H1 H2].
  - now apply all_space_no_tick.
  - rewrite !no_tick_app.
    rewrite (all_space_no_tick ws1), (all_space_no_tick ws2) by assumption.
    reflexivity.
Qed.

Lemma fence_free_mid hint body trail :
  no_tick hint = true -> fence_free (braces body) = true ->
  all_space trail = true ->
  fence_free ((hint ++ braces body ++ trail) ++ [c_backtick; c_backtick]) = true.
Proof.
  intros Hh Hb Ht. unfold fence_free in *. apply negb_true_iff.
  replace ((hint ++ braces body ++ trail) ++ [c_backtick; c_backtick])
    with (hint ++ [] ++ c_lbrace :: body ++ c_rbrace :: trail
                 ++ [c_backtick; c_backtick])
    by (unfold braces; now norm_app).
  rewrite no_tick_free by assumption.
  rewrite (contains_fence_cut [] c_lbrace) by reflexivity.
  rewrite (contains_fence_cut body c_rbrace) by reflexivity.
  rewrite no_tick_free by now apply all_space_no_tick.
  apply negb_true_iff in Hb. unfold braces in Hb.
  change (c_lbrace :: body ++ [c_rbrace])
    with ([] ++ c_lbrace :: body ++ c_rbrace :: []) in Hb.
  rewrite (contains_fence_cut [] c_lbrace) in Hb by reflexivity.
  rewrite (contains_fence_cut body c_rbrace) in Hb by reflexivity.
  apply orb_false_elim in Hb as [_ Hb]. apply orb_false_elim in Hb as [Hb _].
  rewrite Hb. reflexivity.
Qed.

Lemma strip_braces_mid hint body trail :
  all_space trail = true ->
  strip (hint ++ braces body ++ trail) = lstrip hint ++ braces body.
Proof.
  intros Ht. unfold braces. norm_app.
  rewrite strip_between by reflexivity.
  now rewrite rstrip_space_nil by assumption.
Qed.

Lemma strip_hint hint body :
  fence_hint hint ->
  let text := lstrip hint ++ braces body in
  (if startswith (lit "json") (lower (lstrip text))
   then strip (drop 4 (lstrip text)) else text) = braces body.
Proof.
  intros [ws H|ws1 ws2 H1 H2]; cbn zeta.
  - rewrite (lstrip_space_nil ws) by assumption. reflexivity.
  - rewrite (lstrip_all_space ws1) by assumption.
    change (lstrip (lit "json" ++ ws2)) with (lit "json" ++ ws2).
    change (lstrip ((lit "json" ++ ws2) ++ braces body))
      with ((lit "json" ++ ws2) ++ braces body).
    change (startswith (lit "json") (lower ((lit "json" ++ ws2) ++ braces body)))
      with true. cbn iota.
    change (drop 4 ((lit "json" ++ ws2) ++ braces body)) with (ws2 ++ braces body).
    rewrite <- (app_nil_r (braces body)) at 1.
    rewrite strip_braces_mid by reflexivity.
    now rewrite (lstrip_space_nil ws2) by assumption.
Qed.

Lemma select_text_fenced pre hint body trail post :
  fence_free (pre ++ [c_backtick; c_backtick]) = true ->
  fence_hint hint -> fence_free (braces body) = true ->
  all_space trail = true -> fence_free post = true ->
  select_text (pre ++ fence ++ (hint ++ braces body ++ trail) ++ fence ++ post)
  = braces body.
Proof.
  intros Hpre Hh Hb Ht Hpost. unfold select_text.
  assert (Hc : contains fence
                 (pre ++ fence ++ (hint ++ braces body ++ trail) ++ fence ++ post)
               = true) by (apply contains_app_r, contains_here).
  rewrite Hc.
  rewrite split_fenced; try assumption;
    [|now apply fence_free_mid; [apply fence_hint_no_tick|..]].
  cbn [fenced_chunks negb andb].
  rewrite strip_braces_mid by assumption.
  assert (Hne : str_eqb (lstrip hint ++ braces body) [] = false).
  { unfold str_eqb. apply bool_decide_eq_false. unfold braces.
    intros E. apply app_eq_nil in E as [_ E]. discriminate E. }
  rewrite Hne. cbn [negb sort_desc foldr insert_desc].
  now apply strip_hint.
Qed.

Lemma strip_fenced_text pre mid post :
  strip (pre ++ fence ++ mid ++ fence ++ post)
  = lstrip pre ++ fence ++ mid ++ fence ++ rstrip post.
Proof.
  replace (pre ++ fence ++ mid ++ fence ++ post)
    with (pre ++ c_backtick :: ([c_backtick; c_backtick] ++ mid
                                 ++ [c_backtick; c_backtick]) ++ c_backtick :: post)
    by (unfold fence; now norm_app).
  rewrite strip_between by reflexivity. unfold fence. now norm_app.
Qed.

(** The scan and parse on a text in which an object follows bracket-free
    prose. *)
Lemma extract_at pre body post v text :
  select_text (strip text) = pre ++ braces body ++ post ->
  strip text <> [] ->
  no_opener pre = true -> balanced body ->
  env_json_loads env (braces body) = Ok v ->
  _extract_json_from_text env text = Ok v.
Proof.
  intros Hsel Hne Hpre Hbody Hv. unfold _extract_json_from_text.
  destruct (strip text) as [|c t] eqn:E; [congruence|].
  rewrite Hsel.
  assert (Hspan : _find_span (pre ++ braces body ++ post)
                  = Ok (length pre, S (length pre + length body))).
  { unfold braces. norm_app. now apply find_span_object. }
  rewrite Hspan. cbn [bind fst snd try_except].
  replace (S (length pre + length body) + 1)%nat
    with (length pre + length (braces body))%nat
    by (unfold braces; cbn; rewrite length_app; cbn; lia).
  rewrite slice_middle, Hv. reflexivity.
Qed.

End ExtractProps.


(** ** The extractor: the claims *)

Ltac solve_str_tail :=
  cbv; repeat first [ exact st_close
                    | apply st_escape
                    | apply st_char; [reflexivity | reflexivity |] ].

Lemma find_span_delimited object pre body post :
  no_opener pre = true -> balanced body ->
  _find_span (pre ++ delimited object body ++ post)
  = Ok (length pre, (length pre + length (delimited object body) - 1)%nat).
Proof.
  intros Hpre Hbody.
  replace (length pre + length (delimited object body) - 1)%nat
    with (S (length pre + length body))
    by (destruct object; cbn; rewrite length_app; cbn; lia).
  destruct object; cbn [delimited]; unfold braces, brackets; norm_app.
  - now apply find_span_object.
  - now apply find_span_array.
Qed.



(** C1, as amended. For a text holding one object whose first field has
    an array as its value, the extractor returns the parse of the whole
    object when the object stands in prose without a fence that has no
    opening brace or bracket before it, or inside the only Markdown
    fence of the text, with or without the language hint, whatever the
    prose around the fence holds. In the first case the span of the scan
    is the object, from its brace to the matching brace. *)
Theorem extract_whole_object env pre k a r post v :
  key_part k -> balanced a -> balanced r ->
  let obj := braces (k ++ brackets a ++ r) in
  env_json_loads env obj = Ok v ->
  (no_opener pre = true -> fence_free (pre ++ obj ++ post) = true ->
   _find_span (select_text (strip (pre ++ obj ++ post)))
   = Ok (length (lstrip pre), (length (lstrip pre) + length obj - 1)%nat)
   /\ _extract_json_from_text env (pre ++ obj ++ post) = Ok v)
  /\ (forall hint trail,
        fence_hint hint -> all_space trail = true ->
        fence_free (pre ++ [c_backtick; c_backtick]) = true ->
        fence_free obj = true -> fence_free post = true ->
        _extract_json_from_text env
          (pre ++ fence ++ hint ++ obj ++ trail ++ fence ++ post) = Ok v).
Proof.
  intros Hk Ha Hr obj Hv.
  assert (Hbody : balanced (k ++ brackets a ++ r)).
  { apply balanced_app; [now apply balanced_key_part|].
    unfold brackets. norm_app. now apply bal_array. }
  split.
  - intros Hpre Hfree.
    assert (Hstrip : strip (pre ++ obj ++ post) = lstrip pre ++ obj ++ rstrip post).
    { replace (pre ++ obj ++ post)
        with (pre ++ c_lbrace :: (k ++ brackets a ++ r) ++ c_rbrace :: post)
        by (subst obj; unfold braces; now norm_app).
      rewrite strip_between by reflexivity.
      subst obj. unfold braces. now norm_app. }
    assert (Hpre' : no_opener (lstrip pre) = true).
    { destruct (lstrip_suffix pre) as [ws E]. rewrite E in Hpre.
      unfold no_opener in *. rewrite forallb_app in Hpre.
      now apply andb_prop in Hpre as [_ Hpre]. }
    assert (Hsel : select_text (strip (pre ++ obj ++ post))
                   = lstrip pre ++ obj ++ rstrip post).
    { rewrite <- Hstrip. apply select_text_plain. now apply fence_free_strip. }
    split.
    + rewrite Hsel. apply (find_span_delimited true); assumption.
    + apply (extract_at env (lstrip pre) (k ++ brackets a ++ r) (rstrip post));
        try assumption.
      rewrite Hstrip. subst obj. unfold braces.
      intros E. apply app_eq_nil in E as [_ E]. discriminate E.
  - intros hint trail Hh Ht Hpre Hobj Hpost.
    assert (Hstrip :
      strip (pre ++ fence ++ hint ++ obj ++ trail ++ fence ++ post)
      = lstrip pre ++ fence ++ (hint ++ obj ++ trail) ++ fence ++ rstrip post).
    { replace (pre ++ fence ++ hint ++ obj ++ trail ++ fence ++ post)
        with (pre ++ fence ++ (hint ++ obj ++ trail) ++ fence ++ post)
        by now norm_app.
      apply strip_fenced_text. }
    apply (extract_at env [] (k ++ brackets a ++ r) []);
      try assumption; try reflexivity.
    + rewrite Hstrip, app_nil_r. cbn [app].
      apply select_text_fenced; try assumption.
      * destruct (lstrip_suffix pre) as [ws E].
        apply (fence_free_infix ws _ []).
        rewrite app_nil_r, app_assoc, <- E. exact Hpre.
      * destruct (rstrip_prefix post) as [ws E].
        apply (fence_free_infix [] _ ws). cbn [app]. rewrite <- E. exact Hpost.
    + rewrite Hstrip. unfold fence.
      intros E. apply app_eq_nil in E as [_ E]. discriminate E.
Qed.

Lemma extract_whole_object_witness :
  _extract_json_from_text plain_env sample_response = Ok sample_tags_value.
Proof.
  refine (proj2 (extract_whole_object plain_env (lit "here you go ")
                   (jlit "'tags': ") (jlit "'a','b'") (jlit ", 'desc': 'x'") []
                   sample_tags_value _ _ _ _)
                (lit "json" ++ [c_newline]) [c_newline] _ _ _ _ _).
  - apply (key_part_intro [] (jlit "tags'") [] [c_space]);
      [reflexivity | solve_str_tail | reflexivity | reflexivity].
  - apply (bal_string (jlit "a'") (jlit ",'b'")); [solve_str_tail|].
    apply bal_plain; [reflexivity|].
    apply (bal_string (jlit "b'") []); [solve_str_tail | apply bal_nil].
  - do 2 (apply bal_plain; [reflexivity|]).
    apply (bal_string (jlit "desc'") (jlit ": 'x'")); [solve_str_tail|].
    do 2 (apply bal_plain; [reflexivity|]).
    apply (bal_string (jlit "x'") []); [solve_str_tail | apply bal_nil].
  - reflexivity.
  - apply (hint_json [] [c_newline]); reflexivity.
  - reflexivity.
  - reflexivity.
  - reflexivity.
  - reflexivity.
Defined.


(** C1 as stated fails. The scan starts at the first opening brace or
    bracket of the text, also when that stands in the prose: in
    [draft_note_text] the span is the bracketed word, which is no JSON,
    and the extractor falls back to the whole text and raises, for every
    [json.loads] that rejects these two texts. And the text of a fence is
    preferred to the text around it: in [stray_fence_text] the word in
    the fence is chosen, not the object before it. In both texts the
    object is the only JSON value. *)
Lemma extract_whole_object_counterexample :
  env_json_loads plain_env sample_tags_text = Ok sample_tags_value
  /\ _find_span (select_text (strip draft_note_text)) = Ok (5%nat, 11%nat)
  /\ slice draft_note_text 5 12 = lit "[draft]"
  /\ (forall env e1 e2,
        env_json_loads env (lit "[draft]") = Raise e1 ->
        env_json_loads env draft_note_text = Raise e2 ->
        _extract_json_from_text env draft_note_text = Raise e2)
  /\ _extract_json_from_text plain_env draft_note_text = Raise JSONDecodeError
  /\ select_text (strip stray_fence_text) = lit "note"
  /\ (forall env e,
        env_json_loads env (lit "note") = Raise e ->
        _extract_json_from_text env stray_fence_text = Raise e)
  /\ _extract_json_from_text plain_env stray_fence_text = Raise JSONDecodeError.
Proof.
  assert (Hsel1 : select_text (strip draft_note_text) = draft_note_text)
    by (vm_compute; reflexivity).
  assert (Hspan : _find_span draft_note_text = Ok (5%nat, 11%nat))
    by (vm_compute; reflexivity).
  assert (Hsl : slice draft_note_text 5 12 = lit "[draft]")
    by (vm_compute; reflexivity).
  assert (Hsel2 : select_text (strip stray_fence_text) = lit "note")
    by (vm_compute; reflexivity).
  assert (Hno : _find_span (lit "note") = Raise (ValueError "no json start bracket found"))
    by (vm_compute; reflexivity).
  assert (G1 : forall env e1 e2,
             env_json_loads env (lit "[draft]") = Raise e1 ->
             env_json_loads env draft_note_text = Raise e2 ->
             _extract_json_from_text env draft_note_text = Raise e2).
  { intros env e1 e2 H1 H2. unfold _extract_json_from_text.
    destruct (strip draft_note_text) as [|c t] eqn:E; [discriminate E|].
    rewrite Hsel1, Hspan. cbn [bind fst snd].
    change (11 + 1)%nat with 12%nat. rewrite Hsl, H1. cbn [try_except]. exact H2. }
  assert (G2 : forall env e,
             env_json_loads env (lit "note") = Raise e ->
             _extract_json_from_text env stray_fence_text = Raise e).
  { intros env e H. unfold _extract_json_from_text.
    destruct (strip stray_fence_text) as [|c t] eqn:E; [discriminate E|].
    rewrite Hsel2, Hno. cbn [bind try_except]. exact H. }
  split; [reflexivity|]. split; [now rewrite Hsel1|]. split; [exact Hsl|].
  split; [exact G1|]. split; [apply (G1 plain_env JSONDecodeError); reflexivity|].
  split; [exact Hsel2|]. split; [exact G2|].
  apply (G2 plain_env); reflexivity.
Qed.


(** ** The match sanitizer: the loop *)

Section SanitizeProps.

Variable env : Env.

Let step := sanitize_step env.

Lemma demote_repeats_app seen l1 l2 :
  demote_repeats seen (l1 ++ l2)
  = demote_repeats seen l1 ++ demote_repeats (seen_after seen l1) l2.
Proof.
  revert seen. induction l1 as [|m l1 IH]; intros seen; cbn; [reflexivity|].
  destruct (mid m) as [z|]; [destruct (bool_decide (z ∈ seen))|];
    cbn; rewrite IH; reflexivity.
Qed.

Lemma seen_after_app seen l1 l2 :
  seen_after seen (l1 ++ l2) = seen_after (seen_after seen l1) l2.
Proof.
  revert seen. induction l1 as [|m l1 IH]; intros seen; cbn; [reflexivity|].
  destruct (mid m) as [z|]; [destruct (bool_decide (z ∈ seen))|];
    rewrite IH; reflexivity.
Qed.

(** One pass of the loop body appends nothing or one record; without
    reuse it is that record after [demote_repeats]. *)
Lemma sanitize_step_spec allowed max m :
  exists c,
    (forall u o, step allowed max true (u, o) m = (u, o ++ c))
    /\ (forall u o, step allowed max false (u, o) m
                    = (seen_after u c, o ++ demote_repeats u c)).
Proof.
  unfold step, sanitize_step.
  destruct m as [| | | | |l|d]; try (exists []; split; intros; now rewrite app_nil_r).
  destruct (py_int env (dict_get_default d (lit "srt_idx") PyNone)) as [i|e];
    [|exists []; split; intros; now rewrite app_nil_r].
  set (mid0 :=
         match
           match dict_get_default d (lit "id") PyNone with
           | PyNone => None
           | _ => match py_int env (dict_get_default d (lit "id") PyNone) with
                  | Ok z => Some z
                  | Raise _ => None
                  end
           end
         with
         | Some z => if (z <? 0) || (max <? z) then None else Some z
         | None => None
         end).
  set (t := _sanitize_transition env
              (dict_get_default d (lit "transition") PyNone) allowed).
  exists [{| srt_idx := i; mid := mid0; transition := t |}].
  split; intros u o.
  - destruct mid0; reflexivity.
  - cbn. destruct mid0 as [z|]; cbn; [|reflexivity].
    destruct (bool_decide (z ∈ u)); reflexivity.
Qed.

Lemma sanitize_fold ms allowed max :
  forall u o_t used o_f,
  exists X,
    fold_left (step allowed max true) ms (u, o_t) = (u, o_t ++ X)
    /\ fold_left (step allowed max false) ms (used, o_f)
       = (seen_after used X, o_f ++ demote_repeats used X).
Proof.
  induction ms as [|m ms IH]; intros u o_t used o_f; cbn [fold_left].
  - exists []. cbn. now rewrite !app_nil_r.
  - destruct (sanitize_step_spec allowed max m) as (c & Ht & Hf).
    rewrite Ht, Hf.
    destruct (IH u (o_t ++ c) (seen_after used c) (o_f ++ demote_repeats used c))
      as (X & HXt & HXf).
    exists (c ++ X). rewrite HXt, HXf.
    now rewrite demote_repeats_app, seen_after_app, !app_assoc.
Qed.

Lemma demote_repeats_fresh l :
  forall seen,
    NoDup (omap mid (demote_repeats seen l))
    /\ forall z, z ∈ omap mid (demote_repeats seen l) -> z ∉ seen.
Proof.
  induction l as [|m l IH]; intros seen; cbn.
  - split; [constructor | intros z Hz; inversion Hz].
  - destruct (mid m) as [z|] eqn:Em.
    + destruct (bool_decide (z ∈ seen)) eqn:Ez; cbn.
      * apply IH.
      * rewrite Em. apply bool_decide_eq_false in Ez.
        destruct (IH ({[z]} ∪ seen)) as [Hnd Hfresh]. split.
        -- apply NoDup_cons. split; [|assumption].
           intros Hin. apply Hfresh in Hin. clear -Hin. set_solver.
        -- intros y Hy. apply elem_of_cons in Hy as [->|Hy]; [assumption|].
           apply Hfresh in Hy. clear -Hy. set_solver.
    + cbn. rewrite Em. apply IH.
Qed.


Lemma sanitize_transition_allowed name allowed :
  DEFAULT_TRANSITION ∈ allowed ->
  _sanitize_transition env name allowed ∈ allowed.
Proof.
  intros Hd. unfold _sanitize_transition.
  destruct (bool_decide _) eqn:E; [now apply bool_decide_eq_true in E | assumption].
Qed.

Lemma sanitize_step_transitions allowed max reuse u o m :
  DEFAULT_TRANSITION ∈ allowed ->
  Forall (fun r => transition r ∈ allowed) o ->
  Forall (fun r => transition r ∈ allowed) (snd (step allowed max reuse (u, o) m)).
Proof.
  intros Hd Ho. unfold step, sanitize_step.
  destruct m as [| | | | |l|d]; try exact Ho.
  destruct (py_int _ _) as [i|e]; [|exact Ho].
  match goal with
  | |- context [let '(used, mid) := ?p in _] => destruct p as [u' mid']
  end.
  cbn [snd]. apply Forall_app. split; [assumption|].
  constructor; [|constructor]. cbn. now apply sanitize_transition_allowed.
Qed.

Lemma sanitize_fold_transitions allowed max reuse ms :
  DEFAULT_TRANSITION ∈ allowed ->
  forall u o,
    Forall (fun r => transition r ∈ allowed) o ->
    Forall (fun r => transition r ∈ allowed)
      (snd (fold_left (step allowed max reuse) ms (u, o))).
Proof.
  intros Hd. induction ms as [|m ms IH]; intros u o Ho; cbn [fold_left]; [exact Ho|].
  destruct (step allowed max reuse (u, o) m) as [u' o'] eqn:E.
  apply IH. change o' with (snd (u', o')). rewrite <- E.
  now apply sanitize_step_transitions.
Qed.


End SanitizeProps.


(** ** The deterministic fallback: the claim *)

Section FallbackProps.

Variable env : Env.

(** C6. When the sanitized list is not empty, there are materials and no
    record has a material, the fallback numbers the records by position:
    position modulo the number of materials when reuse is allowed, the
    position itself while it is below the number of materials and null
    from there on otherwise; the caption indices stay as they are. For
    three candidates without material and two materials the ids are
    0, 1, null without reuse and 0, 1, 0 with it. *)
Theorem fallback_by_position :
  (forall allow_reuse material_count matches,
     matches <> [] -> material_count <> 0%nat ->
     Forall (fun m => mid m = None) matches ->
     mid <$> fallback env allow_reuse material_count matches
     = fallback_id allow_reuse material_count <$> seq 0 (length matches)
     /\ srt_idx <$> fallback env allow_reuse material_count matches
        = srt_idx <$> matches)
  /\ mid <$> fallback env false 2 (sanitized_nulls false)
     = [Some 0; Some 1; None]
  /\ mid <$> fallback env true 2 (sanitized_nulls true)
     = [Some 0; Some 1; Some 0].
Proof.
  split; [|split; reflexivity].
  intros allow_reuse n matches Hne Hn Hnull. unfold fallback.
  rewrite bool_decide_eq_false_2 by assumption.
  rewrite (proj2 (Nat.eqb_neq n 0)) by assumption.
  assert (Hall : forallb (fun m => bool_decide (mid m = None)) matches = true).
  { apply forallb_forall. intros m Hm. apply bool_decide_eq_true.
    rewrite Forall_forall in Hnull. apply Hnull. now apply list_elem_of_In. }
  rewrite Hall. cbn [negb andb]. split.
  - rewrite fmap_imap. rewrite <- imap_seq_0. apply imap_ext.
    intros i m _. unfold fallback_id. cbn.
    destruct allow_reuse; [|reflexivity].
    now rewrite Nat2Z.inj_mod.
  - rewrite fmap_imap. rewrite <- (imap_const srt_idx). apply imap_ext.
    reflexivity.
Qed.

End FallbackProps.

Lemma fallback_by_position_witness :
  mid <$> fallback plain_env false 2 (sanitized_nulls false)
  = fallback_id false 2 <$> seq 0 3.
Proof.
  refine (proj1 (proj1 (fallback_by_position plain_env) false 2%nat
                   (sanitized_nulls false) _ _ _)).
  - discriminate.
  - discriminate.
  - repeat constructor.
Defined.

(** ** Running a computation step by step *)

Section Steps.

Context {A B : Type}.

Lemma mbind_ok (m : M A) (k : A -> M B) w a w' :
  m w = (Ok a, w') -> mbind m k w = k a w'.
Proof. intros H. unfold mbind. now rewrite H. Qed.

Lemma mbind_raise (m : M A) (k : A -> M B) w e w' :
  m w = (Raise e, w') -> mbind m k w = (Raise e, w').
Proof. intros H. unfold mbind. now rewrite H. Qed.

Lemma mtry_ok (m : M A) (h : exn -> M A) w a w' :
  m w = (Ok a, w') -> mtry m h w = (Ok a, w').
Proof. intros H. unfold mtry. now rewrite H. Qed.

Lemma mtry_raise (m : M A) (h : exn -> M A) w e w' :
  m w = (Raise e, w') -> mtry m h w = h e w'.
Proof. intros H. unfold mtry. now rewrite H. Qed.

Lemma mbind_inv_ok (m : M A) (k : A -> M B) w b w2 :
  mbind m k w = (Ok b, w2) ->
  exists a w1, m w = (Ok a, w1) /\ k a w1 = (Ok b, w2).
Proof.
  unfold mbind. destruct (m w) as [[a|e] w1]; intros H; [eauto | discriminate H].
Qed.

End Steps.

(** ** Computations that leave a file alone *)

Section Quiet.

Variable env : Env.
Variable p : str.

Lemma quiet_ret {A} (a : A) : quiet p (mret a).
Proof. intros w r w' H. now inversion H. Qed.

Lemma quiet_raise {A} e : quiet p (mraise (A := A) e).
Proof. intros w r w' H. now inversion H. Qed.

Lemma quiet_lift {A} (x : result A) : quiet p (mlift x).
Proof. intros w r w' H. now inversion H. Qed.

Lemma quiet_bind {A B} (m : M A) (k : A -> M B) :
  quiet p m -> (forall a, quiet p (k a)) -> quiet p (mbind m k).
Proof.
  intros Hm Hk w r w' H. unfold mbind in H.
  destruct (m w) as [[a|e] w1] eqn:E.
  - rewrite (Hk a _ _ _ H). exact (Hm _ _ _ E).
  - inversion H; subst. exact (Hm _ _ _ E).
Qed.

Lemma quiet_try {A} (m : M A) (h : exn -> M A) :
  quiet p m -> (forall e, quiet p (h e)) -> quiet p (mtry m h).
Proof.
  intros Hm Hh w r w' H. unfold mtry in H.
  destruct (m w) as [[a|e] w1] eqn:E.
  - inversion H; subst. exact (Hm _ _ _ E).
  - rewrite (Hh e _ _ _ H). exact (Hm _ _ _ E).
Qed.

Lemma quiet_emit e : is_write_to p e = false -> quiet p (emit e).
Proof.
  intros He w r w' H. inversion H; subst. cbn.
  rewrite List.filter_app. cbn. rewrite He. apply app_nil_r.
Qed.

Lemma quiet_path_exists q : quiet p (path_exists q).
Proof. intros w r w' H. now inversion H. Qed.

Lemma quiet_add_blob q : quiet p (add_blob q).
Proof. intros w r w' H. now inversion H. Qed.

Lemma quiet_set_file q c : quiet p (set_file q c).
Proof. intros w r w' H. now inversion H. Qed.

Lemma quiet_ensure_dir q : quiet p (_ensure_dir env q).
Proof.
  unfold _ensure_dir. destruct (env_makedirs_ok env q);
    [apply quiet_ret | apply quiet_raise].
Qed.

Lemma quiet_run_gemini_cli req : quiet p (run_gemini_cli env req).
Proof.
  intros w r w' H. inversion H; subst. cbn.
  rewrite List.filter_app. cbn. apply app_nil_r.
Qed.

Lemma quiet_write_text q c : q <> p -> quiet p (_write_text env q c).
Proof.
  intros Hq. unfold _write_text. apply quiet_bind.
  - apply quiet_emit. cbn. now apply bool_decide_eq_false.
  - intros _. destruct (env_write_outcome env q c).
    + apply quiet_set_file.
    + apply quiet_raise.
    + apply quiet_bind; [apply quiet_set_file | intros; apply quiet_raise].
Qed.

End Quiet.

Ltac quiet_step :=
  match goal with
  | |- quiet _ (mbind _ _) => apply quiet_bind; [|intros ?]
  | |- quiet _ (mtry _ _) => apply quiet_try; [|intros ?]
  | |- quiet _ (mret _) => apply quiet_ret
  | |- quiet _ (mraise _) => apply quiet_raise
  | |- quiet _ (mlift _) => apply quiet_lift
  | |- quiet _ (run_gemini_cli _ _) => apply quiet_run_gemini_cli
  | |- quiet _ (_write_text _ _ _) => apply quiet_write_text; assumption
  | |- quiet _ (path_exists _) => apply quiet_path_exists
  | |- quiet _ (add_blob _) => apply quiet_add_blob
  | |- quiet _ (_ensure_dir _ _) => apply quiet_ensure_dir
  | |- quiet _ (emit _) => apply quiet_emit; reflexivity
  | |- quiet _ (if ?b then _ else _) => destruct b
  | |- quiet _ (match ?x with _ => _ end) => destruct x
  end.

(** ** The matching phase: the claims *)

Section MatchProps.

Variable env : Env.

Lemma run_gemini_cli_step req w :
  run_gemini_cli env req w
  = (env_gemini env (calls_made w) req, with_trace w (trace w ++ [EvGemini req])).
Proof. reflexivity. Qed.

Lemma write_text_step path content w :
  let w1 := with_trace w (trace w ++ [EvWrite path content]) in
  _write_text env path content w
  = match env_write_outcome env path content with
    | Written => (Ok tt, with_files w1 (<[path := content]> (files w)))
    | NotOpened => (Raise OSError, w1)
    | Broken partial => (Raise OSError, with_files w1 (<[path := partial]> (files w)))
    end.
Proof.
  unfold _write_text, mbind, emit.
  destruct (env_write_outcome env path content); reflexivity.
Qed.

Lemma cached_matches_hit w p content v :
  files w !! p = Some content -> env_json_loads env content = Ok v ->
  cached_matches env false p w = (Ok (Some v), w).
Proof.
  intros Hf Hv. unfold cached_matches, mbind, path_exists, mtry, _read_text, mlift, mret.
  rewrite Hf. cbn. now rewrite Hf, Hv.
Qed.

(** C10. When the run is not forced and the match cache file holds
    parseable JSON, the function returns the parsed content as it is and
    leaves the files and the trace as they were: the model is not called,
    nothing is written, and the value does not pass through the sanitizer
    or the fallback. *)
Theorem cached_matches_returned srt_items materials cache_dir text_model
    style_hint allow_reuse w content v :
  files w !! match_cache_path env cache_dir = Some content ->
  env_json_loads env content = Ok v ->
  gemini_match_srt_to_materials env srt_items materials cache_dir text_model
    style_hint false allow_reuse w = (Ok v, w).
Proof.
  intros Hf Hv. unfold gemini_match_srt_to_materials.
  fold (match_cache_path env cache_dir).
  now rewrite (mbind_ok _ _ _ _ _ (cached_matches_hit w _ content v Hf Hv)).
Qed.

(** C9, as amended. In a run that asks the model, a failure of the
    matching phase is fatal: an exception is raised, no match list is
    returned and the match cache is not written. When the response cannot
    be parsed, the raw response is written to the diagnostic file before
    the error is raised, and a failure of that write is swallowed. When
    the response parses to a value that is not a list, the error is raised
    with nothing written: the call of the model is the only effect. *)
Theorem match_failures_fatal srt_items materials cache_dir text_model
    style_hint force allow_reuse w response :
  let req := match_request env srt_items materials (env_abspath env cache_dir)
               text_model style_hint allow_reuse in
  let run := gemini_match_srt_to_materials env srt_items materials cache_dir
               text_model style_hint force allow_reuse w in
  let raw_path := match_raw_path env cache_dir in
  cached_matches env force (match_cache_path env cache_dir) w = (Ok None, w) ->
  env_gemini env (calls_made w) req = Ok response ->
  (forall e, _extract_json_from_text env response = Raise e ->
     fst run = Raise (RuntimeError "Failed to parse Gemini matches JSON")
     /\ trace (snd run) = trace w ++ [EvGemini req; EvWrite raw_path response]
     /\ (env_write_outcome env raw_path response = Written ->
         files (snd run) = <[raw_path := response]> (files w))
     /\ (env_write_outcome env raw_path response = NotOpened ->
         files (snd run) = files w))
  /\ (forall v, _extract_json_from_text env response = Ok v -> is_list v = false ->
     run = (Raise (RuntimeError "Gemini returned non-list matches JSON."),
            with_trace w (trace w ++ [EvGemini req]))).
Proof.
  intros req run raw_path Hc Hg. subst run.
  unfold gemini_match_srt_to_materials.
  fold (match_cache_path env cache_dir). rewrite (mbind_ok _ _ _ _ _ Hc).
  fold req.
  assert (Hrun : run_gemini_cli env req w
                 = (Ok response, with_trace w (trace w ++ [EvGemini req])))
    by now rewrite run_gemini_cli_step, Hg.
  rewrite (mbind_ok _ _ _ _ _ Hrun).
  set (w1 := with_trace w (trace w ++ [EvGemini req])).
  split.
  - intros e He. fold (match_raw_path env cache_dir). fold raw_path.
    assert (Hx : mlift (_extract_json_from_text env response) w1 = (Raise e, w1))
      by (unfold mlift; now rewrite He).
    set (fatal := RuntimeError "Failed to parse Gemini matches JSON").
    assert (Hh : forall w2 r,
               mtry (_write_text env raw_path response) (fun _ => mret tt) w1
               = (Ok r, w2) ->
               (mtry (_write_text env raw_path response) (fun _ => mret tt) ;;
                mraise (A := pyval) fatal) w1 = (Raise fatal, w2)).
    { intros w2 r Hr. now rewrite (mbind_ok _ _ _ _ _ Hr). }
    rewrite (mbind_raise _ _ w1 fatal
               (snd (mtry (_write_text env raw_path response)
                       (fun _ => mret tt) w1))).
    + cbn [fst snd]. unfold mtry. rewrite write_text_step. cbn zeta.
      destruct (env_write_outcome env raw_path response) eqn:Ew; cbn;
        repeat split; try discriminate; try reflexivity;
        now rewrite <- app_assoc.
    + rewrite (mtry_raise _ _ _ _ _ Hx).
      destruct (mtry (_write_text env raw_path response) (fun _ => mret tt) w1)
        as [[r|e'] w2] eqn:Et.
      * now apply (Hh w2 r).
      * exfalso. unfold mtry in Et. rewrite write_text_step in Et.
        destruct (env_write_outcome env raw_path response); discriminate Et.
  - intros v Hv Hl.
    assert (Hx : mtry (mlift (_extract_json_from_text env response))
                   (fun _ =>
                      mtry (_write_text env (env_path_join env
                                               (env_abspath env cache_dir)
                                               (lit "srt_matches_raw.txt"))
                              response) (fun _ => mret tt) ;;
                      mraise (RuntimeError "Failed to parse Gemini matches JSON"))
                   w1 = (Ok v, w1))
      by (apply mtry_ok; unfold mlift; now rewrite Hv).
    rewrite (mbind_ok _ _ _ _ _ Hx). now rewrite Hl.
Qed.

End MatchProps.

Lemma cached_matches_returned_witness :
  gemini_match_srt_to_materials plain_env [] [] (lit "cache") None [] false false
    world_with_matches
  = (Ok stale_matches_value, world_with_matches).
Proof.
  refine (cached_matches_returned plain_env [] [] (lit "cache") None [] false
            world_with_matches stale_matches_text stale_matches_value _ _).
  - vm_compute. reflexivity.
  - reflexivity.
Defined.

Lemma match_failures_fatal_witness :
  let run := gemini_match_srt_to_materials plain_env [] [] (lit "cache") None []
               true false empty_world in
  fst run = Raise (RuntimeError "Failed to parse Gemini matches JSON")
  /\ files (snd run) !! match_raw_path plain_env (lit "cache") = Some (lit "sorry").
Proof.
  destruct (proj1 (match_failures_fatal plain_env [] [] (lit "cache") None []
                     true false empty_world (lit "sorry")
                     ltac:(reflexivity) ltac:(reflexivity))
                  JSONDecodeError ltac:(reflexivity))
    as (Hr & _ & Hw & _).
  split; [exact Hr|].
  cbv zeta. rewrite (Hw ltac:(reflexivity)). apply lookup_insert_eq.
Defined.

(** C9 as stated fails for a response that parses to a value that is not
    a list: the run is aborted, and the diagnostic file does not exist
    afterwards. *)
Lemma match_non_list_counterexample :
  let env := sample_env sample_tags_text in
  let run := gemini_match_srt_to_materials env [] [] (lit "cache") None []
               true false empty_world in
  fst run = Raise (RuntimeError "Gemini returned non-list matches JSON.")
  /\ files (snd run) !! match_raw_path env (lit "cache") = None
  /\ files (snd run) = ∅.
Proof. vm_compute. repeat split. Qed.

(** ** The caption parser: the claim *)

(** C3. The parser does not return for every input. A time value that
    has three fields separated by colons, one of which is not a number,
    makes [float] raise, and nothing between there and the caller catches
    it; only a time value with another number of fields gives 0.0. *)
Theorem parse_srt_content_raises env :
  parse_srt_content env srt_bad_time
  = Raise (ValueError "could not convert string to float")
  /\ parse_srt_content env srt_short_time
     = Ok [ {| idx := 1; start := S754_zero false;
               end_ := float_of_Z 1; text := lit "hi" |} ].
Proof.
  unfold parse_srt_content.
  split.
  - unfold parse_lines, int_of_str.
    destruct (env_int_max_str_digits env); vm_compute; reflexivity.
  - unfold parse_lines, int_of_str.
    destruct (env_int_max_str_digits env); vm_compute; reflexivity.
Qed.

(** ** The descriptive phase: the cache *)

Section CacheProps.

Variable env : Env.

Lemma float_eq_refl f : f <> S754_nan -> float_eq f f = true.
Proof.
  unfold float_eq, SFeqb, SFcompare.
  destruct f as [s|s| |s m e]; intros H; try reflexivity; try congruence.
  - now destruct s.
  - destruct s; rewrite Z.compare_refl;
      replace (Pos.compare_cont Eq m m) with Eq
        by (symmetry; apply Pos.compare_cont_refl); reflexivity.
Qed.

Lemma dict_get_set d k v : dict_get (dict_set d k v) k = Some v.
Proof.
  induction d as [|[k' v'] d IH]; cbn.
  - unfold str_eqb. now rewrite bool_decide_eq_true_2.
  - destruct (str_eqb k' k) eqn:E; cbn.
    + unfold str_eqb. now rewrite bool_decide_eq_true_2.
    + now rewrite E.
Qed.

Lemma cache_fresh_entry mt k du tg d vi mtime :
  float_eq mt mtime = true ->
  cache_fresh env false (cache_entry mt k du tg d vi) mtime = Ok true.
Proof.
  intros H. change (Ok (float_eq mt mtime) = Ok true). now rewrite H.
Qed.

Lemma cached_record_entry n abs_p kind mt k du tg d vi :
  cached_record env n abs_p kind (cache_entry mt k du tg d vi)
  = Ok (entry_record n abs_p k du tg d).
Proof. reflexivity. Qed.

(** The loop body on a material whose entry passes the freshness test. *)
Lemma analyze_one_fresh cd md sd jp vm cache results p e r w :
  let abs_p := env_abspath env p in
  dict_get cache abs_p = Some e ->
  cache_fresh env false e (probed_mtime env abs_p) = Ok true ->
  cached_record env (length results) abs_p (material_kind env abs_p) e = Ok r ->
  analyze_one env cd md sd jp vm false (cache, results) p w
  = (Ok (cache, results ++ [r]), w).
Proof.
  intros abs_p Hd Hf Hr. unfold analyze_one.
  fold abs_p. fold (material_kind env abs_p). fold (probed_mtime env abs_p).
  rewrite Hd.
  rewrite (mbind_ok _ _ w true w) by (unfold mlift; now rewrite Hf).
  cbn iota.
  rewrite (mbind_ok _ _ w r w) by (unfold mlift; now rewrite Hr).
  reflexivity.
Qed.

Lemma quiet_describe jp cd vm sp :
  env_path_join env cd (lit "analysis_raw_last.txt") <> jp ->
  quiet jp (describe env cd vm sp).
Proof. intros Hne. unfold describe. repeat quiet_step. Qed.

Lemma quiet_copy_into_cache jp src md : quiet jp (_copy_into_cache env src md).
Proof. unfold _copy_into_cache. repeat quiet_step. Qed.

(** A compute step that comes to its end has put the entry of the
    material into the cache, written the whole cache to its file, and
    written that file once. *)
Lemma compute_material_ok cd md sd jp vm cache results abs_p kind mtime cached
    w c' rs' w' :
  env_path_join env cd (lit "analysis_raw_last.txt") <> jp ->
  compute_material env cd md sd jp vm cache results abs_p kind mtime cached w
  = (Ok (c', rs'), w') ->
  exists du tg d vi,
    c' = dict_set cache abs_p (cache_entry mtime kind du tg d vi)
    /\ rs' = results ++ [entry_record (length results) abs_p kind du tg d]
    /\ files w' !! jp = Some (env_json_dumps env (PyDict c'))
    /\ writes_to jp w' = S (writes_to jp w).
Proof.
  intros Hne H. unfold compute_material in H.
  apply mbind_inv_ok in H as (vi & w1 & H1 & H).
  apply mbind_inv_ok in H as (du & w2 & H2 & H).
  apply mbind_inv_ok in H as ([tg d] & w3 & H3 & H).
  apply mbind_inv_ok in H as ([] & w4 & H4 & H).
  inversion H; subst; clear H.
  exists du, tg, d, vi. repeat split.
  - rewrite write_text_step in H4. cbv zeta in H4.
    destruct (env_write_outcome env jp _); inversion H4; subst.
    cbn. apply lookup_insert_eq.
  - assert (Q1 : List.filter (is_write_to jp) (trace w1)
                 = List.filter (is_write_to jp) (trace w)).
    { revert H1. generalize w1. generalize (Ok (A := str) vi).
      intros r0 w0. revert w r0 w0.
      change (quiet jp
                (if str_eqb kind (lit "video") then
                   let key := env_sha1 env (abs_p ++ env_py_repr env (PyFloat mtime)) in
                   let storyboard_path := env_path_join env sd (key ++ lit ".jpg") in
                   let! there := path_exists storyboard_path in
                   (if there then mret tt
                    else
                      emit (EvStoryboard abs_p storyboard_path) ;;
                      if env_storyboard_ok env abs_p storyboard_path
                      then add_blob storyboard_path
                      else mraise (RuntimeError "storyboard")) ;;
                   mret storyboard_path
                 else _copy_into_cache env abs_p md)).
      destruct (str_eqb kind (lit "video")); [|apply quiet_copy_into_cache].
      cbv zeta. repeat quiet_step. }
    assert (Q2 : List.filter (is_write_to jp) (trace w2)
                 = List.filter (is_write_to jp) (trace w1)).
    { destruct (str_eqb kind (lit "video") && truthy cached).
      - exact (quiet_lift jp _ _ _ _ H2).
      - exact (quiet_ret jp _ _ _ _ H2). }
    assert (Q3 : List.filter (is_write_to jp) (trace w3)
                 = List.filter (is_write_to jp) (trace w2)).
    { revert H3. apply quiet_try; [now apply quiet_describe|].
      intros e. repeat quiet_step. }
    rewrite write_text_step in H4. cbv zeta in H4.
    unfold writes_to. rewrite <- Q1, <- Q2, <- Q3.
    destruct (env_write_outcome env jp _); inversion H4; subst.
    cbn. rewrite List.filter_app, length_app. cbn.
    rewrite bool_decide_eq_true_2 by reflexivity. cbn. lia.
Qed.

Lemma analyze_one_unfold cd md sd jp vm force cache results p w :
  let abs_p := env_abspath env p in
  let kind := material_kind env abs_p in
  let mtime := probed_mtime env abs_p in
  let cached := cached_entry cache abs_p in
  analyze_one env cd md sd jp vm force (cache, results) p w
  = match cache_fresh env force cached mtime with
    | Ok true =>
        match cached_record env (length results) abs_p kind cached with
        | Ok r => (Ok (cache, results ++ [r]), w)
        | Raise e => (Raise e, w)
        end
    | Ok false =>
        compute_material env cd md sd jp vm cache results abs_p kind mtime cached w
    | Raise e => (Raise e, w)
    end.
Proof.
  cbv zeta. unfold analyze_one, material_kind, probed_mtime, cached_entry.
  unfold mbind at 1. unfold mlift at 1.
  match goal with
  | |- context [cache_fresh ?a ?b ?c ?d] =>
      destruct (cache_fresh a b c d) as [[|]|e]
  end; reflexivity.
Qed.

Lemma analyze_run_unfold paths cache_dir vm force w :
  let cd := env_abspath env cache_dir in
  let md := env_path_join env cd (lit "media") in
  let sd := env_path_join env cd (lit "storyboards") in
  analyze_run env paths cache_dir vm force w
  = if env_makedirs_ok env md then
      if env_makedirs_ok env sd then
        match loaded_cache env cache_dir w with
        | PyDict d =>
            analyze_loop env cd md sd (analysis_cache_path env cache_dir)
              vm force (d, []) paths w
        | _ =>
            match paths with
            | [] => (Ok ([], []), w)
            | _ :: _ => (Raise AttributeError, w)
            end
        end
      else (Raise OSError, w)
    else (Raise OSError, w).
Proof.
  intros cd md sd. unfold analyze_run, _ensure_dir, loaded_cache.
  fold (analysis_cache_path env cache_dir).
  set (jp := analysis_cache_path env cache_dir).
  fold cd. fold md. fold sd.
  destruct (env_makedirs_ok env md); [|reflexivity].
  rewrite (mbind_ok _ _ w md w) by reflexivity.
  destruct (env_makedirs_ok env sd); [|reflexivity].
  rewrite (mbind_ok _ _ w sd w) by reflexivity.
  destruct (files w !! jp) as [c|] eqn:Ef.
  - rewrite (mbind_ok _ _ w true w)
      by (unfold path_exists; now rewrite Ef).
    destruct (env_json_loads env c) as [v|e] eqn:El.
    + rewrite (mbind_ok _ _ w v w);
        [destruct v; try reflexivity; destruct paths; reflexivity|].
      apply mtry_ok. rewrite (mbind_ok _ _ w c w).
      * unfold mlift. now rewrite El.
      * unfold _read_text. now rewrite Ef.
    + rewrite (mbind_ok _ _ w (PyDict []) w); [reflexivity|].
      rewrite (mtry_raise _ _ w e w); [reflexivity|].
      rewrite (mbind_ok _ _ w c w).
      * unfold mlift. now rewrite El.
      * unfold _read_text. now rewrite Ef.
  - destruct (bool_decide (jp ∈ blobs w)) eqn:Eb.
    + rewrite (mbind_ok _ _ w true w)
        by (unfold path_exists; now rewrite Ef, Eb).
      rewrite (mbind_ok _ _ w (PyDict []) w); [reflexivity|].
      rewrite (mtry_raise _ _ w OSError w); [reflexivity|].
      apply mbind_raise. unfold _read_text. now rewrite Ef.
    + rewrite (mbind_ok _ _ w false w)
        by (unfold path_exists; now rewrite Ef, Eb).
      now rewrite (mbind_ok _ _ w (PyDict []) w).
Qed.

Lemma cache_fresh_true force cached mtime :
  cache_fresh env force cached mtime = Ok true ->
  force = false /\ cached <> PyNone.
Proof.
  unfold cache_fresh. destruct force; [discriminate|].
  destruct cached; cbn; try discriminate; auto.
Qed.

End CacheProps.

(** C7. With [force] off, a material whose stored entry carries the
    modification time now probed is served from the cache: the loop body
    returns the record of the stored entry, with the cache, the files and
    the trace as they were, so no model call, no proxy and no cache write
    is made for it. Hence two analyses of one unchanged file compute once:
    after a first analysis that came to its end, with [json.loads] giving
    back the cache that [json.dumps] wrote, a second analysis returns the
    same records and leaves the world as it is; the first one wrote the
    cache at most once, and exactly once when there was no cache file. *)
Theorem cache_spares_compute env cache_dir :
  (forall cd md sd jp vm cache results p w mt k du tg d vi,
     let abs_p := env_abspath env p in
     dict_get cache abs_p = Some (cache_entry mt k du tg d vi) ->
     float_eq mt (probed_mtime env abs_p) = true ->
     analyze_one env cd md sd jp vm false (cache, results) p w
     = (Ok (cache, results ++ [entry_record (length results) abs_p k du tg d]), w))
  /\ (forall p vm vm' force w0 d1 rs w1,
        let jp := analysis_cache_path env cache_dir in
        analysis_raw_path env cache_dir <> jp ->
        probed_mtime env (env_abspath env p) <> S754_nan ->
        analyze_run env [p] cache_dir vm force w0 = (Ok (d1, rs), w1) ->
        env_json_loads env (env_json_dumps env (PyDict d1)) = Ok (PyDict d1) ->
        analyze_materials_with_gemini env [p] cache_dir vm' false w1 = (Ok rs, w1)
        /\ (writes_to jp w1 <= S (writes_to jp w0))%nat
        /\ (files w0 !! jp = None -> writes_to jp w1 = S (writes_to jp w0))).
Proof.
  split.
  - intros cd md sd jp vm cache results p w mt k du tg d vi abs_p Hd Hm.
    apply (analyze_one_fresh env cd md sd jp vm cache results p
             (cache_entry mt k du tg d vi)); try assumption.
    + now apply cache_fresh_entry.
    + apply cached_record_entry.
  - intros p vm vm' force w0 d1 rs w1 jp Hraw Hnan Hrun Hrt.
    set (abs_p := env_abspath env p) in *.
    rewrite analyze_run_unfold in Hrun. cbv zeta in Hrun.
    destruct (env_makedirs_ok env _) eqn:Emd in Hrun; [|discriminate Hrun].
    destruct (env_makedirs_ok env _) eqn:Esd in Hrun; [|discriminate Hrun].
    destruct (loaded_cache env cache_dir w0) as [| | | | | |d0] eqn:Hl;
      try discriminate Hrun.
    cbn [analyze_loop] in Hrun.
    apply mbind_inv_ok in Hrun as (st' & w' & H1 & H2).
    inversion H2; subst st' w'; clear H2.
    rewrite analyze_one_unfold in H1. cbv zeta in H1. fold abs_p in H1.
    assert (Hsecond : forall w e r,
              loaded_cache env cache_dir w = PyDict d1 ->
              dict_get d1 abs_p = Some e ->
              cache_fresh env false e (probed_mtime env abs_p) = Ok true ->
              cached_record env 0 abs_p (material_kind env abs_p) e = Ok r ->
              analyze_materials_with_gemini env [p] cache_dir vm' false w
              = (Ok [r], w)).
    { intros w e r Hw He Hf Hr. unfold analyze_materials_with_gemini.
      rewrite (mbind_ok _ _ w (d1, [r]) w); [reflexivity|].
      rewrite analyze_run_unfold. cbv zeta. rewrite Emd, Esd, Hw.
      cbn [analyze_loop].
      rewrite (mbind_ok _ _ w (d1, [r]) w); [reflexivity|].
      now apply (analyze_one_fresh env _ _ _ _ vm' d1 [] p e r w). }
    destruct (cache_fresh env force (cached_entry d0 abs_p)
                (probed_mtime env abs_p)) as [[|]|e] eqn:Hf;
      [| |discriminate H1].
    + (* the first analysis was served from the cache *)
      destruct (cached_record env (length []) abs_p (material_kind env abs_p)
                  (cached_entry d0 abs_p)) as [r|e] eqn:Hr;
        [|discriminate H1].
      inversion H1; subst d1 rs w1; clear H1.
      destruct (cache_fresh_true env _ _ _ Hf) as [-> Hsome].
      unfold cached_entry in Hf, Hr, Hsome.
      destruct (dict_get d0 abs_p) as [e|] eqn:Hd; [|congruence].
      repeat split.
      * now apply (Hsecond w0 e r).
      * lia.
      * intros Hnone. exfalso. unfold loaded_cache in Hl. fold jp in Hl.
        rewrite Hnone in Hl. inversion Hl; subst d0. discriminate Hd.
    + (* the first analysis computed *)
      apply compute_material_ok in H1 as (du & tg & d & vi & Hd1 & Hrs & Hfile & Hw);
        [|exact Hraw].
      fold jp in Hfile, Hw.
      repeat split.
      * rewrite Hrs. cbn [app length].
        apply (Hsecond w1 (cache_entry (probed_mtime env abs_p)
                             (material_kind env abs_p) du tg d vi)).
        -- unfold loaded_cache. fold jp. now rewrite Hfile, Hrt.
        -- rewrite Hd1. apply dict_get_set.
        -- apply cache_fresh_entry. now apply float_eq_refl.
        -- apply cached_record_entry.
      * lia.
      * intros _. exact Hw.
Qed.

Lemma cache_spares_compute_witness :
  analyze_materials_with_gemini memo_env [lit "m.png"] (lit "cache") None false
    memo_world
  = (Ok memo_results, memo_world)
  /\ (writes_to (analysis_cache_path memo_env (lit "cache")) memo_world
      <= S (writes_to (analysis_cache_path memo_env (lit "cache")) empty_world))%nat
  /\ (files empty_world !! analysis_cache_path memo_env (lit "cache") = None ->
      writes_to (analysis_cache_path memo_env (lit "cache")) memo_world
      = S (writes_to (analysis_cache_path memo_env (lit "cache")) empty_world)).
Proof.
  refine (proj2 (cache_spares_compute memo_env (lit "cache"))
            (lit "m.png") None None false empty_world memo_cache memo_results
            memo_world _ _ _ _).
  - vm_compute. discriminate.
  - vm_compute. discriminate.
  - vm_compute. reflexivity.
  - vm_compute. reflexivity.
Defined.

Example memo_first_computes :
  trace memo_world
  = [ EvCopy (lit "m.png") (lit "cache/media/m.png.png");
      EvGemini {| g_prompt := ANALYZE_INSTRUCTION; g_model := None;
                  g_stdin := lit "cache/media/m.png.png";
                  g_dirs := [lit "ws"; lit "cache"]; g_cwd := lit "ws";
                  g_timeout := 600 |};
      EvPrint (lit "m.png");
      EvWrite (lit "cache/material_analysis.json") (lit "cache-1") ].
Proof. vm_compute. reflexivity. Qed.

(** ** Rounding to 53 bits *)

Section Rounding.

Lemma iter_pos_nat {A} (f : A -> A) p x :
  SpecFloat.iter_pos f p x = Nat.iter (Pos.to_nat p) f x.
Proof.
  revert x. induction p as [p IH|p IH|]; intros x; cbn [SpecFloat.iter_pos].
  - rewrite !IH. rewrite Pos2Nat.inj_xI.
    replace (S (2 * Pos.to_nat p)) with (Pos.to_nat p + S (Pos.to_nat p))%nat by lia.
    rewrite Nat.iter_add. f_equal. now rewrite Nat.iter_succ_r.
  - rewrite !IH. rewrite Pos2Nat.inj_xO.
    replace (2 * Pos.to_nat p)%nat with (Pos.to_nat p + Pos.to_nat p)%nat by lia.
    now rewrite Nat.iter_add.
  - reflexivity.
Qed.

Lemma shr_1_spec m r s :
  0 <= m ->
  shr_1 {| shr_m := m; shr_r := r; shr_s := s |}
  = {| shr_m := m / 2; shr_r := Z.odd m; shr_s := r || s |}.
Proof.
  intros Hm. destruct m as [|p|p]; [reflexivity| |lia].
  destruct p as [p|p|]; cbn [shr_1].
  - f_equal. rewrite Pos2Z.inj_xI. apply (Z.div_unique _ _ _ 1); lia.
  - f_equal. rewrite Pos2Z.inj_xO. apply (Z.div_unique _ _ _ 0); lia.
  - reflexivity.
Qed.

Lemma sticky_step M p :
  0 < p ->
  Z.odd (M / p) || negb (M mod p =? 0) = negb (M mod (2 * p) =? 0).
Proof.
  intros Hp. rewrite (Z.mul_comm 2 p), Z.rem_mul_r by lia.
  rewrite Zmod_odd. pose proof (Z.mod_pos_bound M p Hp).
  destruct (Z.odd (M / p)); cbn [orb];
    destruct (Z.eqb_spec (M mod p) 0);
    match goal with |- context [?a =? 0] => destruct (Z.eqb_spec a 0) end;
    cbn; try reflexivity; lia.
Qed.

Lemma shr_nat n M :
  0 <= M ->
  Nat.iter (S n) shr_1 {| shr_m := M; shr_r := false; shr_s := false |}
  = {| shr_m := M / 2 ^ Z.of_nat (S n);
       shr_r := Z.odd (M / 2 ^ Z.of_nat n);
       shr_s := negb (M mod 2 ^ Z.of_nat n =? 0) |}.
Proof.
  intros HM. induction n as [|n IH].
  - cbn [Nat.iter]. rewrite shr_1_spec by assumption.
    change (2 ^ Z.of_nat 0) with 1. change (2 ^ Z.of_nat 1) with 2.
    rewrite Z.div_1_r, Z.mod_1_r. reflexivity.
  - rewrite Nat.iter_succ, IH.
    assert (Hp : 0 < 2 ^ Z.of_nat n) by (apply Z.pow_pos_nonneg; lia).
    assert (Hp' : 0 < 2 ^ Z.of_nat (S n)) by (apply Z.pow_pos_nonneg; lia).
    rewrite shr_1_spec by (apply Z.div_pos; lia).
    assert (E2 : 2 ^ Z.of_nat (S n) = 2 * 2 ^ Z.of_nat n)
      by (rewrite Nat2Z.inj_succ, Z.pow_succ_r by lia; reflexivity).
    f_equal.
    + rewrite Z.div_div by lia. f_equal.
      rewrite (Nat2Z.inj_succ (S n)), Z.pow_succ_r by lia. lia.
    + rewrite E2. now apply sticky_step.
Qed.

Lemma round_after_shr M p e :
  0 <= M ->
  let '(mrs, e') := shr {| shr_m := M; shr_r := false; shr_s := false |} e (Zpos p) in
  round_nearest_even (shr_m mrs) (loc_of_shr_record mrs) = rne_shift M (Zpos p)
  /\ e' = e + Zpos p.
Proof.
  intros HM. cbn [shr]. split; [|reflexivity].
  rewrite iter_pos_nat.
  destruct (Pos2Nat.is_succ p) as [n Hn]. rewrite Hn, shr_nat by assumption.
  assert (Ep : Zpos p = Z.of_nat (S n)) by lia.
  rewrite Ep. unfold rne_shift.
  assert (Hp : 0 < 2 ^ Z.of_nat n) by (apply Z.pow_pos_nonneg; lia).
  assert (E2 : 2 ^ Z.of_nat (S n) = 2 ^ Z.of_nat n * 2)
    by (rewrite Nat2Z.inj_succ, Z.pow_succ_r by lia; lia).
  assert (Hrem : M mod 2 ^ Z.of_nat (S n)
                 = M mod 2 ^ Z.of_nat n
                   + 2 ^ Z.of_nat n * (if Z.odd (M / 2 ^ Z.of_nat n) then 1 else 0))
    by (rewrite E2, Z.rem_mul_r by lia; now rewrite Zmod_odd).
  pose proof (Z.mod_pos_bound M (2 ^ Z.of_nat n) Hp) as Hb.
  cbn [shr_m loc_of_shr_record].
  destruct (Z.odd (M / 2 ^ Z.of_nat n));
    destruct (Z.eqb_spec (M mod 2 ^ Z.of_nat n) 0) as [E|E]; cbn [negb];
    cbn [round_nearest_even];
    match goal with
    | |- context [Z.compare ?a ?b] => destruct (Z.compare_spec a b)
    end; try reflexivity; lia.
Qed.

Lemma digits2_pos_size p : digits2_pos p = Pos.size p.
Proof. induction p; cbn; congruence. Qed.

Lemma Zdigits2_log2 p : Zdigits2 (Zpos p) = Z.log2 (Zpos p) + 1.
Proof.
  cbn [Zdigits2]. rewrite digits2_pos_size.
  destruct p; cbn [Z.log2 Pos.size]; lia.
Qed.

Lemma Zdigits2_bounds p :
  2 ^ (Zdigits2 (Zpos p) - 1) <= Zpos p < 2 ^ Zdigits2 (Zpos p).
Proof.
  rewrite Zdigits2_log2.
  replace (Z.log2 (Z.pos p) + 1 - 1) with (Z.log2 (Z.pos p)) by lia.
  replace (Z.log2 (Z.pos p) + 1) with (Z.succ (Z.log2 (Z.pos p))) by lia.
  apply Z.log2_spec. lia.
Qed.

Lemma Zdigits2_pos m : 0 < m -> Zdigits2 m = Z.log2 m + 1.
Proof. destruct m; try lia. intros _. apply Zdigits2_log2. Qed.

Lemma rne_shift_0 M : rne_shift M 0 = M.
Proof.
  unfold rne_shift. change (2 ^ 0) with 1. rewrite Z.div_1_r, Z.mod_1_r. reflexivity.
Qed.

Lemma rne_shift_bounds M k :
  0 <= M -> 0 <= k ->
  M / 2 ^ k <= rne_shift M k <= M / 2 ^ k + 1.
Proof.
  intros HM Hk. unfold rne_shift.
  destruct (2 * (M mod 2 ^ k) ?= 2 ^ k); [destruct (Z.even _)| |]; lia.
Qed.

(** The error of rounding is at most half of the last place kept. *)
Lemma rne_shift_error M k :
  0 <= M -> 0 <= k ->
  2 * Z.abs (rne_shift M k * 2 ^ k - M) <= 2 ^ k.
Proof.
  intros HM Hk. unfold rne_shift.
  assert (Hp : 0 < 2 ^ k) by (apply Z.pow_pos_nonneg; lia).
  pose proof (Z.div_mod M (2 ^ k) ltac:(lia)) as Hdm.
  pose proof (Z.mod_pos_bound M (2 ^ k) Hp) as Hb.
  destruct (Z.compare_spec (2 * (M mod 2 ^ k)) (2 ^ k));
    [destruct (Z.even _)| |]; nia.
Qed.

Lemma rne_shift_exact a k : 0 <= k -> rne_shift (a * 2 ^ k) k = a.
Proof.
  intros Hk. unfold rne_shift.
  assert (Hp : 0 < 2 ^ k) by (apply Z.pow_pos_nonneg; lia).
  rewrite Z.div_mul, Z.mod_mul by lia.
  destruct (Z.compare_spec (2 * 0) (2 ^ k)); [lia|reflexivity|lia].
Qed.

Lemma shr_fexp_fit m e :
  0 < m -> Zdigits2 m <= 53 -> -1074 <= e ->
  shr_fexp prec emax m e loc_Exact
  = ({| shr_m := m; shr_r := false; shr_s := false |}, e).
Proof.
  intros Hm Hd He. unfold shr_fexp, fexp, emin, prec, emax, shr. cbn [shr_record_of_loc].
  destruct (Z.max (Zdigits2 m + e - 53) (3 - 1024 - 53) - e) eqn:E; try reflexivity.
  lia.
Qed.

Lemma shr_fexp_long m e :
  0 < m -> 53 < Zdigits2 m -> -1074 <= e ->
  shr_fexp prec emax m e loc_Exact
  = shr {| shr_m := m; shr_r := false; shr_s := false |} e (Zdigits2 m - 53).
Proof.
  intros Hm Hd He. unfold shr_fexp, fexp, emin, prec, emax. cbn [shr_record_of_loc].
  f_equal. lia.
Qed.

Lemma excess_short M : 0 < M -> Z.log2 M + 1 <= 53 -> excess M = 0.
Proof. unfold excess. lia. Qed.

Lemma excess_long M : 0 < M -> 53 < Z.log2 M + 1 -> excess M = Z.log2 M + 1 - 53.
Proof. unfold excess. lia. Qed.

(** Rounding an exact value: the result is finite and stands for the
    mantissa rounded to 53 bits. *)
Lemma binary_round_aux_exact (mx : positive) ex :
  -1074 <= ex -> ex <= 971 -> Zdigits2 (Zpos mx) + ex <= 1023 ->
  exists m' e',
    binary_round_aux prec emax false (Zpos mx) ex loc_Exact = S754_finite false m' e'
    /\ ex <= e' <= 971 /\ Zpos m' < 2 ^ 53
    /\ Zpos m' * 2 ^ (e' - ex) = rnd53 (Zpos mx).
Proof.
  intros Hlo Hhi Hov. unfold binary_round_aux.
  pose proof (Zdigits2_bounds mx) as Hd.
  rewrite Zdigits2_log2 in Hd, Hov.
  destruct (Z_le_gt_dec (Z.log2 (Zpos mx) + 1) 53) as [Hs|Hl].
  - rewrite shr_fexp_fit by (rewrite ?Zdigits2_log2; lia).
    cbn [shr_m loc_of_shr_record round_nearest_even].
    rewrite shr_fexp_fit by (rewrite ?Zdigits2_log2; lia).
    cbn [shr_m]. unfold emax, prec.
    destruct (Z.leb_spec ex (1024 - 53)); [|lia].
    exists mx, ex. repeat split; try lia.
    { apply Z.log2_lt_pow2; lia. }
    unfold rnd53. rewrite excess_short by lia.
    rewrite rne_shift_0, Z.sub_diag. reflexivity.
  - rewrite shr_fexp_long by (rewrite ?Zdigits2_log2; lia).
    rewrite Zdigits2_log2.
    set (k := Z.log2 (Zpos mx) + 1 - 53) in *.
    assert (Hk : 0 < k) by (subst k; lia).
    destruct k as [|p|p] eqn:Ek; try lia.
    pose proof (round_after_shr (Zpos mx) p ex ltac:(lia)) as Hr.
    destruct (shr _ ex (Zpos p)) as [mrs e1]. destruct Hr as [Hr He1].
    rewrite Hr. subst e1.
    assert (Hp : 0 < 2 ^ Zpos p) by (apply Z.pow_pos_nonneg; lia).
    pose proof (rne_shift_bounds (Zpos mx) (Zpos p) ltac:(lia) ltac:(lia)) as Hb.
    assert (Hq : 2 ^ 52 <= Zpos mx / 2 ^ Zpos p < 2 ^ 53).
    { split.
      - apply Z.div_le_lower_bound; [lia|].
        rewrite <- Z.pow_add_r by lia.
        replace (Zpos p + 52) with (Z.log2 (Zpos mx) + 1 - 1) by lia. lia.
      - apply Z.div_lt_upper_bound; [lia|].
        rewrite <- Z.pow_add_r by lia.
        replace (Zpos p + 53) with (Z.log2 (Zpos mx) + 1) by lia. lia. }
    set (m1 := rne_shift (Zpos mx) (Zpos p)) in *.
    assert (Hrnd : rnd53 (Zpos mx) = m1 * 2 ^ Zpos p).
    { unfold rnd53. rewrite excess_long by lia. fold k. rewrite Ek. reflexivity. }
    destruct (Z_lt_ge_dec m1 (2 ^ 53)) as [Hlt|Hge].
    + assert (Hlog : Z.log2 m1 = 52) by (apply Z.log2_unique; cbn; lia).
      rewrite shr_fexp_fit by (rewrite ?Zdigits2_pos; lia).
      cbn [shr_m]. destruct m1 as [|q|q] eqn:Em1; try lia.
      unfold emax, prec.
      destruct (Z.leb_spec (ex + Zpos p) (1024 - 53)); [|lia].
      exists q, (ex + Zpos p). repeat split; try lia.
      replace (ex + Zpos p - ex) with (Zpos p) by lia. now rewrite Hrnd.
    + assert (Em1 : m1 = 2 ^ 53) by lia.
      assert (Hlog : Z.log2 m1 = 53) by (rewrite Em1; reflexivity).
      rewrite shr_fexp_long by (rewrite ?Zdigits2_pos; lia).
      rewrite Zdigits2_pos, Hlog by lia.
      change (53 + 1 - 53) with 1. rewrite Em1.
      cbn [shr SpecFloat.iter_pos].
      change (shr_1 {| shr_m := 2 ^ 53; shr_r := false; shr_s := false |})
        with {| shr_m := 2 ^ 52; shr_r := false; shr_s := false |}.
      cbn [shr_m]. change (2 ^ 52) with (Zpos (2 ^ 52)).
      unfold emax, prec.
      destruct (Z.leb_spec (ex + Zpos p + 1) (1024 - 53)); [|lia].
      exists (2 ^ 52)%positive, (ex + Zpos p + 1). repeat split; try lia.
      rewrite Hrnd, Em1.
      replace (ex + Zpos p + 1 - ex) with (Zpos p + 1) by lia.
      rewrite Z.pow_add_r by lia. change (Zpos (2 ^ 52)) with (2 ^ 52).
      change (2 ^ 53) with (2 ^ 52 * 2 ^ 1). lia.
Qed.

Lemma rnd53_0 : rnd53 0 = 0.
Proof. reflexivity. Qed.

Lemma rne_shift_scale M k j :
  0 <= M -> 0 <= k -> 0 <= j -> rne_shift (M * 2 ^ j) (k + j) = rne_shift M k.
Proof.
  intros HM Hk Hj. unfold rne_shift.
  assert (Hpk : 0 < 2 ^ k) by (apply Z.pow_pos_nonneg; lia).
  assert (Hpj : 0 < 2 ^ j) by (apply Z.pow_pos_nonneg; lia).
  rewrite Z.pow_add_r by lia.
  rewrite Z.div_mul_cancel_r by lia.
  rewrite Z.mul_mod_distr_r by lia.
  replace (2 * (M mod 2 ^ k * 2 ^ j)) with (2 * (M mod 2 ^ k) * 2 ^ j) by lia.
  rewrite <- Zmult_compare_compat_r by lia. reflexivity.
Qed.

(** A value that fits in 53 bits after removing factors of two is not
    changed by rounding. *)
Lemma rnd53_fits a j : 0 <= a <= 2 ^ 53 -> 0 <= j -> rnd53 (a * 2 ^ j) = a * 2 ^ j.
Proof.
  intros Ha Hj. destruct (Z.eq_dec a 0) as [->|Hne]; [reflexivity|].
  assert (Hpj : 0 < 2 ^ j) by (apply Z.pow_pos_nonneg; lia).
  unfold rnd53. set (k := excess (a * 2 ^ j)).
  assert (Hk : 0 <= k) by (subst k; unfold excess; lia).
  assert (Hdiv : exists b, a * 2 ^ j = b * 2 ^ k).
  { subst k. unfold excess. rewrite Z.log2_mul_pow2 by lia.
    destruct (Z.eq_dec a (2 ^ 53)) as [->|Hlt].
    - change (Z.log2 (2 ^ 53)) with 53.
      replace (Z.max 0 (j + 53 + 1 - 53)) with (j + 1) by lia.
      exists (2 ^ 52). rewrite Z.pow_add_r by lia.
      change (2 ^ 53) with (2 ^ 52 * 2 ^ 1). lia.
    - assert (Z.log2 a < 53) by (apply Z.log2_lt_pow2; lia).
      destruct (Z.max_spec 0 (j + Z.log2 a + 1 - 53)) as [[? ->]|[? ->]].
      + exists (a * 2 ^ (j - (j + Z.log2 a + 1 - 53))).
        rewrite <- Z.mul_assoc, <- Z.pow_add_r by lia. do 2 f_equal. lia.
      + exists (a * 2 ^ j). change (2 ^ 0) with 1. lia. }
  destruct Hdiv as [b Hb]. rewrite Hb, rne_shift_exact by assumption. reflexivity.
Qed.

Lemma rnd53_small M : 0 <= M <= 2 ^ 53 -> rnd53 M = M.
Proof.
  intros H. pose proof (rnd53_fits M 0 H ltac:(lia)) as E.
  change (2 ^ 0) with 1 in E. now rewrite Z.mul_1_r in E.
Qed.

Lemma rnd53_scale M j : 0 < M -> 0 <= j -> rnd53 (M * 2 ^ j) = rnd53 M * 2 ^ j.
Proof.
  intros HM Hj.
  assert (Hpj : 0 < 2 ^ j) by (apply Z.pow_pos_nonneg; lia).
  destruct (Z_le_gt_dec (Z.log2 M + 1) 53) as [Hs|Hl].
  - assert (M < 2 ^ 53) by (apply Z.log2_lt_pow2; lia).
    rewrite rnd53_fits, (rnd53_small M) by lia. reflexivity.
  - unfold rnd53 at 1. unfold excess at 1 2. rewrite Z.log2_mul_pow2 by lia.
    replace (Z.max 0 (j + Z.log2 M + 1 - 53)) with (excess M + j)
      by (unfold excess; lia).
    rewrite rne_shift_scale by (unfold excess; lia).
    unfold rnd53. rewrite Z.pow_add_r by (unfold excess; lia). lia.
Qed.

(** Rounding to 53 bits moves a value by at most 2^-53 of itself. *)
Lemma rnd53_error M : 0 <= M -> 2 ^ 53 * Z.abs (rnd53 M - M) <= M.
Proof.
  intros HM. destruct (Z_le_gt_dec (Z.log2 M + 1) 53) as [Hs|Hl].
  - destruct (Z.eq_dec M 0) as [->|Hne]; [rewrite rnd53_0; lia|].
    assert (M < 2 ^ 53) by (apply Z.log2_lt_pow2; lia).
    rewrite rnd53_small by lia. replace (M - M) with 0 by lia.
    rewrite Z.abs_0. lia.
  - assert (0 < M) by (destruct M; cbn in Hl; lia).
    unfold rnd53. rewrite excess_long by lia.
    set (k := Z.log2 M + 1 - 53).
    pose proof (rne_shift_error M k ltac:(lia) ltac:(lia)) as He.
    assert (Hlow : 2 ^ (k + 52) <= M).
    { replace (k + 52) with (Z.log2 M) by lia. apply Z.log2_spec. lia. }
    rewrite Z.pow_add_r in Hlow by lia.
    change (2 ^ 53) with (2 ^ 52 * 2). nia.
Qed.

Lemma rnd53_nonneg M : 0 <= M -> 0 <= rnd53 M.
Proof.
  intros HM. unfold rnd53.
  assert (0 <= excess M) by (unfold excess; lia).
  pose proof (rne_shift_bounds M (excess M) HM H).
  assert (0 <= M / 2 ^ excess M) by (apply Z.div_pos; [lia|apply Z.pow_pos_nonneg; lia]).
  apply Z.mul_nonneg_nonneg; [lia|]. apply Z.pow_nonneg. lia.
Qed.

(** The nearest integer is [T] when the value is closer to [T] than a half. *)
Lemma rne_shift_near Y T k :
  0 <= k -> 0 <= Y -> 2 * Z.abs (Y - T * 2 ^ k) < 2 ^ k -> rne_shift Y k = T.
Proof.
  intros Hk HY Hn. unfold rne_shift.
  assert (Hp : 0 < 2 ^ k) by (apply Z.pow_pos_nonneg; lia).
  pose proof (Z.div_mod Y (2 ^ k) ltac:(lia)) as Hdm.
  pose proof (Z.mod_pos_bound Y (2 ^ k) Hp) as Hb.
  assert (Hq : Y / 2 ^ k = T \/ Y / 2 ^ k = T - 1) by nia.
  destruct Hq as [Hq|Hq]; rewrite Hq in *;
    destruct (Z.compare_spec (2 * (Y mod 2 ^ k)) (2 ^ k));
    try (destruct (Z.even _)); nia.
Qed.

End Rounding.

(** ** The float operations on scaled values *)

Section FloatOps.

Lemma iter_xO_val mx d : Zpos (Pos.iter xO mx d) = Zpos mx * 2 ^ Zpos d.
Proof.
  induction d as [|d IH] using Pos.peano_ind.
  - cbn [Pos.iter]. change (2 ^ 1) with 2. lia.
  - rewrite Pos.iter_succ, Pos2Z.inj_xO, IH, Pos2Z.inj_succ, Z.pow_succ_r by lia. lia.
Qed.

Lemma shl_align_spec mx ex ex' :
  snd (shl_align mx ex ex') = Z.min ex ex'
  /\ Zpos (fst (shl_align mx ex ex')) = Zpos mx * 2 ^ (ex - Z.min ex ex').
Proof.
  unfold shl_align. destruct (ex' - ex) as [|d|d] eqn:E; cbn [fst snd].
  - split; [lia|]. replace (ex - Z.min ex ex') with 0 by lia. change (2 ^ 0) with 1. lia.
  - split; [lia|]. replace (ex - Z.min ex ex') with 0 by lia. change (2 ^ 0) with 1. lia.
  - split; [lia|]. rewrite iter_xO_val. f_equal. f_equal. lia.
Qed.

Lemma log2_scaled_lt M j k :
  0 < M -> 0 <= j -> M * 2 ^ j < 2 ^ k -> Z.log2 M + j < k.
Proof.
  intros HM Hj H.
  assert (0 < 2 ^ j) by (apply Z.pow_pos_nonneg; lia).
  pose proof (Z.log2_mul_pow2 M j HM Hj) as E.
  destruct (Z_lt_le_dec k 0) as [Hk|Hk].
  - rewrite (Z.pow_neg_r 2 k) in H by lia. nia.
  - assert (Z.log2 (M * 2 ^ j) < k) by (apply Z.log2_lt_pow2; [nia|lia]). lia.
Qed.

Lemma log2_scaled_ge M j k :
  0 < M -> 0 <= j -> 0 <= k -> 2 ^ k <= M * 2 ^ j -> k <= Z.log2 M + j.
Proof.
  intros HM Hj Hk H.
  assert (0 < 2 ^ j) by (apply Z.pow_pos_nonneg; lia).
  pose proof (Z.log2_mul_pow2 M j HM Hj) as E.
  assert (k <= Z.log2 (M * 2 ^ j)) by (apply Z.log2_le_pow2; [nia|lia]). lia.
Qed.

Lemma fval_fits x : fgood x = true -> rnd53 (fval x) = fval x.
Proof.
  destruct x as [[]| | |[] m e]; try discriminate; try reflexivity.
  cbn [fgood fval]. intros H.
  apply andb_prop in H as [H H3]. apply andb_prop in H as [H1 H2].
  apply rnd53_fits; lia.
Qed.

Lemma fval_nonneg x : 0 <= fval x.
Proof.
  destruct x as [[]| | |[] m e]; cbn [fval]; lia.
Qed.

Lemma normalize_val s ez :
  -128 <= ez <= 971 ->
  2 ^ 53 <= Zpos s * 2 ^ (ez + 128) < 2 ^ 192 ->
  fgood (binary_normalize prec emax (Zpos s) ez false) = true
  /\ fval (binary_normalize prec emax (Zpos s) ez false) = rnd53 (Zpos s * 2 ^ (ez + 128)).
Proof.
  intros He [Hlo Hhi]. cbn [binary_normalize]. unfold binary_round.
  pose proof (log2_scaled_lt (Zpos s) (ez + 128) 192 ltac:(lia) ltac:(lia) Hhi) as Hl1.
  pose proof (log2_scaled_ge (Zpos s) (ez + 128) 53 ltac:(lia) ltac:(lia) ltac:(lia) Hlo) as Hl2.
  change (Zpos (digits2_pos s)) with (Zdigits2 (Zpos s)). rewrite Zdigits2_log2.
  set (target := fexp prec emax (Z.log2 (Zpos s) + 1 + ez)).
  assert (Ht : target = Z.log2 (Zpos s) + 1 + ez - 53).
  { subst target. unfold fexp, emin, prec, emax. lia. }
  pose proof (shl_align_spec s ez target) as [Hs1 Hs2].
  destruct (shl_align s ez target) as [mz ez']. cbn [fst snd] in Hs1, Hs2.
  assert (Hval : Zpos mz * 2 ^ (ez' + 128) = Zpos s * 2 ^ (ez + 128)).
  { rewrite Hs2, <- Z.mul_assoc, <- Z.pow_add_r by lia. do 2 f_equal. lia. }
  assert (Hl3 : Z.log2 (Zpos mz) + (ez' + 128) < 192).
  { apply log2_scaled_lt; lia. }
  destruct (binary_round_aux_exact mz ez') as (m' & e' & -> & Hb & Hm & Hv);
    [lia|lia|rewrite Zdigits2_log2; lia|].
  split.
  - cbn [fgood]. apply andb_true_intro. split; [apply andb_true_intro; split|]; lia.
  - cbn [fval]. rewrite <- Hval, rnd53_scale, <- Hv by lia.
    rewrite <- Z.mul_assoc, <- Z.pow_add_r by lia. do 2 f_equal. lia.
Qed.

Lemma fadd_val x y :
  fgood x = true -> fgood y = true ->
  fval x + fval y = 0 \/ 2 ^ 53 <= fval x + fval y < 2 ^ 192 ->
  fgood (fadd x y) = true /\ fval (fadd x y) = rnd53 (fval x + fval y).
Proof.
  intros Hx Hy Hs.
  destruct x as [[]| | |[] mx ex]; try discriminate Hx;
    destruct y as [[]| | |[] my ey]; try discriminate Hy.
  - split; reflexivity.
  - split; [exact Hy|]. change (fadd (S754_zero false) (S754_finite false my ey))
      with (S754_finite false my ey).
    change (fval (S754_zero false)) with 0. rewrite Z.add_0_l. symmetry.
    now apply fval_fits.
  - split; [exact Hx|]. change (fadd (S754_finite false mx ex) (S754_zero false))
      with (S754_finite false mx ex).
    change (fval (S754_zero false)) with 0. rewrite Z.add_0_r. symmetry.
    now apply fval_fits.
  - cbn [fgood] in Hx, Hy.
    apply andb_prop in Hx as [Hx Hx3]. apply andb_prop in Hx as [Hx1 Hx2].
    apply andb_prop in Hy as [Hy Hy3]. apply andb_prop in Hy as [Hy1 Hy2].
    cbn [fval] in *.
    assert (0 < Zpos mx * 2 ^ (ex + 128)).
    { apply Z.mul_pos_pos; [lia|]. apply Z.pow_pos_nonneg; lia. }
    assert (0 < Zpos my * 2 ^ (ey + 128)).
    { apply Z.mul_pos_pos; [lia|]. apply Z.pow_pos_nonneg; lia. }
    destruct Hs as [Hs|Hs]; [lia|].
    unfold fadd, SFadd. cbn [cond_Zopp].
    pose proof (shl_align_spec mx ex (Z.min ex ey)) as [_ Ea].
    pose proof (shl_align_spec my ey (Z.min ex ey)) as [_ Eb].
    replace (Z.min ex (Z.min ex ey)) with (Z.min ex ey) in Ea by lia.
    replace (Z.min ey (Z.min ex ey)) with (Z.min ex ey) in Eb by lia.
    set (a := fst (shl_align mx ex (Z.min ex ey))) in *.
    set (b := fst (shl_align my ey (Z.min ex ey))) in *.
    change (Zpos a + Zpos b) with (Zpos (a + b)).
    assert (Hsum : Zpos (a + b) * 2 ^ (Z.min ex ey + 128)
                   = Zpos mx * 2 ^ (ex + 128) + Zpos my * 2 ^ (ey + 128)).
    { rewrite Pos2Z.inj_add, Z.mul_add_distr_r, Ea, Eb.
      rewrite <- !Z.mul_assoc, <- !Z.pow_add_r by lia.
      f_equal; do 2 f_equal; lia. }
    rewrite <- Hsum in *. apply normalize_val; lia.
Qed.

Lemma fmul_val x y c :
  fgood x = true -> is_const y c = true ->
  fval x = 0 \/ 2 ^ 116 <= fval x ->
  c * fval x < 2 ^ 192 ->
  fgood (fmul x y) = true /\ fval (fmul x y) = rnd53 (c * fval x).
Proof.
  intros Hx Hy Hs Hhi.
  destruct y as [| | |[] my ey]; try discriminate Hy. cbn [is_const] in Hy.
  apply andb_prop in Hy as [Hy Hy3]. apply andb_prop in Hy as [Hy1 Hy2].
  destruct x as [[]| | |[] mx ex]; try discriminate Hx.
  - split; [reflexivity|]. change (fval (S754_zero false)) with 0.
    now rewrite Z.mul_0_r.
  - cbn [fgood] in Hx.
    apply andb_prop in Hx as [Hx Hx3]. apply andb_prop in Hx as [Hx1 Hx2].
    cbn [fval] in *.
    assert (Hpos : 0 < Zpos mx * 2 ^ (ex + 128)).
    { apply Z.mul_pos_pos; [lia|]. apply Z.pow_pos_nonneg; lia. }
    destruct Hs as [Hs|Hs]; [lia|].
    assert (Hex : -64 <= ex).
    { destruct (Z_lt_le_dec ex (-64)) as [Hlt|]; [|assumption].
      assert (2 ^ (ex + 128) <= 2 ^ 63) by (apply Z.pow_le_mono_r; lia).
      change (2 ^ 116) with (2 ^ 53 * 2 ^ 63) in Hs. nia. }
    assert (Hprod : Zpos (mx * my) * 2 ^ (ex + ey + 128) = c * (Zpos mx * 2 ^ (ex + 128))).
    { rewrite Pos2Z.inj_mul. apply Z.eqb_eq in Hy3. rewrite Hy3.
      replace (ex + 128) with (- ey + (ex + ey + 128)) by lia.
      rewrite (Z.pow_add_r 2 (- ey) (ex + ey + 128)) by lia. ring. }
    assert (Hl : Z.log2 (Zpos (mx * my)) + (ex + ey + 128) < 192).
    { apply log2_scaled_lt; lia. }
    unfold fmul, SFmul. cbn [xorb].
    destruct (binary_round_aux_exact (mx * my) (ex + ey)) as (m' & e' & -> & Hb & Hm & Hv);
      [lia|lia|rewrite Zdigits2_log2; lia|].
    split.
    + cbn [fgood]. apply andb_true_intro. split; [apply andb_true_intro; split|]; lia.
    + cbn [fval]. rewrite <- Hprod, rnd53_scale, <- Hv by lia.
      rewrite <- Z.mul_assoc, <- Z.pow_add_r by lia. do 2 f_equal. lia.
Qed.

Lemma float_round_val x : fgood x = true -> float_round x = Ok (rne_shift (fval x) 128).
Proof.
  destruct x as [[]| | |[] m e]; try discriminate; [reflexivity|].
  cbn [fgood fval float_round]. intros H.
  apply andb_prop in H as [H H3]. apply andb_prop in H as [H1 H2].
  f_equal. destruct (Z.leb_spec 0 e).
  - rewrite Z.pow_add_r, Z.mul_assoc by lia. now rewrite rne_shift_exact by lia.
  - replace 128 with (- e + (e + 128)) at 2 by lia.
    rewrite rne_shift_scale by lia. reflexivity.
Qed.

Lemma float_of_nat_val n :
  0 <= n < 2 ^ 53 ->
  fgood (float_of_decimal false n 0) = true
  /\ fval (float_of_decimal false n 0) = n * 2 ^ 128.
Proof.
  intros Hn. destruct n as [|p|p]; [split; reflexivity| |lia].
  unfold float_of_decimal. change (0 <=? 0) with true. cbv iota.
  change (10 ^ 0) with 1. rewrite Z.mul_1_r, Z.mul_1_l.
  destruct (normalize_val p 0) as [Hg Hv]; [lia|change (0 + 128) with 128; lia|].
  split; [exact Hg|]. rewrite Hv. change (0 + 128) with 128.
  apply rnd53_fits; lia.
Qed.

End FloatOps.

(** ** The value of a parsed time *)

Section TimeValue.

Lemma all_from_spec p fuel N k :
  all_from p fuel N = true -> (k < fuel)%nat -> p (N + Z.of_nat k) = true.
Proof.
  revert N k. induction fuel as [|fuel IH]; intros N k H Hk; [lia|].
  cbn [all_from] in H. apply andb_prop in H as [H1 H2].
  destruct k as [|k].
  - now rewrite Z.add_0_r.
  - replace (N + Z.of_nat (S k)) with (N + 1 + Z.of_nat k) by lia.
    apply IH; [assumption|lia].
Qed.

Lemma sec_ok_all : all_from sec_ok (Z.to_nat 60000) 0 = true.
Proof. vm_compute. reflexivity. Qed.

Lemma sec_value N :
  0 <= N < 60000 ->
  let f := float_of_decimal false N (-3) in
  fgood f = true
  /\ Z.abs (1000 * fval f - N * 2 ^ 128) <= 1000 * 2 ^ 81
  /\ (fval f = 0 \/ 2 ^ 117 <= fval f)
  /\ fval f < 2 ^ 134.
Proof.
  intros HN f.
  pose proof (all_from_spec sec_ok (Z.to_nat 60000) 0 (Z.to_nat N) sec_ok_all ltac:(lia)) as H.
  rewrite Z.add_0_l, Z2Nat.id in H by lia. unfold sec_ok in H. fold f in H.
  destruct f as [[]| | |[] m e]; try discriminate H.
  - apply Z.eqb_eq in H. subst N. repeat split; try reflexivity.
    + cbn. lia.
    + now left.
  - repeat (apply andb_prop in H as [H ?]).
    rewrite Z.shiftl_mul_pow2 in * by lia.
    cbn [fgood fval].
    assert (Hp : 2 ^ 128 = 2 ^ (- e) * 2 ^ (e + 128)).
    { rewrite <- Z.pow_add_r by lia. f_equal. lia. }
    assert (Hj : 2 ^ 65 <= 2 ^ (e + 128) <= 2 ^ 81).
    { split; apply Z.pow_le_mono_r; lia. }
    split; [|split; [|split]].
    + apply andb_true_intro. split; [apply andb_true_intro; split|]; lia.
    + rewrite Hp.
      replace (1000 * (Zpos m * 2 ^ (e + 128)) - N * (2 ^ (- e) * 2 ^ (e + 128)))
        with ((1000 * Zpos m - N * 2 ^ (- e)) * 2 ^ (e + 128)) by ring.
      rewrite Z.abs_mul, (Z.abs_eq (2 ^ (e + 128))) by lia. nia.
    + right. change (2 ^ 117) with (4503599627370496 * 2 ^ 65). nia.
    + change (2 ^ 134) with (9007199254740992 * 2 ^ 81). nia.
Qed.

Lemma const_3600 : is_const (float_of_Z 3600) 3600 = true.
Proof. reflexivity. Qed.

Lemma const_60 : is_const (float_of_Z 60) 60 = true.
Proof. reflexivity. Qed.

Lemma const_1000 : is_const (float_of_Z 1000) 1000 = true.
Proof. reflexivity. Qed.

Lemma scaled_zero_or_big n : 0 <= n -> n * 2 ^ 128 = 0 \/ 2 ^ 116 <= n * 2 ^ 128.
Proof.
  intros Hn. destruct (Z.eq_dec n 0) as [->|]; [now left|right].
  change (2 ^ 128) with (2 ^ 12 * 2 ^ 116). lia.
Qed.

(** Multiplying the parsed seconds by 1000 and rounding gives back the
    exact number of milliseconds. *)
Lemma seconds_round_trip h m s ms :
  0 <= h < 10 ^ 8 -> 0 <= m < 60 -> 0 <= s < 60 -> 0 <= ms < 1000 ->
  float_round (fmul (seconds_of h m s ms) (float_of_Z 1000)) = Ok (millis h m s ms).
Proof.
  intros Hh Hm Hs Hms. unfold seconds_of.
  change (10 ^ 8) with 100000000 in Hh.
  destruct (float_of_nat_val h) as [Gh Vh]; [change (2 ^ 53) with 9007199254740992; lia|].
  destruct (float_of_nat_val m) as [Gm Vm]; [change (2 ^ 53) with 9007199254740992; lia|].
  set (fh := float_of_decimal false h 0) in *.
  set (fm := float_of_decimal false m 0) in *.
  destruct (sec_value (1000 * s + ms)) as (Gs & Es & Zs & Us); [lia|].
  set (fs := float_of_decimal false (1000 * s + ms) (-3)) in *.
  assert (P128 : 2 ^ 128 = 340282366920938463463374607431768211456) by reflexivity.
  assert (P192 : 2 ^ 192 = 2 ^ 64 * 2 ^ 128) by reflexivity.
  assert (P64 : 2 ^ 64 = 18446744073709551616) by reflexivity.
  (* hours *)
  destruct (fmul_val fh (float_of_Z 3600) 3600 Gh const_3600) as [Ga Va].
  { rewrite Vh. apply scaled_zero_or_big. lia. }
  { rewrite Vh, P192. lia. }
  rewrite Vh in Va. replace (3600 * (h * 2 ^ 128)) with (3600 * h * 2 ^ 128) in Va by ring.
  rewrite rnd53_fits in Va by (change (2 ^ 53) with 9007199254740992; lia).
  set (a := fmul fh (float_of_Z 3600)) in *.
  (* minutes *)
  destruct (fmul_val fm (float_of_Z 60) 60 Gm const_60) as [Gb Vb].
  { rewrite Vm. apply scaled_zero_or_big. lia. }
  { rewrite Vm, P192. lia. }
  rewrite Vm in Vb. replace (60 * (m * 2 ^ 128)) with (60 * m * 2 ^ 128) in Vb by ring.
  rewrite rnd53_fits in Vb by (change (2 ^ 53) with 9007199254740992; lia).
  set (b := fmul fm (float_of_Z 60)) in *.
  (* their sum *)
  destruct (fadd_val a b Ga Gb) as [Gc Vc].
  { rewrite Va, Vb, P192. change (2 ^ 53) with 9007199254740992.
    destruct (Z.eq_dec (3600 * h + 60 * m) 0); [left|right]; lia. }
  rewrite Va, Vb in Vc.
  replace (3600 * h * 2 ^ 128 + 60 * m * 2 ^ 128)
    with ((3600 * h + 60 * m) * 2 ^ 128) in Vc by ring.
  rewrite rnd53_fits in Vc by (change (2 ^ 53) with 9007199254740992; lia).
  set (c := fadd a b) in *.
  (* plus the seconds *)
  pose proof (fval_nonneg fs) as Ns.
  assert (P117 : 2 ^ 117 = 166153499473114484112975882535043072) by reflexivity.
  assert (P134 : 2 ^ 134 = 64 * 2 ^ 128) by reflexivity.
  assert (P81 : 2 ^ 81 = 2417851639229258349412352) by reflexivity.
  destruct (fadd_val c fs Gc Gs) as [Gx Vx].
  { rewrite Vc, P192. change (2 ^ 53) with 9007199254740992.
    destruct (Z.eq_dec (3600 * h + 60 * m) 0) as [E0|]; [rewrite E0|]; lia. }
  set (x := fadd c fs) in *.
  pose proof (rnd53_error (fval c + fval fs) ltac:(lia)) as Ex.
  rewrite <- Vx in Ex.
  assert (P53 : 2 ^ 53 = 9007199254740992) by reflexivity.
  assert (P116 : 2 ^ 116 = 83076749736557242056487941267521536) by reflexivity.
  (* times 1000 *)
  destruct (fmul_val x (float_of_Z 1000) 1000 Gx const_1000) as [Gy Vy].
  { destruct (Z.eq_dec (fval c + fval fs) 0) as [E0|Hne].
    - left. rewrite E0 in Ex. lia.
    - right. assert (2 ^ 117 <= fval c + fval fs) by lia. lia. }
  { lia. }
  set (y := fmul x (float_of_Z 1000)) in *.
  pose proof (fval_nonneg x) as Nx.
  pose proof (rnd53_error (1000 * fval x) ltac:(lia)) as Ey.
  rewrite <- Vy in Ey.
  rewrite float_round_val by assumption. f_equal.
  apply rne_shift_near; [lia|apply fval_nonneg|]. unfold millis. lia.
Qed.

End TimeValue.

(** ** Decimal numerals *)

Section Digits.

Variable env : Env.

Lemma digit_cases c :
  is_ascii_digit c = true ->
  (c = 48 \/ c = 49 \/ c = 50 \/ c = 51 \/ c = 52 \/ c = 53 \/ c = 54
   \/ c = 55 \/ c = 56 \/ c = 57)%N.
Proof.
  unfold is_ascii_digit. intros H. apply andb_prop in H as [H1 H2].
  apply N.leb_le in H1, H2. lia.
Qed.

Lemma decimal_value_digit c :
  is_ascii_digit c = true -> decimal_value env c = Some (Z.of_N c - 48).
Proof. intros H. unfold decimal_value. now rewrite H. Qed.

Lemma digits_val_app l1 l2 acc :
  digits_val (l1 ++ l2) acc = digits_val l2 (digits_val l1 acc).
Proof. apply fold_left_app. Qed.

Lemma digit_run_digits l acc n r :
  all_digits l = true ->
  digit_run env acc n (l ++ r) = digit_run env (digits_val l acc) (n + length l) r.
Proof.
  revert acc n. induction l as [|c l IH]; intros acc n H.
  - cbn. now rewrite Nat.add_0_r.
  - cbn [all_digits forallb] in H. apply andb_prop in H as [Hc Hl].
    cbn [app digit_run]. rewrite decimal_value_digit by assumption.
    rewrite IH by assumption. cbn [digits_val fold_left length]. f_equal. lia.
Qed.

Lemma all_digits_app l1 l2 :
  all_digits (l1 ++ l2) = all_digits l1 && all_digits l2.
Proof. apply forallb_app. Qed.

Lemma all_digits_zeros k : all_digits (replicate k 48%N) = true.
Proof. induction k; [reflexivity|exact IHk]. Qed.

Lemma digits_val_zeros k : digits_val (replicate k 48%N) 0 = 0.
Proof. induction k; [reflexivity|exact IHk]. Qed.

Lemma last_digit_ascii n : is_ascii_digit (Z.to_N (48 + n mod 10)) = true.
Proof.
  pose proof (Z.mod_pos_bound n 10 ltac:(lia)).
  unfold is_ascii_digit. apply andb_true_intro. split; apply N.leb_le; lia.
Qed.

Lemma dec_go_S fuel n acc :
  dec_go (S fuel) n acc
  = if n <? 10 then Z.to_N (48 + n mod 10) :: acc
    else dec_go fuel (n / 10) (Z.to_N (48 + n mod 10) :: acc).
Proof. reflexivity. Qed.

Lemma dec_go_spec fuel n acc :
  0 <= n < 2 ^ Z.of_nat (S fuel) ->
  exists pre,
    dec_go (S fuel) n acc = pre ++ acc
    /\ all_digits pre = true
    /\ pre <> []
    /\ (forall a, digits_val pre a = a * 10 ^ Z.of_nat (length pre) + n)
    /\ (forall k, n < 10 ^ Z.of_nat (S k) -> (length pre <= S k)%nat).
Proof.
  revert n acc. induction fuel as [|fuel IH]; intros n acc Hn.
  - change (2 ^ Z.of_nat 1) with 2 in Hn.
    exists [Z.to_N (48 + n mod 10)]. rewrite dec_go_S.
    replace (n <? 10) with true by (symmetry; apply Z.ltb_lt; lia).
    assert (n mod 10 = n) by (apply Z.mod_small; lia).
    repeat split.
    + cbn [all_digits forallb]. now rewrite last_digit_ascii.
    + discriminate.
    + intros a. cbn. lia.
    + intros k _. cbn. lia.
  - rewrite (dec_go_S (S fuel)).
    set (d := Z.to_N (48 + n mod 10)).
    pose proof (Z.mod_pos_bound n 10 ltac:(lia)) as Hr.
    assert (Hd : is_ascii_digit d = true) by apply last_digit_ascii.
    destruct (Z.ltb_spec n 10) as [Hlt|Hge].
    + exists [d]. assert (n mod 10 = n) by (apply Z.mod_small; lia).
      repeat split.
      * cbn [all_digits forallb]. now rewrite Hd.
      * discriminate.
      * intros a. cbn. lia.
      * intros k _. cbn. lia.
    + assert (Hq : 0 <= n / 10 < 2 ^ Z.of_nat (S fuel)).
      { rewrite (Nat2Z.inj_succ (S fuel)), Z.pow_succ_r in Hn by lia.
        split; [apply Z.div_pos; lia|]. apply Z.div_lt_upper_bound; lia. }
      destruct (IH (n / 10) (d :: acc) Hq) as (pre & E & Hall & Hne & Hval & Hlen).
      exists (pre ++ [d]). repeat split.
      * rewrite E, <- app_assoc. reflexivity.
      * rewrite all_digits_app, Hall. cbn [all_digits forallb]. now rewrite Hd.
      * destruct pre; discriminate.
      * intros a. rewrite digits_val_app, Hval. cbn [digits_val fold_left].
        rewrite length_app. cbn [length].
        replace (Z.of_nat (length pre + 1)) with (Z.succ (Z.of_nat (length pre))) by lia.
        rewrite Z.pow_succ_r by lia.
        pose proof (Z.div_mod n 10 ltac:(lia)). subst d. lia.
      * intros k Hk. rewrite length_app. cbn [length].
        destruct k as [|k]; [change (10 ^ Z.of_nat 1) with 10 in Hk; lia|].
        assert (n / 10 < 10 ^ Z.of_nat (S k)).
        { rewrite (Nat2Z.inj_succ (S k)), Z.pow_succ_r in Hk by lia.
          apply Z.div_lt_upper_bound; lia. }
        specialize (Hlen k ltac:(assumption)). lia.
Qed.

Lemma dec_digits_spec n :
  0 <= n ->
  all_digits (dec_digits n) = true
  /\ dec_digits n <> []
  /\ digits_val (dec_digits n) 0 = n
  /\ (forall k, n < 10 ^ Z.of_nat (S k) -> (length (dec_digits n) <= S k)%nat).
Proof.
  intros Hn. unfold dec_digits.
  destruct (dec_go_spec (Z.to_nat (Z.log2 n)) n []) as (pre & E & Hall & Hne & Hval & Hlen).
  { split; [assumption|]. rewrite Nat2Z.inj_succ, Z2Nat.id by apply Z.log2_nonneg.
    destruct (Z.eq_dec n 0) as [->|]; [reflexivity|]. apply Z.log2_spec. lia. }
  rewrite E, app_nil_r. repeat split; try assumption.
  rewrite Hval. lia.
Qed.

Lemma fmt_0d_spec w n :
  0 <= n ->
  all_digits (fmt_0d w n) = true
  /\ fmt_0d w n <> []
  /\ digits_val (fmt_0d w n) 0 = n
  /\ (forall k, w = S k -> n < 10 ^ Z.of_nat w -> length (fmt_0d w n) = w).
Proof.
  intros Hn. unfold fmt_0d.
  replace (n <? 0) with false by (symmetry; apply Z.ltb_ge; lia).
  destruct (dec_digits_spec n Hn) as (Hall & Hne & Hval & Hlen).
  repeat split.
  - now rewrite all_digits_app, all_digits_zeros, Hall.
  - destruct (dec_digits n); [congruence|]. now destruct (replicate _ _).
  - now rewrite digits_val_app, digits_val_zeros.
  - intros k -> Hk. specialize (Hlen k Hk).
    rewrite length_app, length_replicate. apply Nat.sub_add. exact Hlen.
Qed.

End Digits.

Section TimeStrings.

Variable env : Env.

Lemma numeric_cases c :
  is_numeric c = true ->
  (c = 46 \/ c = 48 \/ c = 49 \/ c = 50 \/ c = 51 \/ c = 52 \/ c = 53 \/ c = 54
   \/ c = 55 \/ c = 56 \/ c = 57)%N.
Proof.
  unfold is_numeric. intros H. apply orb_prop in H as [H|H].
  - right. now apply digit_cases.
  - left. now apply N.eqb_eq.
Qed.

Ltac by_cases H :=
  repeat (destruct H as [H|H]; [subst; reflexivity|]); subst; reflexivity.

Lemma numeric_not_space c : is_numeric c = true -> is_space_num c = false.
Proof. intros H. apply numeric_cases in H. by_cases H. Qed.

Lemma numeric_lower c :
  is_numeric c = true -> ((65 <=? c) && (c <=? 90))%N = false.
Proof. intros H. apply numeric_cases in H. by_cases H. Qed.

Lemma digits_numeric l : all_digits l = true -> forallb is_numeric l = true.
Proof.
  intros H. apply forallb_forall. intros c Hc.
  unfold is_numeric. rewrite (proj1 (forallb_forall _ _) H c Hc). reflexivity.
Qed.

Lemma lstrip_num_numeric s : forallb is_numeric s = true -> lstrip_num s = s.
Proof.
  destruct s as [|c s]; [reflexivity|]. cbn [forallb lstrip_num]. intros H.
  apply andb_prop in H as [H _]. now rewrite numeric_not_space.
Qed.

Lemma strip_num_numeric s : forallb is_numeric s = true -> strip_num s = s.
Proof.
  intros H. unfold strip_num. rewrite (lstrip_num_numeric s H).
  rewrite lstrip_num_numeric; [apply rev_involutive|].
  apply forallb_forall. intros c Hc. apply in_rev in Hc.
  exact (proj1 (forallb_forall _ _) H c Hc).
Qed.

Lemma ascii_lower_numeric s : forallb is_numeric s = true -> ascii_lower s = s.
Proof.
  induction s as [|c s IH]; [reflexivity|]. cbn [forallb]. intros H.
  apply andb_prop in H as [Hc Hs]. unfold ascii_lower in *. cbn [List.map].
  rewrite numeric_lower by assumption. now rewrite IH.
Qed.

Lemma split_sign_digit c r :
  is_ascii_digit c = true -> split_sign (c :: r) = (false, c :: r).
Proof. intros H. apply digit_cases in H. by_cases H. Qed.

Lemma str_eqb_digit_head c r w :
  is_ascii_digit c = true -> forallb is_ascii_digit (firstn 1 w) = false ->
  str_eqb (c :: r) w = false.
Proof.
  intros Hc Hw. unfold str_eqb. apply bool_decide_eq_false_2. intros E.
  subst w. cbn in Hw. rewrite Hc in Hw. discriminate.
Qed.

Lemma digit_run_dot acc n r : digit_run env acc n (46%N :: r) = (acc, n, 46%N :: r).
Proof. reflexivity. Qed.

Lemma digit_run_all l acc n :
  all_digits l = true ->
  digit_run env acc n l = (digits_val l acc, (n + length l)%nat, []).
Proof.
  intros H. rewrite <- (app_nil_r l) at 1. now rewrite digit_run_digits.
Qed.

(** [float] of a numeral [digits.digits]. *)
Lemma float_of_str_decimal l1 l2 :
  all_digits l1 = true -> l1 <> [] -> all_digits l2 = true ->
  float_of_str env (l1 ++ c_dot :: l2)
  = Ok (float_of_decimal false (digits_val l2 (digits_val l1 0))
                         (0 - Z.of_nat (length l2))).
Proof.
  intros H1 Hne H2.
  assert (Hnum : forallb is_numeric (l1 ++ c_dot :: l2) = true).
  { rewrite forallb_app. cbn [forallb]. now rewrite !digits_numeric. }
  unfold float_of_str. rewrite strip_num_numeric by assumption.
  destruct l1 as [|c l1]; [congruence|].
  pose proof H1 as H1'.
  cbn [all_digits forallb] in H1. apply andb_prop in H1 as [Hc H1].
  cbn [app] in *. rewrite split_sign_digit by assumption.
  rewrite ascii_lower_numeric by assumption.
  rewrite !str_eqb_digit_head by (assumption || reflexivity).
  cbn [orb].
  change (c :: l1 ++ c_dot :: l2) with ((c :: l1) ++ c_dot :: l2).
  rewrite digit_run_digits by assumption.
  unfold c_dot. rewrite digit_run_dot.
  rewrite digit_run_all by assumption. cbn [float_exponent].
  replace (_ + _ =? 0)%nat with false; [reflexivity|].
  symmetry. apply Nat.eqb_neq. cbn [length]. lia.
Qed.

(** [float] of a numeral of digits only. *)
Lemma float_of_str_integer l :
  all_digits l = true -> l <> [] ->
  float_of_str env l = Ok (float_of_decimal false (digits_val l 0) 0).
Proof.
  intros H1 Hne.
  pose proof (digits_numeric l H1) as Hnum.
  unfold float_of_str. rewrite strip_num_numeric by assumption.
  destruct l as [|c l]; [congruence|].
  pose proof H1 as H1'.
  cbn [all_digits forallb] in H1. apply andb_prop in H1 as [Hc H1].
  rewrite split_sign_digit by assumption.
  rewrite ascii_lower_numeric by assumption.
  rewrite !str_eqb_digit_head by (assumption || reflexivity).
  cbn [orb].
  rewrite digit_run_all by assumption. cbn [float_exponent].
  replace (_ + _ =? 0)%nat with false; [reflexivity|].
  symmetry. apply Nat.eqb_neq. cbn [length]. lia.
Qed.

End TimeStrings.

(** ** The caption codec: the round trip *)

Section TimeRoundTrip.

Variable env : Env.

Lemma split_go_none c acc s :
  lacks c s = true -> split_go [c] acc 0 s = [rev acc ++ s].
Proof.
  revert acc. induction s as [|d s IH]; intros acc H; cbn [split_go].
  - now rewrite app_nil_r.
  - cbn [lacks forallb] in H. apply andb_prop in H as [Hd Hs].
    apply negb_true_iff in Hd. cbn [startswith]. rewrite Hd. cbn [andb].
    rewrite IH by assumption. cbn [rev]. now rewrite <- app_assoc.
Qed.

Lemma split_go_cut c acc a rest :
  lacks c a = true ->
  split_go [c] acc 0 (a ++ c :: rest) = (rev acc ++ a) :: split_go [c] [] 0 rest.
Proof.
  revert acc. induction a as [|d a IH]; intros acc H; cbn [app split_go].
  - cbn [startswith]. rewrite N.eqb_refl. cbn [andb length Nat.sub].
    now rewrite app_nil_r.
  - cbn [lacks forallb] in H. apply andb_prop in H as [Hd Hs].
    apply negb_true_iff in Hd. cbn [startswith]. rewrite Hd. cbn [andb].
    rewrite IH by assumption. cbn [rev]. now rewrite <- app_assoc.
Qed.

Lemma lacks_app c a b : lacks c (a ++ b) = lacks c a && lacks c b.
Proof. apply forallb_app. Qed.

Lemma lacks_digits c l :
  is_ascii_digit c = false -> all_digits l = true -> lacks c l = true.
Proof.
  intros Hc Hl. apply forallb_forall. intros d Hd.
  apply negb_true_iff, N.eqb_neq. intros ->.
  rewrite (proj1 (forallb_forall _ _) Hl d Hd) in Hc. discriminate.
Qed.

Lemma digits_val_shift l a :
  digits_val l a = a * 10 ^ Z.of_nat (length l) + digits_val l 0.
Proof.
  revert a. induction l as [|c l IH]; intros a.
  - cbn. lia.
  - cbn [digits_val fold_left length]. fold (digits_val l (a * 10 + (Z.of_N c - 48))).
    fold (digits_val l (0 * 10 + (Z.of_N c - 48))).
    rewrite (IH (a * 10 + _)), (IH (0 * 10 + _)).
    rewrite Nat2Z.inj_succ, Z.pow_succ_r by lia. ring.
Qed.

(** [_parse_time] on four runs of digits in the caption time format. *)
Lemma parse_time_digits hh mm ss mmm :
  all_digits hh = true -> hh <> [] ->
  all_digits mm = true -> mm <> [] ->
  all_digits ss = true -> ss <> [] ->
  all_digits mmm = true ->
  _parse_time env (hh ++ [c_colon] ++ mm ++ [c_colon] ++ ss ++ [c_comma] ++ mmm)
  = Ok (fadd (fadd (fmul (float_of_decimal false (digits_val hh 0) 0) (float_of_Z 3600))
                   (fmul (float_of_decimal false (digits_val mm 0) 0) (float_of_Z 60)))
             (float_of_decimal false (digits_val mmm (digits_val ss 0))
                               (0 - Z.of_nat (length mmm)))).
Proof.
  intros Hh Nh Hm Nm Hs Ns Hf.
  assert (Hcomma : forall l, all_digits l = true -> lacks c_comma l = true)
    by (intros l; now apply lacks_digits).
  assert (Hcolon : forall l, all_digits l = true -> lacks c_colon l = true)
    by (intros l; now apply lacks_digits).
  unfold _parse_time, replace, split.
  replace (hh ++ [c_colon] ++ mm ++ [c_colon] ++ ss ++ [c_comma] ++ mmm)
    with ((hh ++ [c_colon] ++ mm ++ [c_colon] ++ ss) ++ c_comma :: mmm)
    by now norm_app.
  rewrite (split_go_cut c_comma).
  2:{ rewrite !lacks_app, (Hcomma hh), (Hcomma mm), (Hcomma ss) by assumption.
      reflexivity. }
  rewrite (split_go_none c_comma [] mmm) by now apply Hcomma.
  cbn [rev app join]. norm_app.
  rewrite split_go_cut by now apply Hcolon.
  rewrite split_go_cut by now apply Hcolon.
  rewrite split_go_none.
  2:{ rewrite lacks_app. cbn [lacks forallb]. fold (lacks c_colon mmm).
      rewrite (Hcolon ss), (Hcolon mmm) by assumption. reflexivity. }
  cbn [rev app].
  rewrite !float_of_str_integer, float_of_str_decimal by assumption.
  reflexivity.
Qed.

Lemma millis_fields h m s ms :
  0 <= h -> 0 <= m < 60 -> 0 <= s < 60 -> 0 <= ms < 1000 ->
  let t := millis h m s ms in
  t / 1000 / 60 / 60 = h /\ (t / 1000 / 60) mod 60 = m
  /\ (t / 1000) mod 60 = s /\ t mod 1000 = ms.
Proof.
  intros Hh Hm Hs Hms. unfold millis. cbv zeta.
  assert (E1 : (3600000 * h + 60000 * m + 1000 * s + ms) / 1000 = 3600 * h + 60 * m + s)
    by (symmetry; apply (Z.div_unique _ _ _ ms); lia).
  assert (E2 : (3600 * h + 60 * m + s) / 60 = 60 * h + m)
    by (symmetry; apply (Z.div_unique _ _ _ s); lia).
  assert (E3 : (60 * h + m) / 60 = h)
    by (symmetry; apply (Z.div_unique _ _ _ m); lia).
  rewrite E1, E2, E3. repeat split.
  - symmetry. apply (Z.mod_unique _ _ h); lia.
  - symmetry. apply (Z.mod_unique _ _ (60 * h + m)); lia.
  - symmetry. apply (Z.mod_unique _ _ (3600 * h + 60 * m + s)); lia.
Qed.

End TimeRoundTrip.

(** C2, for hours written with two digits or more and below 10^8:
    formatting the parsed value of a time string of the caption format
    gives the string back. *)
Theorem parse_format_round_trip env h m s ms :
  0 <= h < 10 ^ 8 -> 0 <= m < 60 -> 0 <= s < 60 -> 0 <= ms < 1000 ->
  exists x,
    _parse_time env (time_string h m s ms) = Ok x
    /\ format_srt_timestamp x = Ok (time_string h m s ms).
Proof.
  intros Hh Hm Hs Hms. exists (seconds_of h m s ms).
  destruct (fmt_0d_spec 2 h ltac:(lia)) as (Ah & Nh & Vh & _).
  destruct (fmt_0d_spec 2 m ltac:(lia)) as (Am & Nm & Vm & _).
  destruct (fmt_0d_spec 2 s ltac:(lia)) as (As & Ns & Vs & _).
  destruct (fmt_0d_spec 3 ms ltac:(lia)) as (Af & _ & Vf & Lf).
  specialize (Lf 2%nat eq_refl ltac:(change (10 ^ Z.of_nat 3) with 1000; lia)).
  split.
  - unfold time_string. rewrite parse_time_digits by assumption.
    rewrite Vh, Vm, digits_val_shift, Vs, Vf, Lf. unfold seconds_of.
    change (10 ^ Z.of_nat 3) with 1000. change (0 - Z.of_nat 3) with (-3).
    now rewrite (Z.mul_comm s 1000).
  - unfold format_srt_timestamp. rewrite seconds_round_trip by assumption.
    cbn [bind].
    destruct (millis_fields h m s ms) as (E1 & E2 & E3 & E4); try lia.
    cbv zeta in E1, E2, E3, E4. rewrite E1, E2, E3, E4. reflexivity.
Qed.

Lemma parse_format_round_trip_witness :
  exists x,
    _parse_time plain_env (time_string 1 2 3 4) = Ok x
    /\ format_srt_timestamp x = Ok (time_string 1 2 3 4).
Proof.
  apply (parse_format_round_trip plain_env 1 2 3 4); [split; [lia|reflexivity]|lia..].
Defined.

(** C2 as stated fails. Hours of one digit are written back with two
    digits, and hours of eleven digits leave no room for the millisecond
    in a binary64. *)
Lemma parse_format_counterexample :
  (exists x out,
     _parse_time plain_env (lit "1:02:03,004") = Ok x
     /\ format_srt_timestamp x = Ok out
     /\ out = lit "01:02:03,004" /\ out <> lit "1:02:03,004")
  /\ (exists x out,
     _parse_time plain_env (lit "10000000000:00:00,001") = Ok x
     /\ format_srt_timestamp x = Ok out
     /\ out = lit "10000000000:00:00,000" /\ out <> lit "10000000000:00:00,001").
Proof.
  split; eexists; eexists;
    (split; [vm_compute; reflexivity|]);
    (split; [vm_compute; reflexivity|]);
    (split; [vm_compute; reflexivity|discriminate]).
Qed.

(** ** The scan: where a span starts and ends *)

Section ScanSound.

Lemma find_start_sound s : forall i a,
  find_start i s = Some a ->
  (i <= a)%nat
  /\ (exists op, s !! (a - i)%nat = Some op /\ is_opener op = true)
  /\ no_opener (take (a - i) s) = true.
Proof.
  induction s as [|ch s IH]; intros i a H; cbn [find_start] in H; [discriminate|].
  destruct (is_opener ch) eqn:E.
  - inversion H; subst. replace (a - a)%nat with 0%nat by lia.
    split; [lia|]. split; [exists ch; now split|reflexivity].
  - apply IH in H as (Hle & (op & Hop & Ho) & Hno).
    split; [lia|]. replace (a - i)%nat with (S (a - S i)) by lia.
    split; [exists op; now split|].
    cbn [take no_opener forallb]. rewrite E. exact Hno.
Qed.

Lemma scan_sound s : forall st stack in_str esc i a b c,
  scan st stack in_str esc i s = Ok (a, b) ->
  last stack = Some c ->
  a = st /\ (i <= b)%nat /\ s !! (b - i)%nat = Some c.
Proof.
  induction s as [|ch s IH]; intros st stack in_str esc i a b c H Hl;
    cbn [scan] in H; [discriminate|].
  assert (Hnext : forall stack' in_str' esc',
             scan st stack' in_str' esc' (S i) s = Ok (a, b) ->
             last stack' = Some c ->
             a = st /\ (i <= b)%nat /\ (ch :: s) !! (b - i)%nat = Some c).
  { intros stack' in_str' esc' H' Hl'.
    destruct (IH _ _ _ _ _ _ _ _ H' Hl') as (-> & Hle & Hb).
    split; [reflexivity|]. split; [lia|].
    replace (b - i)%nat with (S (b - S i)) by lia. exact Hb. }
  assert (Hpush : forall x, last (x :: stack) = Some c).
  { intros x. destruct stack; [discriminate|]. exact Hl. }
  destruct in_str.
  - destruct esc; [now apply (Hnext _ _ _ H)|].
    destruct (ch =? c_backslash)%N; [now apply (Hnext _ _ _ H)|].
    destruct (ch =? c_quote)%N; now apply (Hnext _ _ _ H).
  - destruct (ch =? c_quote)%N; [now apply (Hnext _ _ _ H)|].
    destruct (ch =? c_lbrace)%N; [now apply (Hnext _ _ _ H)|].
    destruct (ch =? c_lbracket)%N; [now apply (Hnext _ _ _ H)|].
    destruct (is_closer ch); [|now apply (Hnext _ _ _ H)].
    destruct stack as [|top rest]; [discriminate|].
    destruct (ch =? top)%N eqn:Et; cbn [negb] in H; [|now apply (Hnext _ _ _ H)].
    destruct rest as [|r rest].
    + inversion H; subst. cbn in Hl. inversion Hl; subst.
      apply N.eqb_eq in Et. subst. replace (b - b)%nat with 0%nat by lia.
      repeat split. lia.
    + apply (Hnext _ _ _ H). exact Hl.
Qed.

End ScanSound.

(** The span that [_find_span] returns starts at the first opening brace
    or bracket of the text and ends, further on, at a closing character
    of the same kind. *)
Theorem find_span_sound s a b :
  _find_span s = Ok (a, b) ->
  find_start 0 s = Some a
  /\ no_opener (take a s) = true
  /\ (a < b < length s)%nat
  /\ exists op,
       s !! a = Some op /\ is_opener op = true /\ s !! b = Some (closer_of op).
Proof.
  unfold _find_span. destruct (find_start 0 s) as [st|] eqn:Hs; [|discriminate].
  intros H. destruct (find_start_sound _ _ _ Hs) as (_ & (op & Hop & Ho) & Hno).
  rewrite Nat.sub_0_r in Hop, Hno.
  rewrite (drop_S _ _ _ Hop) in H. cbn [scan] in H.
  unfold is_opener in Ho.
  assert (Hq : (op =? c_quote)%N = false).
  { apply orb_prop in Ho as [Ho|Ho]; apply N.eqb_eq in Ho; subst; reflexivity. }
  rewrite Hq in H.
  assert (Hs' : scan st [closer_of op] false false (S st) (drop (S st) s) = Ok (a, b)).
  { unfold closer_of. destruct (op =? c_lbrace)%N eqn:E1; [exact H|].
    cbn [orb] in Ho. rewrite Ho in H. exact H. }
  destruct (scan_sound _ _ _ _ _ _ _ _ _ Hs' eq_refl) as (-> & Hle & Hb).
  pose proof (lookup_drop s (S st) (b - S st)) as Hd.
  replace (S st + (b - S st))%nat with b in Hd by lia.
  assert (Hb' : s !! b = Some (closer_of op)) by exact (eq_trans (eq_sym Hd) Hb).
  split; [reflexivity|]. split; [exact Hno|].
  split; [split; [lia|now apply lookup_lt_Some in Hb']|].
  exists op. unfold is_opener. now rewrite Ho.
Qed.

Lemma find_span_sound_witness :
  find_start 0 (jlit "see {'a': [1]} ok") = Some 4%nat
  /\ no_opener (take 4 (jlit "see {'a': [1]} ok")) = true
  /\ (4 < 13 < length (jlit "see {'a': [1]} ok"))%nat
  /\ exists op,
       jlit "see {'a': [1]} ok" !! 4%nat = Some op /\ is_opener op = true
       /\ jlit "see {'a': [1]} ok" !! 13%nat = Some (closer_of op).
Proof.
  apply (find_span_sound (jlit "see {'a': [1]} ok") 4 13). reflexivity.
Defined.

(** ** The extractor: what it raises, and text without brackets *)

(** The errors of the scan never leave [_extract_json_from_text]: what
    it raises is the error for an empty response, or whatever
    [json.loads] raises on the whole candidate text. *)
Theorem extract_raises_only_loads env text e :
  _extract_json_from_text env text = Raise e ->
  (strip text = [] /\ e = ValueError "empty response")
  \/ (strip text <> []
      /\ env_json_loads env (select_text (strip text)) = Raise e).
Proof.
  unfold _extract_json_from_text. destruct (strip text) as [|c t] eqn:Es.
  - intros H. inversion H. now left.
  - intros H. right. split; [discriminate|].
    destruct (_find_span (select_text (c :: t))) as [[a b]|e1]; cbn [bind try_except] in H.
    + destruct (env_json_loads env (slice _ _ _)); cbn [try_except] in H;
        [discriminate|exact H].
    + exact H.
Qed.

Lemma extract_raises_only_loads_witness :
  (strip (lit "{oops") = [] /\ JSONDecodeError = ValueError "empty response")
  \/ (strip (lit "{oops") <> []
      /\ env_json_loads plain_env (select_text (strip (lit "{oops")))
         = Raise JSONDecodeError).
Proof.
  apply (extract_raises_only_loads plain_env (lit "{oops") JSONDecodeError).
  vm_compute. reflexivity.
Defined.

Section ExtractPlain.

Lemma find_start_none s i : no_opener s = true -> find_start i s = None.
Proof.
  revert i. induction s as [|c s IH]; intros i H; [reflexivity|].
  cbn [no_opener forallb] in H. apply andb_prop in H as [Hc Hs].
  apply negb_true_iff in Hc. cbn [find_start]. rewrite Hc. now apply IH.
Qed.

Lemma no_opener_app a b : no_opener (a ++ b) = no_opener a && no_opener b.
Proof. apply forallb_app. Qed.

Lemma no_opener_strip s : no_opener s = true -> no_opener (strip s) = true.
Proof.
  intros H. destruct (strip_infix s) as (a & b & E). rewrite E in H.
  rewrite !no_opener_app in H.
  apply andb_prop in H as [_ H]. now apply andb_prop in H as [H _].
Qed.

End ExtractPlain.

(** A response without a fence and without a brace or bracket is handed
    to [json.loads] as a whole, trimmed: a bare number, string or literal
    is still read. *)
Theorem extract_plain_text env text :
  fence_free text = true -> no_opener text = true -> strip text <> [] ->
  _extract_json_from_text env text = env_json_loads env (strip text).
Proof.
  intros Hf Hn Hne. unfold _extract_json_from_text.
  destruct (strip text) as [|c t] eqn:Es; [congruence|].
  rewrite select_text_plain by (rewrite <- Es; now apply fence_free_strip).
  unfold _find_span. rewrite find_start_none by (rewrite <- Es; now apply no_opener_strip).
  reflexivity.
Qed.

Lemma extract_plain_text_witness :
  _extract_json_from_text plain_env (lit " 42 ") = env_json_loads plain_env (strip (lit " 42 ")).
Proof.
  apply (extract_plain_text plain_env (lit " 42 ")); [reflexivity|reflexivity|].
  vm_compute. discriminate.
Defined.

(** ** The sanitizer, candidate by candidate *)

Section SanitizeMore.

Variable env : Env.

Lemma sanitize_step_one allowed max m :
  (forall u o, sanitize_step env allowed max true (u, o) m
               = (u, o ++ option_list (sanitize_one env allowed max m)))
  /\ (forall u o, sanitize_step env allowed max false (u, o) m
                  = (seen_after u (option_list (sanitize_one env allowed max m)),
                     o ++ demote_repeats u (option_list (sanitize_one env allowed max m)))).
Proof.
  unfold sanitize_step, sanitize_one.
  destruct m as [| | | | |l|d]; try (split; intros; cbn; now rewrite app_nil_r).
  destruct (py_int env (dict_get_default d (lit "srt_idx") PyNone)) as [i|e];
    [|split; intros; cbn; now rewrite app_nil_r].
  fold (checked_id env max (dict_get_default d (lit "id") PyNone)).
  destruct (checked_id env max (dict_get_default d (lit "id") PyNone)) as [z|];
    split; intros u o; cbn; try reflexivity.
  destruct (bool_decide (z ∈ u)); reflexivity.
Qed.

Lemma omap_step {A B} (f : A -> option B) m ms :
  omap f (m :: ms) = option_list (f m) ++ omap f ms.
Proof. cbn. destruct (f m); reflexivity. Qed.

Lemma omap_shorter {A B} (f : A -> option B) l :
  (length (omap f l) <= length l)%nat.
Proof.
  induction l as [|m l IH]; [reflexivity|]. rewrite omap_step, length_app.
  destruct (f m); simpl; lia.
Qed.

Lemma sanitize_fold_one allowed max ms : forall u o,
  fold_left (sanitize_step env allowed max true) ms (u, o)
  = (u, o ++ omap (sanitize_one env allowed max) ms)
  /\ fold_left (sanitize_step env allowed max false) ms (u, o)
     = (seen_after u (omap (sanitize_one env allowed max) ms),
        o ++ demote_repeats u (omap (sanitize_one env allowed max) ms)).
Proof.
  induction ms as [|m ms IH]; intros u o.
  - cbn. now rewrite !app_nil_r.
  - rewrite omap_step. cbn [fold_left].
    destruct (sanitize_step_one allowed max m) as [Ht Hf]. rewrite Ht, Hf.
    destruct (IH u (o ++ option_list (sanitize_one env allowed max m))) as [-> _].
    destruct (IH (seen_after u (option_list (sanitize_one env allowed max m)))
                (o ++ demote_repeats u (option_list (sanitize_one env allowed max m))))
      as [_ ->].
    rewrite demote_repeats_app, seen_after_app, <- !app_assoc. split; reflexivity.
Qed.

Lemma sanitize_matches_reuse allowed max ms :
  _sanitize_matches env (PyList ms) allowed max true
  = Ok (omap (sanitize_one env allowed max) ms).
Proof.
  unfold _sanitize_matches.
  now destruct (sanitize_fold_one allowed max ms ∅ []) as [-> _].
Qed.

Lemma sanitize_matches_no_reuse allowed max ms :
  _sanitize_matches env (PyList ms) allowed max false
  = Ok (demote_repeats ∅ (omap (sanitize_one env allowed max) ms)).
Proof.
  unfold _sanitize_matches.
  now destruct (sanitize_fold_one allowed max ms ∅ []) as [_ ->].
Qed.

Lemma checked_id_range max v z : checked_id env max v = Some z -> 0 <= z < max + 1.
Proof.
  unfold checked_id.
  destruct (match v with PyNone => None | _ => _ end) as [y|]; [|discriminate].
  destruct (Z.ltb_spec y 0) as [|H0]; [discriminate|].
  destruct (Z.ltb_spec max y) as [|H1]; [discriminate|].
  cbn. intros H. inversion H; subst. lia.
Qed.

Lemma sanitize_one_range allowed max m r :
  sanitize_one env allowed max m = Some r -> id_below (max + 1) r.
Proof.
  unfold sanitize_one. destruct m as [| | | | |l|d]; try discriminate.
  destruct (py_int env _); [|discriminate]. intros H. inversion H; subst.
  unfold id_below. cbn [mid].
  destruct (checked_id env max _) eqn:E; [|exact I]. now apply checked_id_range in E.
Qed.

Lemma omap_range allowed max ms :
  Forall (id_below (max + 1)) (omap (sanitize_one env allowed max) ms).
Proof.
  induction ms as [|m ms IH]; [constructor|]. rewrite omap_step.
  destruct (sanitize_one env allowed max m) as [r|] eqn:E; [|exact IH].
  constructor; [now apply sanitize_one_range in E|exact IH].
Qed.

Lemma demote_repeats_below n l : forall seen,
  Forall (id_below n) l -> Forall (id_below n) (demote_repeats seen l).
Proof.
  induction l as [|m l IH]; intros seen H; cbn [demote_repeats]; [constructor|].
  apply Forall_cons in H as [Hm Hl].
  destruct (mid m) as [z|] eqn:Em.
  - destruct (bool_decide (z ∈ seen)); constructor; try (now apply IH);
      [exact I|exact Hm].
  - constructor; [exact Hm|now apply IH].
Qed.

Lemma demote_repeats_idx l : forall seen,
  List.map srt_idx (demote_repeats seen l) = List.map srt_idx l.
Proof.
  induction l as [|m l IH]; intros seen; cbn [demote_repeats List.map]; [reflexivity|].
  destruct (mid m) as [z|]; [destruct (bool_decide (z ∈ seen))|];
    cbn [List.map demoted srt_idx]; now rewrite IH.
Qed.

Lemma demote_repeats_transitions (P : str -> Prop) l : forall seen,
  Forall (fun r => P (transition r)) l ->
  Forall (fun r => P (transition r)) (demote_repeats seen l).
Proof.
  induction l as [|m l IH]; intros seen H; cbn [demote_repeats]; [constructor|].
  apply Forall_cons in H as [Hm Hl].
  destruct (mid m) as [z|]; [destruct (bool_decide (z ∈ seen))|];
    constructor; try (now apply IH); exact Hm.
Qed.

End SanitizeMore.

(** ** The match sanitizer: the claims *)

Section SanitizeClaims.

Variable env : Env.

(** The records made when ids may be reused are those of the accepted
    candidates, one for one. *)
Lemma records_of_candidates allowed max ms :
  Forall2 (fun c r => sanitize_one env allowed max c = Some r)
    (List.filter (accepted env) ms) (omap (sanitize_one env allowed max) ms).
Proof.
  induction ms as [|m ms IH]; [constructor|].
  rewrite omap_step. cbn [List.filter].
  unfold accepted at 1. unfold sanitize_one at 2.
  destruct m as [| | | | |l|d]; try exact IH.
  destruct (py_int env (dict_get_default d (lit "srt_idx") PyNone)) as [i|e] eqn:E;
    [|exact IH].
  cbn [option_list app]. constructor; [|exact IH].
  unfold sanitize_one. now rewrite E.
Qed.

Lemma record_fields allowed max c r :
  sanitize_one env allowed max c = Some r ->
  mid r = checked_id env max (raw_field (lit "id") c)
  /\ transition r = _sanitize_transition env (raw_field (lit "transition") c) allowed.
Proof.
  unfold sanitize_one, raw_field. destruct c as [| | | | |l|d]; try discriminate.
  destruct (py_int env _); [|discriminate].
  intros H. inversion H; subst. split; reflexivity.
Qed.

Lemma records_mids allowed max ms :
  List.map mid (omap (sanitize_one env allowed max) ms)
  = List.map (fun c => checked_id env max (raw_field (lit "id") c))
      (List.filter (accepted env) ms).
Proof.
  pose proof (records_of_candidates allowed max ms) as H.
  induction H as [|c r cs rs Hcr _ IH]; [reflexivity|].
  cbn [List.map]. rewrite IH. f_equal. now apply record_fields in Hcr.
Qed.

Lemma records_transitions allowed max ms :
  DEFAULT_TRANSITION ∈ allowed ->
  Forall (fun r => transition r ∈ allowed) (omap (sanitize_one env allowed max) ms).
Proof.
  intros Hd. induction ms as [|m ms IH]; [constructor|]. rewrite omap_step.
  destruct (sanitize_one env allowed max m) as [r|] eqn:E; [|exact IH].
  constructor; [|exact IH].
  apply record_fields in E as [_ ->]. now apply sanitize_transition_allowed.
Qed.

Lemma demote_repeats_length l : forall seen,
  length (demote_repeats seen l) = length l.
Proof.
  induction l as [|m l IH]; intros seen; cbn [demote_repeats]; [reflexivity|].
  destruct (mid m) as [z|]; [destruct (bool_decide (z ∈ seen))|];
    cbn [length]; now rewrite IH.
Qed.

(** The id at a position after [demote_repeats]: null when it was seen
    before or stands at an earlier position, and kept otherwise. *)
Lemma demote_repeats_mids l : forall seen i o,
  List.map mid l !! i = Some o ->
  List.map mid (demote_repeats seen l) !! i
  = Some match o with
         | Some z =>
             if bool_decide (z ∈ seen \/ Some z ∈ take i (List.map mid l))
             then None else Some z
         | None => None
         end.
Proof.
  induction l as [|m l IH]; intros seen i o H; [discriminate|].
  destruct i as [|i].
  - cbn in H. inversion H; subst o. cbn [demote_repeats].
    destruct (mid m) as [z|] eqn:Em; [|cbn; now rewrite Em].
    destruct (bool_decide (z ∈ seen)) eqn:Ez; cbn.
    + apply bool_decide_eq_true in Ez.
      rewrite bool_decide_eq_true_2 by now left. reflexivity.
    + apply bool_decide_eq_false in Ez. rewrite Em.
      rewrite bool_decide_eq_false_2; [reflexivity|].
      intros [Hs|Hl]; [contradiction|]. inversion Hl.
  - cbn [List.map] in H. change (List.map mid l !! i = Some o) in H.
    assert (Hstep : forall seen',
      (forall z, z ∈ seen' <-> z ∈ seen \/ mid m = Some z) ->
      List.map mid (demote_repeats seen' l) !! i
      = Some match o with
             | Some z =>
                 if bool_decide (z ∈ seen \/ Some z ∈ take (S i) (List.map mid (m :: l)))
                 then None else Some z
             | None => None
             end).
    { intros seen' Hseen. rewrite (IH seen' i o H).
      destruct o as [z|]; [|reflexivity]. f_equal.
      rewrite (bool_decide_ext (z ∈ seen' \/ Some z ∈ take i (List.map mid l))
                 (z ∈ seen \/ Some z ∈ take (S i) (List.map mid (m :: l))));
        [reflexivity|].
      cbn [List.map take]. rewrite Hseen, elem_of_cons.
      split; [intros [[?|?]|?]|intros [?|[?|?]]]; auto. }
    cbn [demote_repeats].
    destruct (mid m) as [y|] eqn:Em.
    + destruct (bool_decide (y ∈ seen)) eqn:Ey; cbn [List.map lookup].
      * apply bool_decide_eq_true in Ey.
        change ((?a :: ?b) !! S i) with (b !! i).
        apply Hstep. intros z. split; [now left|].
        intros [?|Hz]; [assumption|]. now inversion Hz; subst.
      * change ((?a :: ?b) !! S i) with (b !! i).
        apply Hstep. intros z. rewrite elem_of_union, elem_of_singleton.
        split; [intros [->|?]; [now right|now left]|].
        intros [?|Hz]; [now right|]. left. now inversion Hz.
    + cbn [List.map]. change ((?a :: ?b) !! S i) with (b !! i).
      apply Hstep. intros z. split; [now left|]. now intros [?|?].
Qed.

Lemma demote_repeats_related {A} (R : A -> str -> Prop) cs l : forall seen,
  Forall2 (fun c r => R c (transition r)) cs l ->
  Forall2 (fun c r => R c (transition r)) cs (demote_repeats seen l).
Proof.
  intros seen H. revert seen.
  induction H as [|c r cs rs Hcr _ IH]; intros seen; [constructor|].
  cbn [demote_repeats].
  destruct (mid r) as [z|]; [destruct (bool_decide (z ∈ seen))|];
    constructor; try apply IH; exact Hcr.
Qed.

(** C4. Without reuse the sanitizer never returns two records with the
    same non-null material id: the first occurrence of an id is kept and
    every later repeat is set to null. For every list of candidates it
    returns a list [out] with one record for each candidate that is a
    dict with an integer [srt_idx]; the ids in [out] that are not null
    are pairwise distinct; and with [ids] the ids of those candidates
    after the coercion and the range check, the id of record [i] is
    [ids !! i] when that is not null and does not occur among the
    earlier ones, and null otherwise. [out] is also the list returned
    when ids may be reused, which carries [ids], after the repeats are
    set to null. *)
Theorem sanitize_no_reuse_unique ms allowed max :
  let cands := List.filter (accepted env) ms in
  let ids := List.map (fun c => checked_id env max (raw_field (lit "id") c)) cands in
  exists out out_reuse,
    _sanitize_matches env (PyList ms)
      allowed max false = Ok out
    /\ NoDup (omap mid out)
    /\ _sanitize_matches env (PyList ms)
         allowed max true = Ok out_reuse
    /\ out = demote_repeats ∅ out_reuse
    /\ List.map mid out_reuse = ids
    /\ length out = length cands
    /\ forall i o,
         ids !! i = Some o ->
         List.map mid out !! i
         = Some match o with
                | Some z => if bool_decide (Some z ∈ take i ids) then None else Some z
                | None => None
                end.
Proof.
  intros cands ids.
  exists (demote_repeats ∅ (omap (sanitize_one env allowed max) ms)),
         (omap (sanitize_one env allowed max) ms).
  pose proof (records_mids allowed max ms) as Hids. fold cands in Hids. fold ids in Hids.
  split; [apply sanitize_matches_no_reuse|].
  split; [apply demote_repeats_fresh|].
  split; [apply sanitize_matches_reuse|].
  split; [reflexivity|]. split; [exact Hids|]. split.
  - rewrite demote_repeats_length.
    rewrite <- (length_map mid), Hids. subst ids. apply length_map.
  - intros i o Hi. rewrite <- Hids in Hi.
    rewrite (demote_repeats_mids _ ∅ i o Hi), Hids.
    destruct o as [z|]; [|reflexivity]. f_equal.
    rewrite (bool_decide_ext (z ∈ (∅ : gset Z) \/ Some z ∈ take i ids)
               (Some z ∈ take i ids)); [reflexivity|].
    split; [intros [H|H]; [now apply not_elem_of_empty in H|exact H]|now right].
Qed.

(** C5, as amended. When the default transition is one of the allowed
    names, as it is in the list the program passes, every record the
    sanitizer returns has a transition among the allowed names. There is
    one record for each candidate that is a dict with an integer
    [srt_idx], in order, and the transition of the record is the value
    of the candidate's [transition] as a string, trimmed, when that is an
    allowed name, and the default otherwise. The same rule holds of
    [_sanitize_transition] on any value. *)
Theorem sanitize_transitions_allowed ms allowed max reuse :
  DEFAULT_TRANSITION ∈ allowed ->
  (exists out,
     _sanitize_matches env (PyList ms)
       allowed max reuse = Ok out
     /\ Forall (fun r => transition r ∈ allowed) out
     /\ Forall2 (fun c r =>
                   let n := trimmed_name env (raw_field (lit "transition") c) in
                   n ∈ allowed /\ transition r = n
                   \/ (n ∉ allowed) /\ transition r = DEFAULT_TRANSITION)
          (List.filter (accepted env) ms) out)
  /\ forall name,
       let n := trimmed_name env name in
       let t := _sanitize_transition env name allowed in
       t ∈ allowed
       /\ ((n ∈ allowed) /\ t = n \/ (n ∉ allowed) /\ t = DEFAULT_TRANSITION).
Proof.
  intros Hd.
  assert (Hrule : forall name,
            let n := trimmed_name env name in
            let t := _sanitize_transition env name allowed in
            (n ∈ allowed) /\ t = n \/ (n ∉ allowed) /\ t = DEFAULT_TRANSITION).
  { intros name n t. subst t n. unfold _sanitize_transition.
    destruct (bool_decide _) eqn:E.
    - apply bool_decide_eq_true in E. now left.
    - apply bool_decide_eq_false in E. now right. }
  split.
  - assert (Hrec : Forall2 (fun c r =>
                      (fun c t =>
                         let n := trimmed_name env (raw_field (lit "transition") c) in
                         n ∈ allowed /\ t = n
                         \/ (n ∉ allowed) /\ t = DEFAULT_TRANSITION) c (transition r))
                     (List.filter (accepted env) ms)
                     (omap (sanitize_one env allowed max) ms)).
    { eapply Forall2_impl; [apply records_of_candidates|].
      intros c r Hcr. apply record_fields in Hcr as [_ ->]. apply Hrule. }
    pose proof (records_transitions allowed max ms Hd) as Hall.
    destruct reuse.
    + rewrite sanitize_matches_reuse. eexists. split; [reflexivity|].
      split; [exact Hall|exact Hrec].
    + rewrite sanitize_matches_no_reuse. eexists. split; [reflexivity|].
      split; [|exact (demote_repeats_related
                        (fun c t =>
                           let n := trimmed_name env (raw_field (lit "transition") c) in
                           n ∈ allowed /\ t = n
                           \/ (n ∉ allowed) /\ t = DEFAULT_TRANSITION)
                        _ _ ∅ Hrec)].
      now apply (demote_repeats_transitions (fun t => t ∈ allowed)).
  - intros name n t. split; [now apply sanitize_transition_allowed|]. apply Hrule.
Qed.

End SanitizeClaims.

(** [sanitize_no_reuse_unique] on candidates with a repeated id: the
    second use of material 0 is set to null. *)
Example sanitize_mixed_no_reuse :
  _sanitize_matches plain_env
    mixed_candidates ALLOWED_TRANSITIONS 1 false
  = Ok [ {| srt_idx := 1; mid := Some 0; transition := DEFAULT_TRANSITION |};
         {| srt_idx := 2; mid := None; transition := DEFAULT_TRANSITION |};
         {| srt_idx := 3; mid := Some 1; transition := [38378; 30333]%N |};
         {| srt_idx := 4; mid := None; transition := DEFAULT_TRANSITION |} ].
Proof. vm_compute. reflexivity. Qed.

Lemma sanitize_transitions_allowed_witness :
  exists out,
    _sanitize_matches plain_env
      (PyList transition_candidates) ALLOWED_TRANSITIONS 1 false = Ok out
    /\ Forall (fun r => transition r ∈ ALLOWED_TRANSITIONS) out
    /\ Forall2 (fun c r =>
                  let n := trimmed_name plain_env (raw_field (lit "transition") c) in
                  n ∈ ALLOWED_TRANSITIONS /\ transition r = n
                  \/ (n ∉ ALLOWED_TRANSITIONS) /\ transition r = DEFAULT_TRANSITION)
         (List.filter (accepted plain_env) transition_candidates) out.
Proof.
  refine (proj1 (sanitize_transitions_allowed plain_env transition_candidates
                   ALLOWED_TRANSITIONS 1 false _)).
  apply list_elem_of_here.
Defined.

(** The sanitizer on [transition_candidates]: the first transition is
    kept, trimmed; the second candidate leaves no record; the third
    transition is replaced by the default. *)
Example sanitize_transition_candidates :
  _sanitize_matches plain_env
    (PyList transition_candidates) ALLOWED_TRANSITIONS 1 false
  = Ok [ {| srt_idx := 1; mid := None; transition := [38378; 30333]%N |};
         {| srt_idx := 2; mid := None; transition := DEFAULT_TRANSITION |} ].
Proof. vm_compute. reflexivity. Qed.

(** C5 as stated fails: with an allowed list that lacks the default
    name, a candidate without a transition is given the default, which is
    outside the list. *)
Lemma sanitize_transitions_counterexample :
  exists out,
    _sanitize_matches plain_env
      (PyList [PyDict [(lit "srt_idx", PyInt 1)]]) [[38378; 30333]%N] 0 false
    = Ok out
    /\ ~ Forall (fun r => transition r ∈ [[38378; 30333]%N]) out.
Proof.
  eexists. split; [vm_compute; reflexivity|].
  intros H. apply Forall_inv in H. cbn in H.
  apply list_elem_of_singleton in H. discriminate H.
Qed.

(** When ids may be reused the sanitizer judges every candidate on its
    own and keeps the order: the output is the list of the records of
    the candidates that are dicts with an integer [srt_idx], so a
    concatenation of candidate lists gives the concatenation of the
    outputs, and the output is never longer than the input. *)
Theorem sanitize_reuse_pointwise env allowed max a b :
  exists oa ob,
    _sanitize_matches env (PyList a) allowed max true = Ok oa
    /\ _sanitize_matches env (PyList b) allowed max true = Ok ob
    /\ _sanitize_matches env (PyList (a ++ b)) allowed max true = Ok (oa ++ ob)
    /\ oa = omap (sanitize_one env allowed max) a
    /\ (length oa <= length a)%nat.
Proof.
  exists (omap (sanitize_one env allowed max) a), (omap (sanitize_one env allowed max) b).
  rewrite !sanitize_matches_reuse. repeat split.
  - f_equal. apply omap_app.
  - apply omap_shorter.
Qed.

(** Whatever the candidates hold as id, an id that the sanitizer returns
    is an integer from 0 to [max_material_id]; everything else has
    become null. *)
Theorem sanitize_ids_in_range env ms allowed max reuse :
  exists out,
    _sanitize_matches env (PyList ms) allowed max reuse = Ok out
    /\ Forall (id_below (max + 1)) out.
Proof.
  destruct reuse.
  - rewrite sanitize_matches_reuse. eexists. split; [reflexivity|]. apply omap_range.
  - rewrite sanitize_matches_no_reuse. eexists. split; [reflexivity|].
    apply demote_repeats_below, omap_range.
Qed.

(** ** Trimming twice *)

Section StripTwice.

Lemma lstrip_keeps c r : is_space c = false -> lstrip (c :: r) = c :: r.
Proof. intros H. cbn [lstrip]. now rewrite H. Qed.

Lemma lstrip_head s :
  lstrip s = [] \/ exists c r, lstrip s = c :: r /\ is_space c = false.
Proof.
  induction s as [|c s IH]; [now left|]. cbn [lstrip].
  destruct (is_space c) eqn:E; [exact IH|]. right. now exists c, s.
Qed.

Lemma lstrip_idem s : lstrip (lstrip s) = lstrip s.
Proof.
  destruct (lstrip_head s) as [->|(c & r & -> & H)]; [reflexivity|].
  now apply lstrip_keeps.
Qed.

Lemma rstrip_idem s : rstrip (rstrip s) = rstrip s.
Proof. unfold rstrip. now rewrite rev_involutive, lstrip_idem. Qed.

Lemma lstrip_last x c : is_space c = false -> exists y, lstrip (x ++ [c]) = y ++ [c].
Proof.
  intros H. induction x as [|d x IH].
  - exists []. now apply lstrip_keeps.
  - cbn [app lstrip]. destruct (is_space d); [exact IH|]. now exists (d :: x).
Qed.

Lemma lstrip_rstrip_keeps c r :
  is_space c = false -> lstrip (rstrip (c :: r)) = rstrip (c :: r).
Proof.
  intros H. unfold rstrip. cbn [rev].
  destruct (lstrip_last (rev r) c H) as [y ->].
  rewrite rev_app_distr. cbn [rev app]. now apply lstrip_keeps.
Qed.

Lemma strip_idem s : strip (strip s) = strip s.
Proof.
  unfold strip.
  destruct (lstrip_head s) as [->|(c & r & -> & H)]; [reflexivity|].
  now rewrite lstrip_rstrip_keeps, rstrip_idem.
Qed.

End StripTwice.

(** ** Sanitizing what was sanitized *)

Section SanitizeTwice.

Variable env : Env.

Lemma trimmed_name_idem name :
  strip (trimmed_name env name) = trimmed_name env name.
Proof. unfold trimmed_name. destruct name; try apply strip_idem; reflexivity. Qed.

Lemma sanitize_transition_idem name allowed :
  _sanitize_transition env (PyStr (_sanitize_transition env name allowed)) allowed
  = _sanitize_transition env name allowed.
Proof.
  unfold _sanitize_transition.
  destruct (bool_decide (trimmed_name env name ∈ allowed)) eqn:E;
    cbn [trimmed_name py_str].
  - now rewrite trimmed_name_idem, E.
  - change (strip DEFAULT_TRANSITION) with DEFAULT_TRANSITION.
    now destruct (bool_decide (DEFAULT_TRANSITION ∈ allowed)).
Qed.

Lemma sanitize_one_settled allowed max r :
  settled env allowed max r ->
  sanitize_one env allowed max (record_to_py r) = Some r.
Proof.
  intros [Hid Ht]. destruct r as [i m t]. unfold id_below in Hid. cbn [mid transition] in *.
  unfold sanitize_one, record_to_py. cbn [srt_idx mid transition].
  change (dict_get_default _ (lit "srt_idx") PyNone) with (PyInt i).
  change (dict_get_default _ (lit "transition") PyNone) with (PyStr t).
  change (dict_get_default _ (lit "id") PyNone)
    with (match m with Some z => PyInt z | None => PyNone end).
  cbn [py_int]. rewrite Ht. do 2 f_equal.
  destruct m as [z|]; [|reflexivity]. unfold checked_id. cbn [py_int].
  destruct (Z.ltb_spec z 0); [lia|]. destruct (Z.ltb_spec max z); [lia|]. reflexivity.
Qed.

Lemma sanitize_one_gives_settled allowed max m r :
  sanitize_one env allowed max m = Some r -> settled env allowed max r.
Proof.
  intros H. split; [now apply sanitize_one_range in H|].
  unfold sanitize_one in H. destruct m as [| | | | |l|d]; try discriminate.
  destruct (py_int env _); [|discriminate]. inversion H; subst. cbn [transition].
  apply sanitize_transition_idem.
Qed.

Lemma omap_settled allowed max l :
  Forall (settled env allowed max) l ->
  omap (sanitize_one env allowed max) (List.map record_to_py l) = l.
Proof.
  induction 1 as [|r l Hr Hl IH]; [reflexivity|].
  cbn [List.map]. rewrite omap_step, sanitize_one_settled, IH by assumption.
  reflexivity.
Qed.

Lemma omap_gives_settled allowed max ms :
  Forall (settled env allowed max) (omap (sanitize_one env allowed max) ms).
Proof.
  induction ms as [|m ms IH]; [constructor|]. rewrite omap_step.
  destruct (sanitize_one env allowed max m) as [r|] eqn:E; [|exact IH].
  constructor; [now apply sanitize_one_gives_settled in E|exact IH].
Qed.

Lemma demote_repeats_settled allowed max l : forall seen,
  Forall (settled env allowed max) l ->
  Forall (settled env allowed max) (demote_repeats seen l).
Proof.
  induction l as [|m l IH]; intros seen H; cbn [demote_repeats]; [constructor|].
  apply Forall_cons in H as [Hm Hl].
  destruct (mid m) as [z|] eqn:Em.
  - destruct (bool_decide (z ∈ seen)); constructor; try (now apply IH); [|exact Hm].
    destruct Hm as [_ Ht]. split; [exact I|exact Ht].
  - constructor; [exact Hm|now apply IH].
Qed.

Lemma demote_repeats_distinct l : forall seen,
  NoDup (omap mid l) -> (forall z, z ∈ omap mid l -> z ∉ seen) ->
  demote_repeats seen l = l.
Proof.
  induction l as [|m l IH]; intros seen Hnd Hfresh; [reflexivity|].
  rewrite omap_step in Hnd, Hfresh. cbn [demote_repeats].
  destruct (mid m) as [z|] eqn:Em; simpl in Hnd, Hfresh.
  - rewrite bool_decide_eq_false_2 by (apply Hfresh; left).
    apply NoDup_cons in Hnd as [Hz Hnd]. f_equal. apply IH; [assumption|].
    intros y Hy. specialize (Hfresh y ltac:(now right)).
    intros Hin. apply elem_of_union in Hin as [Hin|Hin]; [|contradiction].
    apply elem_of_singleton in Hin. subst y. contradiction.
  - f_equal. now apply IH.
Qed.

End SanitizeTwice.

(** Sanitizing is idempotent: the records that the sanitizer returns,
    given to it again as dicts, come back unchanged, in either mode. *)
Theorem sanitize_idempotent env ms allowed max reuse :
  exists out,
    _sanitize_matches env (PyList ms) allowed max reuse = Ok out
    /\ _sanitize_matches env (PyList (List.map record_to_py out)) allowed max reuse
       = Ok out.
Proof.
  destruct reuse.
  - rewrite sanitize_matches_reuse. eexists. split; [reflexivity|].
    rewrite sanitize_matches_reuse. f_equal.
    apply omap_settled, omap_gives_settled.
  - rewrite sanitize_matches_no_reuse. eexists. split; [reflexivity|].
    rewrite sanitize_matches_no_reuse. f_equal.
    rewrite omap_settled by apply demote_repeats_settled, omap_gives_settled.
    destruct (demote_repeats_fresh (omap (sanitize_one env allowed max) ms) ∅) as [Hnd Hf].
    now apply demote_repeats_distinct.
Qed.

(** ** The match list after the sanitizer and the fallback *)

Section FallbackMore.

Variable env : Env.

Lemma default_allowed : DEFAULT_TRANSITION ∈ ALLOWED_TRANSITIONS.
Proof. apply list_elem_of_here. Qed.

Lemma fallback_ids_fresh n (F : nat -> MatchRecord -> MatchRecord) l : forall k,
  (forall i m, mid (F i m) = if (i <? n)%nat then Some (Z.of_nat i) else None) ->
  omap mid (imap (fun i => F (k + i)%nat) l)
  = List.map Z.of_nat (seq k (Nat.min (n - k) (length l))).
Proof.
  induction l as [|m l IH]; intros k HF.
  - cbn. now rewrite Nat.min_0_r.
  - cbn [imap length]. rewrite omap_step, HF, Nat.add_0_r.
    assert (E : imap ((fun i => F (k + i)%nat) ∘ S) l
                = imap (fun i => F (S k + i)%nat) l).
    { apply imap_ext. intros i x _. cbn. f_equal. lia. }
    rewrite E, IH by assumption.
    destruct (Nat.ltb_spec k n) as [Hlt|Hge]; simpl.
    + replace (Nat.min (n - k) (S (length l)))
        with (S (Nat.min (n - S k) (length l))) by lia.
      reflexivity.
    + replace (n - k)%nat with 0%nat by lia.
      replace (n - S k)%nat with 0%nat by lia. reflexivity.
Qed.

Lemma sanitized_transitions ms max reuse out :
  _sanitize_matches env (PyList ms) ALLOWED_TRANSITIONS max reuse = Ok out ->
  Forall (fun r => transition r ∈ ALLOWED_TRANSITIONS) out.
Proof.
  unfold _sanitize_matches. intros H. inversion H; subst.
  apply sanitize_fold_transitions; [apply default_allowed|constructor].
Qed.

End FallbackMore.

(** What [gemini_match_srt_to_materials] makes of a parsed list, through
    the sanitizer and the fallback, for [n] materials: every transition
    is one of [ALLOWED_TRANSITIONS], every id is null or the id of a
    material, without reuse no id occurs twice, and the fallback keeps
    the records and their caption indices. *)
Theorem matching_output_valid env ms n reuse :
  exists out,
    _sanitize_matches env (PyList ms) ALLOWED_TRANSITIONS (Z.of_nat n - 1) reuse = Ok out
    /\ Forall (fun r => transition r ∈ ALLOWED_TRANSITIONS) (fallback env reuse n out)
    /\ Forall (id_below (Z.of_nat n)) (fallback env reuse n out)
    /\ (reuse = false -> NoDup (omap mid (fallback env reuse n out)))
    /\ List.map srt_idx (fallback env reuse n out) = List.map srt_idx out.
Proof.
  assert (Hsan : exists out,
             _sanitize_matches env (PyList ms) ALLOWED_TRANSITIONS (Z.of_nat n - 1) reuse
             = Ok out
             /\ Forall (id_below (Z.of_nat n - 1 + 1)) out).
  { destruct reuse.
    - rewrite sanitize_matches_reuse. eexists. split; [reflexivity|]. apply omap_range.
    - rewrite sanitize_matches_no_reuse. eexists. split; [reflexivity|].
      apply demote_repeats_below, omap_range. }
  destruct Hsan as (out & Hout & Hid).
  replace (Z.of_nat n - 1 + 1) with (Z.of_nat n) in Hid by lia.
  exists out. split; [exact Hout|].
  pose proof (sanitized_transitions env ms _ _ _ Hout) as Htr.
  assert (Hnd : reuse = false -> NoDup (omap mid out)).
  { intros ->. rewrite sanitize_matches_no_reuse in Hout. inversion Hout.
    apply demote_repeats_fresh. }
  unfold fallback.
  destruct (negb (bool_decide (out = [])) && negb (n =? 0)%nat
            && forallb (fun m => bool_decide (mid m = None)) out) eqn:Ec;
    [|repeat split; assumption].
  apply andb_prop in Ec as [Ec _]. apply andb_prop in Ec as [_ En].
  apply negb_true_iff, Nat.eqb_neq in En.
  repeat split.
  - apply Forall_lookup. intros i r Hr. rewrite list_lookup_imap in Hr.
    destruct (out !! i) as [m|]; [|discriminate]. inversion Hr; subst. cbn [transition].
    apply sanitize_transition_allowed, default_allowed.
  - apply Forall_lookup. intros i r Hr. rewrite list_lookup_imap in Hr.
    destruct (out !! i) as [m|]; [|discriminate]. inversion Hr; subst.
    unfold id_below. cbn [mid]. destruct reuse.
    + apply Z.mod_pos_bound. lia.
    + destruct (Nat.ltb_spec i n); [lia|exact I].
  - intros ->.
    pose proof (fallback_ids_fresh n
                  (fun i m => {| srt_idx := srt_idx m;
                                 mid := if (i <? n)%nat then Some (Z.of_nat i) else None;
                                 transition := _sanitize_transition env (PyStr (transition m))
                                                 ALLOWED_TRANSITIONS |})
                  out 0 ltac:(reflexivity)) as E.
    cbn [Nat.add] in E. rewrite E.
    apply NoDup_fmap_2; [apply Nat2Z.inj'|apply NoDup_seq].
  - apply list_eq. intros i. rewrite !list_lookup_fmap, list_lookup_imap.
    now destruct (out !! i).
Qed.

(** ** The matching phase: runs that ask the model *)

Section MatchMore.

Variable env : Env.

Lemma cached_matches_forced p w : cached_matches env true p w = (Ok None, w).
Proof. reflexivity. Qed.

Lemma cached_matches_unusable p w :
  match files w !! p with
  | Some c => exists e, env_json_loads env c = Raise e
  | None => True
  end ->
  cached_matches env false p w = (Ok None, w).
Proof.
  intros H. unfold cached_matches, mbind, path_exists, mtry, _read_text, mlift, mret.
  cbn [negb andb].
  destruct (bool_decide (is_Some (files w !! p)) || bool_decide (p ∈ blobs w));
    [|reflexivity].
  destruct (files w !! p) as [c|]; [|reflexivity].
  destruct H as [e ->]. reflexivity.
Qed.

End MatchMore.

(** A match cache that is missing or does not parse is passed over: the
    run is the one that [force] gives, model call included. *)
Theorem unusable_cache_like_force env srt_items materials cache_dir text_model
    style_hint allow_reuse w :
  match files w !! match_cache_path env cache_dir with
  | Some c => exists e, env_json_loads env c = Raise e
  | None => True
  end ->
  gemini_match_srt_to_materials env srt_items materials cache_dir text_model
    style_hint false allow_reuse w
  = gemini_match_srt_to_materials env srt_items materials cache_dir text_model
      style_hint true allow_reuse w.
Proof.
  intros H. unfold gemini_match_srt_to_materials.
  fold (match_cache_path env cache_dir).
  rewrite (mbind_ok _ _ _ _ _ (cached_matches_unusable env _ w H)).
  rewrite (mbind_ok _ _ _ _ _ (cached_matches_forced env _ w)).
  reflexivity.
Qed.

Lemma unusable_cache_like_force_witness :
  gemini_match_srt_to_materials plain_env [] [] (lit "cache") None [] false false
    world_with_broken_cache
  = gemini_match_srt_to_materials plain_env [] [] (lit "cache") None [] true false
      world_with_broken_cache.
Proof.
  apply (unusable_cache_like_force plain_env [] [] (lit "cache") None [] false
           world_with_broken_cache).
  vm_compute. eexists. reflexivity.
Defined.

(** When the model client raises, the matching phase raises the same
    exception, not wrapped, and the call is its only effect: no raw
    response and no cache are written. *)
Theorem match_model_failure env srt_items materials cache_dir text_model
    style_hint force allow_reuse w e :
  cached_matches env force (match_cache_path env cache_dir) w = (Ok None, w) ->
  env_gemini env (calls_made w)
    (first_match_call env srt_items materials cache_dir text_model style_hint allow_reuse)
  = Raise e ->
  gemini_match_srt_to_materials env srt_items materials cache_dir text_model
    style_hint force allow_reuse w
  = (Raise e,
     with_trace w
       (trace w ++ [EvGemini (first_match_call env srt_items materials cache_dir
                                text_model style_hint allow_reuse)])).
Proof.
  intros Hc Hg. unfold gemini_match_srt_to_materials.
  fold (match_cache_path env cache_dir). rewrite (mbind_ok _ _ _ _ _ Hc).
  fold (first_match_call env srt_items materials cache_dir text_model style_hint allow_reuse).
  apply mbind_raise. now rewrite run_gemini_cli_step, Hg.
Qed.

Lemma match_model_failure_witness :
  gemini_match_srt_to_materials down_env [] [] (lit "cache") None [] true false empty_world
  = (Raise GeminiCliError,
     with_trace empty_world
       (trace empty_world
        ++ [EvGemini (first_match_call down_env [] [] (lit "cache") None [] false)])).
Proof.
  apply (match_model_failure down_env [] [] (lit "cache") None [] true false
           empty_world GeminiCliError); reflexivity.
Defined.

(** A run that asks the model and gets a list returns the sanitized
    list after the fallback, as dicts, and writes it to the match cache:
    one model call, one write. A later run that is not forced returns
    what [json.loads] reads from that file and does neither. *)
Theorem match_fresh_then_cached env srt_items materials cache_dir text_model
    style_hint force allow_reuse w response ms v :
  let req := first_match_call env srt_items materials cache_dir text_model
               style_hint allow_reuse in
  let path := match_cache_path env cache_dir in
  let out := matched_output env ms (length materials) allow_reuse in
  cached_matches env force path w = (Ok None, w) ->
  env_gemini env (calls_made w) req = Ok response ->
  _extract_json_from_text env response = Ok (PyList ms) ->
  env_write_outcome env path (env_json_dumps env out) = Written ->
  env_json_loads env (env_json_dumps env out) = Ok v ->
  exists w1,
    gemini_match_srt_to_materials env srt_items materials cache_dir text_model
      style_hint force allow_reuse w = (Ok out, w1)
    /\ trace w1 = trace w ++ [EvGemini req; EvWrite path (env_json_dumps env out)]
    /\ files w1 = <[path := env_json_dumps env out]> (files w)
    /\ gemini_match_srt_to_materials env srt_items materials cache_dir text_model
         style_hint false allow_reuse w1 = (Ok v, w1).
Proof.
  intros req path out Hc Hg Hx Hw Hl.
  assert (Hsan : exists recs,
             _sanitize_matches env (PyList ms) ALLOWED_TRANSITIONS
               (Z.of_nat (length materials) - 1) allow_reuse = Ok recs).
  { destruct allow_reuse;
      [rewrite sanitize_matches_reuse|rewrite sanitize_matches_no_reuse];
      eexists; reflexivity. }
  destruct Hsan as (recs & Hs).
  assert (Eout : out = PyList (List.map record_to_py
                                 (fallback env allow_reuse (length materials) recs)))
    by (subst out; unfold matched_output; now rewrite Hs).
  set (w0 := with_trace w (trace w ++ [EvGemini req])).
  set (w1 := with_files (with_trace w0 (trace w0 ++ [EvWrite path (env_json_dumps env out)]))
               (<[path := env_json_dumps env out]> (files w0))).
  exists w1.
  assert (Hrun : gemini_match_srt_to_materials env srt_items materials cache_dir
                   text_model style_hint force allow_reuse w = (Ok out, w1)).
  { unfold gemini_match_srt_to_materials.
    fold (match_cache_path env cache_dir). fold path. rewrite (mbind_ok _ _ _ _ _ Hc).
    fold (first_match_call env srt_items materials cache_dir text_model style_hint
            allow_reuse). fold req.
    assert (Hr : run_gemini_cli env req w = (Ok response, w0))
      by now rewrite run_gemini_cli_step, Hg.
    rewrite (mbind_ok _ _ _ _ _ Hr).
    erewrite mbind_ok; [|apply mtry_ok; unfold mlift; rewrite Hx; reflexivity].
    cbn [is_list negb].
    erewrite mbind_ok; [|unfold mlift; rewrite Hs; reflexivity].
    rewrite <- Eout.
    assert (Hwr : _write_text env path (env_json_dumps env out) w0 = (Ok tt, w1))
      by (rewrite write_text_step; cbv zeta; now rewrite Hw).
    now rewrite (mbind_ok _ _ _ _ _ Hwr). }
  split; [exact Hrun|]. split; [|split].
  - subst w1 w0. cbn. now rewrite <- app_assoc.
  - reflexivity.
  - unfold gemini_match_srt_to_materials.
    fold (match_cache_path env cache_dir). fold path.
    assert (Hhit : cached_matches env false path w1 = (Ok (Some v), w1)).
    { apply (cached_matches_hit env w1 path (env_json_dumps env out) v); [|apply Hl].
      subst w1. cbn. apply lookup_insert_eq. }
    now rewrite (mbind_ok _ _ _ _ _ Hhit).
Qed.

Lemma match_fresh_then_cached_witness :
  exists w1,
    gemini_match_srt_to_materials matching_env [] [] (lit "cache") None [] true false
      empty_world
    = (Ok (matched_output matching_env
             [ PyDict [ (lit "srt_idx", PyInt 1); (lit "id", PyInt 0);
                        (lit "transition", PyStr (lit "??")) ];
               PyDict [ (lit "srt_idx", PyInt 2); (lit "id", PyInt 0);
                        (lit "transition", PyStr (lit "??")) ] ] 0 false), w1)
    /\ trace w1
       = trace empty_world
         ++ [EvGemini (first_match_call matching_env [] [] (lit "cache") None [] false);
             EvWrite (match_cache_path matching_env (lit "cache")) stale_matches_text]
    /\ files w1
       = <[match_cache_path matching_env (lit "cache") := stale_matches_text]>
           (files empty_world)
    /\ gemini_match_srt_to_materials matching_env [] [] (lit "cache") None [] false
         false w1 = (Ok stale_matches_value, w1).
Proof.
  apply (match_fresh_then_cached matching_env [] [] (lit "cache") None [] true false
           empty_world stale_matches_text _ stale_matches_value).
  - reflexivity.
  - reflexivity.
  - vm_compute. reflexivity.
  - reflexivity.
  - vm_compute. reflexivity.
Defined.

(** ** The descriptive phase: the records *)

Section AnalysisRecords.

Variable env : Env.

Lemma cached_record_fields n abs_p kind cached r :
  cached_record env n abs_p kind cached = Ok r ->
  id r = Z.of_nat n /\ path r = abs_p.
Proof.
  unfold cached_record. intros H.
  repeat match type of H with
         | bind ?x _ = Ok _ => destruct x; cbn [bind] in H; [|discriminate]
         end.
  inversion H; subst. split; reflexivity.
Qed.

Lemma compute_material_fields cd md sd jp vm cache results abs_p kind mtime cached
    w c' rs' w' :
  compute_material env cd md sd jp vm cache results abs_p kind mtime cached w
  = (Ok (c', rs'), w') ->
  exists r, rs' = results ++ [r]
            /\ id r = Z.of_nat (length results) /\ path r = abs_p.
Proof.
  intros H. unfold compute_material in H.
  apply mbind_inv_ok in H as (vi & w1 & _ & H).
  apply mbind_inv_ok in H as (du & w2 & _ & H).
  apply mbind_inv_ok in H as ([tg d] & w3 & _ & H).
  apply mbind_inv_ok in H as ([] & w4 & _ & H).
  inversion H; subst. eexists. repeat split.
Qed.

Lemma analyze_one_fields cd md sd jp vm force cache results p w c' rs' w' :
  analyze_one env cd md sd jp vm force (cache, results) p w = (Ok (c', rs'), w') ->
  exists r, rs' = results ++ [r]
            /\ id r = Z.of_nat (length results) /\ path r = env_abspath env p.
Proof.
  rewrite analyze_one_unfold. cbv zeta.
  destruct (cache_fresh env force _ _) as [[|]|e]; [| |discriminate].
  - destruct (cached_record env _ _ _ _) as [r|e] eqn:E; [|discriminate].
    intros H. inversion H; subst. exists r. split; [reflexivity|].
    now apply cached_record_fields in E.
  - apply compute_material_fields.
Qed.

Lemma analyze_loop_fields cd md sd jp vm force ps : forall cache results w c' rs' w',
  analyze_loop env cd md sd jp vm force (cache, results) ps w = (Ok (c', rs'), w') ->
  exists new,
    rs' = results ++ new
    /\ List.map path new = List.map (env_abspath env) ps
    /\ List.map id new = List.map Z.of_nat (seq (length results) (length ps)).
Proof.
  induction ps as [|p ps IH]; intros cache results w c' rs' w' H; cbn [analyze_loop] in H.
  - inversion H; subst. exists []. now rewrite app_nil_r.
  - apply mbind_inv_ok in H as ([c1 rs1] & w1 & H1 & H).
    apply analyze_one_fields in H1 as (r & -> & Hid & Hp).
    apply IH in H as (new & -> & Hpaths & Hids).
    exists (r :: new). rewrite <- app_assoc. split; [reflexivity|].
    cbn [List.map length seq]. rewrite Hpaths, Hp, Hid, Hids.
    rewrite length_app. cbn [length].
    replace (length results + 1)%nat with (S (length results)) by lia.
    split; reflexivity.
Qed.

End AnalysisRecords.

(** An analysis that returns gives one record per material path, in the
    order of the paths: record [i] has id [i] and the absolute form of
    path [i], whether it came from the cache or was computed. *)
Theorem analysis_records_by_position env paths cache_dir vm force w rs w' :
  analyze_materials_with_gemini env paths cache_dir vm force w = (Ok rs, w') ->
  List.map path rs = List.map (env_abspath env) paths
  /\ List.map id rs = List.map Z.of_nat (seq 0 (length paths)).
Proof.
  unfold analyze_materials_with_gemini. intros H.
  apply mbind_inv_ok in H as ([c rs0] & w1 & H & Hr). inversion Hr; subst. cbn [snd].
  rewrite analyze_run_unfold in H. cbv zeta in H.
  destruct (env_makedirs_ok env _); [|discriminate].
  destruct (env_makedirs_ok env _); [|discriminate].
  destruct (loaded_cache env cache_dir w) as [| | | | | |d];
    try (destruct paths; [inversion H; subst; split; reflexivity|discriminate]).
  apply analyze_loop_fields in H as (new & -> & Hp & Hi). now cbn [app length] in *.
Qed.

Lemma analysis_records_by_position_witness :
  List.map path memo_results = List.map (env_abspath plain_env) [lit "m.png"]
  /\ List.map id memo_results = List.map Z.of_nat (seq 0 (length [lit "m.png"])).
Proof.
  refine (analysis_records_by_position plain_env [lit "m.png"] (lit "cache") None false
            empty_world memo_results (snd memo_first) _).
  vm_compute. reflexivity.
Defined.

(** ** The descriptive phase when the model is out of service *)

Section ModelDown.

Variable env : Env.
Hypothesis Hfs : fs_works env.
Hypothesis Hdown : model_down env.

Lemma dict_get_set_other d k v k' :
  k <> k' -> dict_get (dict_set d k v) k' = dict_get d k'.
Proof.
  intros Hne. induction d as [|[k0 v0] d IH]; cbn [dict_set dict_get].
  - unfold str_eqb. now rewrite bool_decide_eq_false_2.
  - unfold str_eqb in *. destruct (bool_decide (k0 = k)) eqn:E; cbn [dict_get].
    + apply bool_decide_eq_true in E. subst k0. unfold str_eqb.
      now rewrite !bool_decide_eq_false_2.
    + unfold str_eqb. destruct (bool_decide (k0 = k')); [reflexivity|exact IH].
Qed.

Lemma well_kept_set cache k mt kind du tg d vi :
  well_kept cache -> well_kept (dict_set cache k (cache_entry mt kind du tg d vi)).
Proof.
  intros H k' v Hv. destruct (decide (k = k')) as [<-|Hne].
  - rewrite dict_get_set in Hv. inversion Hv. eauto 10.
  - rewrite dict_get_set_other in Hv by assumption. now apply H in Hv.
Qed.

Lemma describe_down cd vm sp w :
  exists e w1, describe env cd vm sp w = (Raise e, w1).
Proof.
  unfold describe.
  match goal with
  | |- context [mbind (run_gemini_cli env ?req) ?k] =>
      destruct (Hdown (calls_made w) req) as [e He];
      exists e, (with_trace w (trace w ++ [EvGemini req]));
      apply mbind_raise; now rewrite run_gemini_cli_step, He
  end.
Qed.

Lemma copy_into_cache_works src md w :
  exists dst w1, _copy_into_cache env src md w = (Ok dst, w1).
Proof.
  destruct Hfs as (Hmk & Hmt & _ & Hcp & _).
  unfold _copy_into_cache.
  destruct (Hmt (env_abspath env src)) as [t Ht].
  unfold mbind at 1, mlift. rewrite Ht.
  unfold mbind at 1, path_exists.
  match goal with |- context [if ?b then mret tt else _] => destruct b end.
  - eexists _, _. reflexivity.
  - unfold _ensure_dir. rewrite Hmk, Hcp. eexists _, _. reflexivity.
Qed.

Lemma compute_material_down cd md sd jp vm cache results abs_p kind mtime w :
  well_kept cache ->
  exists c' r w',
    compute_material env cd md sd jp vm cache results abs_p kind mtime
      (cached_entry cache abs_p) w = (Ok (c', results ++ [r]), w')
    /\ well_kept c' /\ blank r.
Proof.
  intros Hk. destruct Hfs as (Hmk & Hmt & Hsb & Hcp & Hwr).
  unfold compute_material.
  (* the picture for the model *)
  match goal with
  | |- context [mbind ?m ?k] =>
      assert (H1 : exists vi w1, m w = (Ok vi, w1))
  end.
  { destruct (str_eqb kind (lit "video")); [|apply copy_into_cache_works].
    cbv zeta. unfold mbind at 1, path_exists.
    match goal with |- context [if ?b then mret tt else _] => destruct b end.
    - eexists _, _. reflexivity.
    - rewrite Hsb. eexists _, _. reflexivity. }
  destruct H1 as (vi & w1 & H1). rewrite (mbind_ok _ _ _ _ _ H1).
  (* the duration *)
  match goal with
  | |- context [mbind ?m ?k] =>
      assert (H2 : exists du, m w1 = (Ok du, w1))
  end.
  { destruct (str_eqb kind (lit "video")); cbn [andb]; [|eexists; reflexivity].
    unfold cached_entry. destruct (dict_get cache abs_p) as [v|] eqn:Ev;
      [|eexists; reflexivity].
    destruct (Hk _ _ Ev) as (mt & k0 & du & tg & d & vi0 & ->).
    eexists. reflexivity. }
  destruct H2 as (du & H2). rewrite (mbind_ok _ _ _ _ _ H2).
  (* the model *)
  destruct (describe_down cd vm (env_analysis_prompt env (env_rel env vi)) w1)
    as (e & w2 & H3).
  set (w3 := with_trace w2 (trace w2 ++ [EvPrint abs_p])).
  assert (H3' : mtry (describe env cd vm (env_analysis_prompt env (env_rel env vi)))
                  (fun _ => emit (EvPrint abs_p) ;; mret (([], []) : list str * str)) w1
                = (Ok ([], []), w3))
    by now rewrite (mtry_raise _ _ _ _ _ H3).
  rewrite (mbind_ok _ _ _ _ _ H3'). cbv beta iota.
  set (c' := dict_set cache abs_p (cache_entry mtime kind du [] [] vi)).
  assert (H4 : exists w4, _write_text env jp (env_json_dumps env (PyDict c')) w3 = (Ok tt, w4)).
  { rewrite write_text_step. cbv zeta. rewrite Hwr. eexists. reflexivity. }
  destruct H4 as (w4 & H4). rewrite (mbind_ok _ _ _ _ _ H4).
  eexists _, _, _. split; [reflexivity|]. split.
  - now apply well_kept_set.
  - split; reflexivity.
Qed.

Lemma analyze_loop_down cd md sd jp vm ps : forall cache results w,
  well_kept cache -> Forall blank results ->
  exists c' rs' w',
    analyze_loop env cd md sd jp vm true (cache, results) ps w = (Ok (c', rs'), w')
    /\ length rs' = (length results + length ps)%nat /\ Forall blank rs'.
Proof.
  induction ps as [|p ps IH]; intros cache results w Hk Hb; cbn [analyze_loop].
  - eexists _, _, _. split; [reflexivity|]. cbn [length]. split; [lia|exact Hb].
  - destruct (compute_material_down cd md sd jp vm cache results (env_abspath env p)
                (material_kind env (env_abspath env p))
                (probed_mtime env (env_abspath env p)) w Hk)
      as (c1 & r & w1 & H1 & Hk1 & Hr).
    assert (Ho : analyze_one env cd md sd jp vm true (cache, results) p w
                 = (Ok (c1, results ++ [r]), w1)).
    { rewrite analyze_one_unfold. cbv zeta. exact H1. }
    rewrite (mbind_ok _ _ _ _ _ Ho).
    destruct (IH c1 (results ++ [r]) w1 Hk1) as (c' & rs' & w' & H & Hlen & Hbl).
    { apply Forall_app. split; [exact Hb|]. constructor; [exact Hr|constructor]. }
    exists c', rs', w'. split; [exact H|]. split; [|exact Hbl].
    rewrite Hlen, length_app. cbn [length]. lia.
Qed.

End ModelDown.

(** A model that is out of service does not abort the descriptive
    phase. With a file system that works and no entries loaded from the
    cache file, a forced analysis of any list of materials returns one
    record per material, each without tags and with an empty
    description. *)
Theorem analysis_survives_model_failure env paths cache_dir vm w :
  fs_works env -> model_down env -> loaded_cache env cache_dir w = PyDict [] ->
  exists rs w',
    analyze_materials_with_gemini env paths cache_dir vm true w = (Ok rs, w')
    /\ length rs = length paths /\ Forall blank rs.
Proof.
  intros Hfs Hdown Hc. unfold analyze_materials_with_gemini.
  destruct (analyze_loop_down env Hfs Hdown (env_abspath env cache_dir)
              (env_path_join env (env_abspath env cache_dir) (lit "media"))
              (env_path_join env (env_abspath env cache_dir) (lit "storyboards"))
              (analysis_cache_path env cache_dir) vm paths [] [] w)
    as (c' & rs & w' & H & Hlen & Hb).
  { intros k v Hv. discriminate. }
  { constructor. }
  exists rs, w'. split; [|split; [exact Hlen|exact Hb]].
  assert (Hrun : analyze_run env paths cache_dir vm true w = (Ok (c', rs), w')).
  { rewrite analyze_run_unfold. cbv zeta. destruct Hfs as (Hmk & _).
    now rewrite !Hmk, Hc. }
  now rewrite (mbind_ok _ _ _ _ _ Hrun).
Qed.

Lemma analysis_survives_model_failure_witness :
  exists rs w',
    analyze_materials_with_gemini down_env [lit "a.png"; lit "b.png"] (lit "cache")
      None true empty_world = (Ok rs, w')
    /\ length rs = length [lit "a.png"; lit "b.png"] /\ Forall blank rs.
Proof.
  apply (analysis_survives_model_failure down_env [lit "a.png"; lit "b.png"]
           (lit "cache") None empty_world).
  - repeat split; intros; try reflexivity. eexists. reflexivity.
  - intros n req. eexists. reflexivity.
  - reflexivity.
Defined.

(** ** The copy of an image into the cache, and the fields of an answer *)

(** The copy into the cache is made once: after a call that returned,
    the same call returns the same path and changes nothing, since the
    copy is there. *)
Theorem copy_into_cache_once env src md w dst w1 :
  _copy_into_cache env src md w = (Ok dst, w1) ->
  _copy_into_cache env src md w1 = (Ok dst, w1).
Proof.
  unfold _copy_into_cache, mbind, mlift, path_exists, _ensure_dir, mret, emit,
    add_blob, mraise.
  destruct (env_getmtime env (env_abspath env src)) as [t|e] eqn:Et; [|discriminate].
  set (d := env_path_join env md
              (env_sha1 env (env_abspath env src ++ env_py_repr env (PyFloat t))
               ++ lower (env_path_ext env (env_abspath env src)))).
  destruct (bool_decide (is_Some (files w !! d)) || bool_decide (d ∈ blobs w)) eqn:Eb.
  - intros H. inversion H; subst. now rewrite Eb.
  - destruct (env_makedirs_ok env md); [|discriminate].
    destruct (env_copy_ok env (env_abspath env src) d) eqn:Ec; [|discriminate].
    intros H. inversion H; subst. cbn [files blobs].
    rewrite (bool_decide_eq_true_2 (d ∈ {[d]} ∪ blobs w))
      by (apply elem_of_union_l, elem_of_singleton; reflexivity).
    now rewrite orb_true_r.
Qed.

Lemma copy_into_cache_once_witness :
  _copy_into_cache plain_env (lit "m.png") (lit "media")
    (snd (_copy_into_cache plain_env (lit "m.png") (lit "media") empty_world))
  = (Ok (lit "media/m.png.png"),
     snd (_copy_into_cache plain_env (lit "m.png") (lit "media") empty_world)).
Proof.
  apply (copy_into_cache_once plain_env (lit "m.png") (lit "media") empty_world).
  reflexivity.
Defined.

(** The tags read from an answer of the model are trimmed and none is
    empty, whatever the answer holds; an answer that is not a dict gives
    no tags and an empty description. *)
Theorem analysis_fields_clean env analysis :
  Forall (fun t => t <> [] /\ strip t = t) (fst (analysis_fields env analysis))
  /\ (match analysis with PyDict _ => True | _ => analysis_fields env analysis = ([], []) end).
Proof.
  split; [|destruct analysis; try reflexivity; exact I].
  unfold analysis_fields. cbn [fst].
  apply Forall_forall. intros t Ht. apply list_elem_of_In in Ht.
  apply in_map_iff in Ht as (x & <- & Hx).
  apply filter_In in Hx as [_ Hx]. apply negb_true_iff in Hx.
  unfold str_eqb in Hx. apply bool_decide_eq_false in Hx.
  split; [exact Hx|apply strip_idem].
Qed.

(** ** The caption parser: what it raises *)

Section ParserErrors.

Variable env : Env.

Lemma float_of_str_error s e : float_of_str env s = Raise e -> is_value_error e.
Proof.
  unfold float_of_str. destruct (split_sign (strip_num s)) as [neg body].
  destruct (str_eqb _ _ || str_eqb _ _); [discriminate|].
  destruct (str_eqb _ _); [discriminate|].
  destruct (digit_run env 0 0 body) as [[ip ni] r1].
  destruct (match r1 with 46%N :: r => _ | _ => _ end) as [[m nf] r2].
  destruct (ni + nf =? 0)%nat; [intros H; inversion H; exact I|].
  destruct (float_exponent env r2); [discriminate|].
  intros H; inversion H; exact I.
Qed.

Lemma int_of_str_error s e : int_of_str env s = Raise e -> is_value_error e.
Proof.
  unfold int_of_str. destruct (split_sign (strip_num s)) as [neg body].
  destruct (int_digits env false 0 0 body) as [[v n]|]; [|intros H; inversion H; exact I].
  destruct (_ && _); [intros H; inversion H; exact I|discriminate].
Qed.

Lemma parse_time_error t e : _parse_time env t = Raise e -> is_value_error e.
Proof.
  unfold _parse_time.
  destruct (split [c_colon] (replace [c_comma] [c_dot] t)) as [|h [|m [|s [|x l]]]];
    try discriminate.
  destruct (float_of_str env h) eqn:Eh; cbn [bind];
    [|intros H; inversion H; subst; now apply float_of_str_error in Eh].
  destruct (float_of_str env m) eqn:Em; cbn [bind];
    [|intros H; inversion H; subst; now apply float_of_str_error in Em].
  destruct (float_of_str env s) eqn:Es; cbn [bind];
    [discriminate|intros H; inversion H; subst; now apply float_of_str_error in Es].
Qed.

Lemma parse_lines_error lines : forall skip e,
  parse_lines env skip lines = Raise e -> is_value_error e.
Proof.
  induction lines as [|l rest IH]; intros skip e H; cbn [parse_lines] in H;
    [discriminate|].
  destruct skip as [|k]; [|now apply IH in H].
  destruct rest as [|time_line after]; [now apply (IH 0%nat)|].
  destruct (isdigit env l && contains arrow time_line); [|now apply (IH 0%nat)].
  destruct (int_of_str env l) eqn:Ei; cbn [bind] in H;
    [|inversion H; subst; now apply int_of_str_error in Ei].
  destruct (List.map strip (take 2 (split arrow time_line))) as [|ta [|tb [|tc l']]];
    try (inversion H; exact I).
  destruct (_parse_time env ta) eqn:Ea; cbn [bind] in H;
    [|inversion H; subst; now apply parse_time_error in Ea].
  destruct (_parse_time env tb) eqn:Eb; cbn [bind] in H;
    [|inversion H; subst; now apply parse_time_error in Eb].
  destruct (parse_lines env _ (time_line :: after)) eqn:Ep; cbn [bind] in H;
    [discriminate|]. inversion H; subst. now apply IH in Ep.
Qed.

End ParserErrors.

(** Whatever the input, an exception that leaves [parse_srt_content] is
    a [ValueError]: the one [int] or [float] raises on a field that is
    not a number. *)
Theorem parse_srt_raises_value_error env content e :
  parse_srt_content env content = Raise e -> is_value_error e.
Proof. unfold parse_srt_content. apply parse_lines_error. Qed.

Lemma parse_srt_raises_value_error_witness :
  is_value_error (ValueError "could not convert string to float").
Proof.
  apply (parse_srt_raises_value_error plain_env srt_bad_time). vm_compute. reflexivity.
Defined.

(** ** Splitting and replacing at one character *)

Section SingleChar.

Lemma split_go_nonempty sep s : forall acc skip, split_go sep acc skip s <> [].
Proof.
  induction s as [|c s IH]; intros acc skip; cbn [split_go]; [discriminate|].
  destruct skip; [|apply IH]. destruct (startswith sep (c :: s)); [discriminate|apply IH].
Qed.

Lemma join_cons sep x l : l <> [] -> join sep (x :: l) = x ++ sep ++ join sep l.
Proof. destruct l; [congruence|reflexivity]. Qed.

Lemma replace_go_char a b s : forall acc,
  join [b] (split_go [a] acc 0 s)
  = rev acc ++ List.map (fun c => if (a =? c)%N then b else c) s.
Proof.
  induction s as [|c s IH]; intros acc; cbn [split_go List.map].
  - cbn. now rewrite app_nil_r.
  - cbn [startswith]. destruct (a =? c)%N; cbn [andb length Nat.sub].
    + rewrite join_cons by apply split_go_nonempty. rewrite IH. reflexivity.
    + rewrite IH. cbn [rev]. now rewrite <- app_assoc.
Qed.

(** [s.replace(a, b)] for single characters maps [a] to [b]. *)
Lemma replace_char a b s :
  replace [a] [b] s = List.map (fun c => if (a =? c)%N then b else c) s.
Proof. unfold replace, split. now rewrite replace_go_char. Qed.

Lemma split_go_count c s : forall acc,
  length (split_go [c] acc 0 s) = S (count_char c s).
Proof.
  unfold count_char. induction s as [|d s IH]; intros acc; cbn [split_go List.filter].
  - reflexivity.
  - cbn [startswith]. destruct (c =? d)%N; cbn [andb length Nat.sub].
    + now rewrite IH.
    + apply IH.
Qed.

Lemma count_char_map c f s :
  (forall d, (c =? f d)%N = (c =? d)%N) ->
  count_char c (List.map f s) = count_char c s.
Proof.
  intros Hf. unfold count_char. induction s as [|d s IH]; [reflexivity|].
  cbn [List.map List.filter]. rewrite Hf. destruct (c =? d)%N; cbn [length]; now rewrite IH.
Qed.

End SingleChar.

(** A time value with other than two colons parses to 0.0, whatever
    else it holds: [_parse_time] does not raise on it. *)
Theorem parse_time_degraded env t :
  count_char c_colon t <> 2%nat -> _parse_time env t = Ok (S754_zero false).
Proof.
  intros H. unfold _parse_time. rewrite replace_char.
  pose proof (split_go_count c_colon
                (List.map (fun c => if (c_comma =? c)%N then c_dot else c) t) []) as Hl.
  rewrite count_char_map in Hl.
  2:{ intros d. destruct (N.eqb_spec c_comma d) as [<-|]; reflexivity. }
  fold (split [c_colon] (List.map (fun c => if (c_comma =? c)%N then c_dot else c) t)) in Hl.
  destruct (split [c_colon] _) as [|h [|m [|s [|x l]]]]; try reflexivity.
  cbn [length] in Hl. congruence.
Qed.

Lemma parse_time_degraded_witness :
  _parse_time plain_env (lit "x1:yz") = Ok (S754_zero false).
Proof.
  apply (parse_time_degraded plain_env (lit "x1:yz")). vm_compute. discriminate.
Defined.

(** ** Times without milliseconds *)

Section WholeSeconds.

Variable env : Env.

Lemma parse_time_whole hh mm ss :
  all_digits hh = true -> hh <> [] ->
  all_digits mm = true -> mm <> [] ->
  all_digits ss = true -> ss <> [] ->
  _parse_time env (hh ++ [c_colon] ++ mm ++ [c_colon] ++ ss)
  = Ok (fadd (fadd (fmul (float_of_decimal false (digits_val hh 0) 0) (float_of_Z 3600))
                   (fmul (float_of_decimal false (digits_val mm 0) 0) (float_of_Z 60)))
             (float_of_decimal false (digits_val ss 0) 0)).
Proof.
  intros Hh Nh Hm Nm Hs Ns.
  assert (Hcomma : forall l, all_digits l = true -> lacks c_comma l = true)
    by (intros l; now apply lacks_digits).
  assert (Hcolon : forall l, all_digits l = true -> lacks c_colon l = true)
    by (intros l; now apply lacks_digits).
  unfold _parse_time, replace, split.
  rewrite (split_go_none c_comma).
  2:{ rewrite !lacks_app, (Hcomma hh), (Hcomma mm), (Hcomma ss) by assumption.
      reflexivity. }
  cbn [rev app join].
  rewrite split_go_cut by now apply Hcolon. cbn [app].
  rewrite split_go_cut by now apply Hcolon.
  rewrite split_go_none by now apply Hcolon.
  cbn [rev app].
  rewrite !float_of_str_integer by assumption.
  reflexivity.
Qed.

Lemma whole_seconds_round_trip h m s :
  0 <= h < 10 ^ 8 -> 0 <= m < 60 -> 0 <= s < 60 ->
  float_round (fmul (whole_seconds_of h m s) (float_of_Z 1000)) = Ok (millis h m s 0).
Proof.
  intros Hh Hm Hs. unfold whole_seconds_of.
  change (10 ^ 8) with 100000000 in Hh.
  assert (P53 : 2 ^ 53 = 9007199254740992) by reflexivity.
  assert (P128 : 2 ^ 128 = 340282366920938463463374607431768211456) by reflexivity.
  assert (P192 : 2 ^ 192 = 2 ^ 64 * 2 ^ 128) by reflexivity.
  assert (P64 : 2 ^ 64 = 18446744073709551616) by reflexivity.
  assert (P116 : 2 ^ 116 = 83076749736557242056487941267521536) by reflexivity.
  destruct (float_of_nat_val h) as [Gh Vh]; [lia|].
  destruct (float_of_nat_val m) as [Gm Vm]; [lia|].
  destruct (float_of_nat_val s) as [Gs Vs]; [lia|].
  set (fh := float_of_decimal false h 0) in *.
  set (fm := float_of_decimal false m 0) in *.
  set (fs := float_of_decimal false s 0) in *.
  destruct (fmul_val fh (float_of_Z 3600) 3600 Gh const_3600) as [Ga Va].
  { rewrite Vh. apply scaled_zero_or_big. lia. }
  { rewrite Vh, P192. lia. }
  rewrite Vh in Va. replace (3600 * (h * 2 ^ 128)) with (3600 * h * 2 ^ 128) in Va by ring.
  rewrite rnd53_fits in Va by lia.
  set (a := fmul fh (float_of_Z 3600)) in *.
  destruct (fmul_val fm (float_of_Z 60) 60 Gm const_60) as [Gb Vb].
  { rewrite Vm. apply scaled_zero_or_big. lia. }
  { rewrite Vm, P192. lia. }
  rewrite Vm in Vb. replace (60 * (m * 2 ^ 128)) with (60 * m * 2 ^ 128) in Vb by ring.
  rewrite rnd53_fits in Vb by lia.
  set (b := fmul fm (float_of_Z 60)) in *.
  destruct (fadd_val a b Ga Gb) as [Gc Vc].
  { rewrite Va, Vb, P192, P53.
    destruct (Z.eq_dec (3600 * h + 60 * m) 0); [left|right]; lia. }
  rewrite Va, Vb in Vc.
  replace (3600 * h * 2 ^ 128 + 60 * m * 2 ^ 128)
    with ((3600 * h + 60 * m) * 2 ^ 128) in Vc by ring.
  rewrite rnd53_fits in Vc by lia.
  set (c := fadd a b) in *.
  destruct (fadd_val c fs Gc Gs) as [Gx Vx].
  { rewrite Vc, Vs, P192, P53.
    destruct (Z.eq_dec (3600 * h + 60 * m + s) 0); [left|right]; lia. }
  rewrite Vc, Vs in Vx.
  replace ((3600 * h + 60 * m) * 2 ^ 128 + s * 2 ^ 128)
    with ((3600 * h + 60 * m + s) * 2 ^ 128) in Vx by ring.
  rewrite rnd53_fits in Vx by lia.
  set (x := fadd c fs) in *.
  destruct (fmul_val x (float_of_Z 1000) 1000 Gx const_1000) as [Gy Vy].
  { rewrite Vx. apply scaled_zero_or_big. lia. }
  { rewrite Vx, P192. lia. }
  rewrite Vx in Vy.
  replace (1000 * ((3600 * h + 60 * m + s) * 2 ^ 128))
    with (1000 * (3600 * h + 60 * m + s) * 2 ^ 128) in Vy by ring.
  rewrite rnd53_fits in Vy by lia.
  rewrite float_round_val, Vy, rne_shift_exact by (assumption || lia).
  unfold millis. f_equal. lia.
Qed.

End WholeSeconds.

(** A time written without milliseconds is read as well; formatting its
    value gives the same time with [,000] after it, for hours below
    10^8. *)
Theorem parse_format_whole_seconds env h m s :
  0 <= h < 10 ^ 8 -> 0 <= m < 60 -> 0 <= s < 60 ->
  exists x,
    _parse_time env (short_time_string h m s) = Ok x
    /\ format_srt_timestamp x = Ok (short_time_string h m s ++ lit ",000").
Proof.
  intros Hh Hm Hs. exists (whole_seconds_of h m s).
  destruct (fmt_0d_spec 2 h ltac:(lia)) as (Ah & Nh & Vh & _).
  destruct (fmt_0d_spec 2 m ltac:(lia)) as (Am & Nm & Vm & _).
  destruct (fmt_0d_spec 2 s ltac:(lia)) as (As & Ns & Vs & _).
  split.
  - unfold short_time_string. rewrite parse_time_whole by assumption.
    now rewrite Vh, Vm, Vs.
  - unfold format_srt_timestamp. rewrite whole_seconds_round_trip by assumption.
    cbn [bind].
    destruct (millis_fields h m s 0) as (E1 & E2 & E3 & E4); try lia.
    cbv zeta in E1, E2, E3, E4. rewrite E1, E2, E3, E4.
    unfold short_time_string. rewrite <- !app_assoc. reflexivity.
Qed.

Lemma parse_format_whole_seconds_witness :
  exists x,
    _parse_time plain_env (short_time_string 1 2 3) = Ok x
    /\ format_srt_timestamp x = Ok (short_time_string 1 2 3 ++ lit ",000").
Proof.
  apply (parse_format_whole_seconds plain_env 1 2 3); [split; [lia|reflexivity]|lia..].
Defined.

(** ** The model name given on the command line *)

(** [_normalize_model_arg] returns nothing or a name that is not empty,
    has no white space around it and is not [auto], [default], [none]
    or [null] in any letter case, so that the name counts as given
    wherever the program tests it; and normalizing twice is normalizing
    once. *)
Theorem normalize_model_arg_spec s :
  (forall r, _normalize_model_arg s = Some r ->
     r <> [] /\ strip r = r /\ (lower r ∉ NO_MODEL_NAMES)
     /\ model_given (Some r) = true
     /\ exists s0, s = Some s0 /\ r = strip s0)
  /\ _normalize_model_arg (_normalize_model_arg s) = _normalize_model_arg s.
Proof.
  assert (H : forall r, _normalize_model_arg s = Some r ->
     r <> [] /\ strip r = r /\ (lower r ∉ NO_MODEL_NAMES)
     /\ model_given (Some r) = true
     /\ exists s0, s = Some s0 /\ r = strip s0).
  { intros r. unfold _normalize_model_arg. destruct s as [s0|]; [|discriminate].
    cbv zeta. destruct (str_eqb (strip s0) []) eqn:E1; [discriminate|].
    destruct (bool_decide (lower (strip s0) ∈ NO_MODEL_NAMES)) eqn:E2; [discriminate|].
    cbn [orb]. intros Hr. inversion Hr; subst.
    unfold str_eqb in E1. apply bool_decide_eq_false in E1, E2.
    repeat split; try assumption; [apply strip_idem| |now exists s0].
    destruct (strip s0); [congruence|reflexivity]. }
  split; [exact H|].
  destruct (_normalize_model_arg s) as [r|] eqn:E; [|reflexivity].
  destruct (H r eq_refl) as (Hne & Hs & Hl & _).
  unfold _normalize_model_arg. cbv zeta. rewrite Hs.
  unfold str_eqb. rewrite bool_decide_eq_false_2 by assumption.
  now rewrite bool_decide_eq_false_2 by assumption.
Qed.

(** ** The duration of a caption *)

(** The duration of a caption is zero or more and never NaN, also when
    the end lies before the start or a time is NaN; it is 0.0 or the
    difference of end and start. *)
Theorem item_duration_not_negative it :
  SFleb (S754_zero false) (item_duration it) = true
  /\ (item_duration it = S754_zero false
      \/ item_duration it = fsub (end_ it) (start it)).
Proof.
  unfold item_duration, float_max.
  destruct (SFltb (S754_zero false) (fsub (end_ it) (start it))) eqn:E.
  - split; [|now right]. unfold SFltb in E. unfold SFleb.
    destruct (SFcompare _ _) as [[]|]; try discriminate; reflexivity.
  - split; [reflexivity|now left].
Qed.

(** ** The bridge to the command line client: quoting *)

Section PsQuote.

Import GeminiCliBridge.



End PsQuote.


(** ** The bridge: the first JSON object of the output *)

Section FirstObject.

Import GeminiCliBridge.

Lemma find_char_first c pre rest i :
  lacks c pre = true -> find_char c i (pre ++ c :: rest) = Some (i + length pre)%nat.
Proof.
  revert i. induction pre as [|d pre IH]; intros i H; cbn [app find_char length].
  - rewrite N.eqb_refl. f_equal. lia.
  - cbn [lacks forallb] in H. apply andb_prop in H as [Hd Hp].
    apply negb_true_iff in Hd. rewrite Hd. rewrite IH by assumption. f_equal. lia.
Qed.

Lemma rfind_char_none c s i : lacks c s = true -> rfind_char c i s = None.
Proof.
  revert i. induction s as [|d s IH]; intros i H; [reflexivity|].
  cbn [lacks forallb] in H. apply andb_prop in H as [Hd Hp].
  apply negb_true_iff in Hd. cbn [rfind_char]. now rewrite IH, Hd.
Qed.

Lemma rfind_char_last c pre post i :
  lacks c post = true -> rfind_char c i (pre ++ c :: post) = Some (i + length pre)%nat.
Proof.
  intros H. revert i. induction pre as [|d pre IH]; intros i; cbn [app rfind_char length].
  - rewrite rfind_char_none by assumption. rewrite N.eqb_refl. f_equal. lia.
  - rewrite IH. f_equal. lia.
Qed.

End FirstObject.

(** [_extract_first_json_object] parses the trimmed output from its
    first opening brace to its last closing brace, whatever stands
    between them, and turns a failure of [json.loads] into a
    [GeminiCliError]. *)
Theorem first_object_span env text pre mid post :
  strip text = pre ++ braces mid ++ post ->
  lacks c_lbrace pre = true -> lacks c_rbrace post = true ->
  GeminiCliBridge._extract_first_json_object env text
  = try_except (env_json_loads env (braces mid)) (fun _ => Raise GeminiCliError).
Proof.
  intros Hs Hpre Hpost. unfold GeminiCliBridge._extract_first_json_object.
  rewrite Hs. destruct (pre ++ braces mid ++ post) as [|c t] eqn:Et.
  { destruct pre; discriminate. }
  rewrite <- Et. unfold braces at 1 2. cbn [app].
  rewrite (find_char_first c_lbrace pre _ 0 Hpre).
  replace (pre ++ c_lbrace :: (mid ++ [c_rbrace]) ++ post)
    with ((pre ++ c_lbrace :: mid) ++ c_rbrace :: post)
    by (now rewrite <- !app_assoc).
  rewrite (rfind_char_last c_rbrace _ _ 0 Hpost).
  rewrite length_app. cbn [length Nat.add].
  destruct (Nat.ltb_spec (length pre + S (length mid)) (length pre)); [lia|].
  f_equal. unfold slice. rewrite drop_app_length.
  replace (length pre + S (length mid) + 1 - length pre)%nat
    with (length (braces mid))
    by (unfold braces; cbn [length]; rewrite length_app; cbn [length]; lia).
  now rewrite take_app_length.
Qed.

Lemma first_object_span_witness :
  GeminiCliBridge._extract_first_json_object plain_env
    (lit "log " ++ braces (jlit "'tags': ['a','b'], 'desc': 'x'") ++ lit " done")
  = try_except (env_json_loads plain_env (braces (jlit "'tags': ['a','b'], 'desc': 'x'")))
      (fun _ => Raise GeminiCliError).
Proof.
  apply (first_object_span plain_env
           (lit "log " ++ braces (jlit "'tags': ['a','b'], 'desc': 'x'") ++ lit " done")
           (lit "log ") (jlit "'tags': ['a','b'], 'desc': 'x'") (lit " done"));
    reflexivity.
Defined.

(** Whatever the output, [_extract_first_json_object] raises nothing
    but [GeminiCliError]. *)
Theorem first_object_raises_cli_error env text e :
  GeminiCliBridge._extract_first_json_object env text = Raise e -> e = GeminiCliError.
Proof.
  unfold GeminiCliBridge._extract_first_json_object.
  destruct (strip text) as [|c t]; [intros H; now inversion H|].
  destruct (GeminiCliBridge.find_char _ _ _); [|intros H; now inversion H].
  destruct (GeminiCliBridge.rfind_char _ _ _); [|intros H; now inversion H].
  destruct (_ <? _)%nat; [intros H; now inversion H|].
  destruct (env_json_loads env _); cbn [try_except]; [discriminate|].
  intros H; now inversion H.
Qed.

Lemma first_object_raises_cli_error_witness : GeminiCliError = GeminiCliError.
Proof.
  apply (first_object_raises_cli_error plain_env (lit "no json here")). reflexivity.
Defined.

(** ** The bridge: attempts and back-off *)

Section Attempts.

Import GeminiCliBridge.

Lemma attempts_bounded env host script cwd t json :
  let eff := snd (attempts env host script cwd t json max_attempts 1 5 None) in
  (spawns eff <= 3)%nat
  /\ (sleeps eff = [] \/ sleeps eff = [5] \/ sleeps eff = [5; 15]).
Proof.
  unfold max_attempts. cbn [attempts].
  repeat match goal with
         | |- context [match host_run ?h ?n ?s with _ => _ end] =>
             destruct (host_run h n s) as [?cp|?e]
         | |- context [returncode ?c =? 0] => destruct (returncode c =? 0)
         | |- context [is_bootstrap ?e ?o] => destruct (is_bootstrap e o)
         | |- context [retryable ?o] => destruct (retryable o)
         | |- context [if json then _ else _] => destruct json
         | |- context [json && _] => destruct json
         | _ => progress cbn
         end;
    (split; [lia|auto]).
Qed.

Lemma spawns_wrapped name text eff tl :
  (forall e, In e tl -> match e with TempRemove _ => True | _ => False end) ->
  spawns (TempWrite name text :: eff ++ tl) = spawns eff
  /\ sleeps (TempWrite name text :: eff ++ tl) = sleeps eff.
Proof.
  intros Htl. unfold spawns, sleeps. cbn [List.filter]. rewrite omap_step. cbn [option_list app].
  rewrite List.filter_app, length_app, omap_app.
  assert (E : List.filter (fun e => match e with Spawn _ _ _ _ => true | _ => false end) tl = []
              /\ omap (fun e => match e with Sleep s => Some s | _ => None end) tl = []).
  { induction tl as [|x tl IH]; [split; reflexivity|].
    destruct (IH (fun e He => Htl e (or_intror He))) as [E1 E2].
    pose proof (Htl x (or_introl eq_refl)) as Hx.
    destruct x; try contradiction. rewrite omap_step. cbn. now rewrite E1, E2. }
  destruct E as [-> ->]. cbn [length]. rewrite Nat.add_0_r, app_nil_r. split; reflexivity.
Qed.

End Attempts.

(** Whatever the processes do, one call of the client starts PowerShell
    at most three times and sleeps at most twice, 5 and then 15 seconds. *)
Theorem cli_retries_bounded env host prompt model output_format dirs stdin_text cwd t :
  let eff := snd (GeminiCliBridge.run_gemini_cli env host prompt model output_format
                    dirs stdin_text cwd t) in
  (spawns eff <= 3)%nat
  /\ (sleeps eff = [] \/ sleeps eff = [5] \/ sleeps eff = [5; 15]).
Proof.
  cbv zeta. unfold GeminiCliBridge.run_gemini_cli. cbv zeta.
  assert (Hgo : forall f,
    let script := GeminiCliBridge.ps_script prompt model output_format
                    (GeminiCliBridge.norm_dirs env dirs) f in
    let eff := snd (GeminiCliBridge.attempts env host script cwd t
                      (str_eqb output_format (lit "json"))
                      GeminiCliBridge.max_attempts 1 5 None) in
    (spawns eff <= 3)%nat
    /\ (sleeps eff = [] \/ sleeps eff = [5] \/ sleeps eff = [5; 15])).
  { intros f. apply attempts_bounded. }
  destruct stdin_text as [text|].
  - destruct (GeminiCliBridge.host_temp host) as [name|e]; [|cbn; split; [lia|auto]].
    specialize (Hgo (Some name)). cbv zeta in Hgo.
    destruct (GeminiCliBridge.attempts _ _ _ _ _ _ _ _ _ _) as [r eff]. cbn [snd] in *.
    destruct (spawns_wrapped name text eff
                (match name with [] => [] | _ :: _ => [GeminiCliBridge.TempRemove name] end))
      as [-> ->]; [|exact Hgo].
    intros e He. destruct name; [contradiction|].
    destruct He as [<-|[]]. exact I.
  - specialize (Hgo None). cbv zeta in Hgo.
    destruct (GeminiCliBridge.attempts _ _ _ _ _ _ _ _ _ _) as [r eff]. exact Hgo.
Qed.

(** A process that exits with an error and shows no capacity signal is
    not run again: the call raises [GeminiCliError] after one start and
    no sleep. *)
Theorem cli_failure_not_retried env host prompt model output_format dirs cwd t cp :
  let script := GeminiCliBridge.ps_script prompt model output_format
                  (GeminiCliBridge.norm_dirs env dirs) None in
  GeminiCliBridge.host_run host 1 script = Ok cp ->
  GeminiCliBridge.returncode cp <> 0 ->
  GeminiCliBridge.retryable (GeminiCliBridge.stderr cp) = false ->
  GeminiCliBridge.run_gemini_cli env host prompt model output_format dirs None cwd t
  = (Raise GeminiCliError, [GeminiCliBridge.Spawn 1 script cwd t]).
Proof.
  intros script Hrun Hrc Hre. unfold GeminiCliBridge.run_gemini_cli. cbv zeta.
  fold script. unfold GeminiCliBridge.max_attempts. cbn [GeminiCliBridge.attempts].
  rewrite Hrun. apply Z.eqb_neq in Hrc. rewrite Hrc, Hre. reflexivity.
Qed.

Lemma cli_failure_not_retried_witness :
  GeminiCliBridge.run_gemini_cli plain_env (failing_host (lit "no such model"))
    (lit "hi") None (lit "json") None None None 600
  = (Raise GeminiCliError,
     [GeminiCliBridge.Spawn 1
        (GeminiCliBridge.ps_script (lit "hi") None (lit "json")
           (GeminiCliBridge.norm_dirs plain_env None) None) None 600]).
Proof.
  apply (cli_failure_not_retried plain_env (failing_host (lit "no such model"))
           (lit "hi") None (lit "json") None None 600
           {| GeminiCliBridge.returncode := 1; GeminiCliBridge.stdout := [];
              GeminiCliBridge.stderr := lit "no such model" |});
    [reflexivity|discriminate|reflexivity].
Defined.

(** While the processes exit with an error and show a capacity signal,
    the call tries again after 5 and after 15 seconds, and raises
    [GeminiCliError] when the third attempt fails too, without a third
    sleep. *)
Theorem cli_capacity_backoff env host prompt model output_format dirs cwd t :
  let script := GeminiCliBridge.ps_script prompt model output_format
                  (GeminiCliBridge.norm_dirs env dirs) None in
  (forall n, exists cp,
     GeminiCliBridge.host_run host n script = Ok cp
     /\ GeminiCliBridge.returncode cp <> 0
     /\ GeminiCliBridge.retryable (GeminiCliBridge.stderr cp) = true) ->
  GeminiCliBridge.run_gemini_cli env host prompt model output_format dirs None cwd t
  = (Raise GeminiCliError,
     [GeminiCliBridge.Spawn 1 script cwd t; GeminiCliBridge.Sleep 5;
      GeminiCliBridge.Spawn 2 script cwd t; GeminiCliBridge.Sleep 15;
      GeminiCliBridge.Spawn 3 script cwd t]).
Proof.
  intros script H. unfold GeminiCliBridge.run_gemini_cli. cbv zeta.
  fold script. unfold GeminiCliBridge.max_attempts. cbn [GeminiCliBridge.attempts].
  destruct (H 1%nat) as (c1 & -> & R1 & E1). apply Z.eqb_neq in R1. rewrite R1, E1.
  destruct (H 2%nat) as (c2 & -> & R2 & E2). apply Z.eqb_neq in R2. rewrite R2, E2.
  destruct (H 3%nat) as (c3 & -> & R3 & E3). apply Z.eqb_neq in R3. rewrite R3, E3.
  reflexivity.
Qed.

Lemma cli_capacity_backoff_witness :
  GeminiCliBridge.run_gemini_cli plain_env (failing_host (lit "status 429"))
    (lit "hi") None (lit "json") None None None 600
  = (Raise GeminiCliError,
     [GeminiCliBridge.Spawn 1
        (GeminiCliBridge.ps_script (lit "hi") None (lit "json")
           (GeminiCliBridge.norm_dirs plain_env None) None) None 600;
      GeminiCliBridge.Sleep 5;
      GeminiCliBridge.Spawn 2
        (GeminiCliBridge.ps_script (lit "hi") None (lit "json")
           (GeminiCliBridge.norm_dirs plain_env None) None) None 600;
      GeminiCliBridge.Sleep 15;
      GeminiCliBridge.Spawn 3
        (GeminiCliBridge.ps_script (lit "hi") None (lit "json")
           (GeminiCliBridge.norm_dirs plain_env None) None) None 600]).
Proof.
  apply (cli_capacity_backoff plain_env (failing_host (lit "status 429"))
           (lit "hi") None (lit "json") None None 600).
  intros n. eexists. split; [reflexivity|]. split; [discriminate|reflexivity].
Defined.

(** ** The bridge: the directories passed on *)

Section NormDirs.

Variable env : Env.

Import GeminiCliBridge.

Lemma norm_dirs_go_spec dirs : forall seen,
  NoDup (norm_dirs_go env seen dirs)
  /\ forall x, x ∈ norm_dirs_go env seen dirs <->
       (x ∉ seen) /\ exists d, d ∈ dirs /\ d <> [] /\ x = env_abspath env d.
Proof.
  induction dirs as [|d rest IH]; intros seen; cbn [norm_dirs_go].
  - split; [constructor|]. intros x. split; [intros H; inversion H|].
    intros (_ & d & Hd & _). inversion Hd.
  - destruct d as [|c d'].
    + destruct (IH seen) as [Hnd Hin]. split; [exact Hnd|].
      intros x. rewrite Hin. split.
      * intros (Hs & d & Hd & Hne & ->). split; [exact Hs|].
        exists d. split; [now right|now split].
      * intros (Hs & d & Hd & Hne & ->). split; [exact Hs|].
        exists d. apply elem_of_cons in Hd as [->|Hd]; [congruence|now repeat split].
    + set (nd := env_abspath env (c :: d')).
      destruct (bool_decide (nd ∈ seen)) eqn:Eb.
      * apply bool_decide_eq_true in Eb. destruct (IH seen) as [Hnd Hin].
        split; [exact Hnd|]. intros x. rewrite Hin. split.
        -- intros (Hs & d & Hd & Hne & ->). split; [exact Hs|].
           exists d. split; [now right|now split].
        -- intros (Hs & d & Hd & Hne & ->). split; [exact Hs|].
           apply elem_of_cons in Hd as [->|Hd]; [contradiction|].
           exists d. now repeat split.
      * apply bool_decide_eq_false in Eb. destruct (IH (nd :: seen)) as [Hnd Hin].
        split.
        -- apply NoDup_cons. split; [|exact Hnd].
           intros H. apply Hin in H as [H _]. apply H. now left.
        -- intros x. rewrite elem_of_cons, Hin. split.
           ++ intros [->|(Hs & d & Hd & Hne & ->)].
              ** split; [exact Eb|]. exists (c :: d'). split; [now left|now split].
              ** split; [intros H; apply Hs; now right|].
                 exists d. split; [now right|now split].
           ++ intros (Hs & d & Hd & Hne & ->).
              destruct (decide (env_abspath env d = nd)) as [E|E]; [now left|right].
              split; [intros H; apply elem_of_cons in H as [H|H]; contradiction|].
              apply elem_of_cons in Hd as [->|Hd]; [contradiction|].
              exists d. now repeat split.
Qed.

End NormDirs.

(** The directories handed to the client are the absolute forms of the
    directories given that are not empty strings, each once. *)
Theorem norm_dirs_distinct env dirs :
  NoDup (GeminiCliBridge.norm_dirs env (Some dirs))
  /\ forall x, x ∈ GeminiCliBridge.norm_dirs env (Some dirs) <->
       exists d, d ∈ dirs /\ d <> [] /\ x = env_abspath env d.
Proof.
  unfold GeminiCliBridge.norm_dirs.
  destruct (norm_dirs_go_spec env dirs []) as [Hnd Hin]. split; [exact Hnd|].
  intros x. rewrite Hin. split; [now intros [_ H]|].
  intros H. split; [intros Hx; inversion Hx|exact H].
Qed.

(** ** The order on strings and the sorted set *)

Section StrOrder.

Lemma str_ltb_irrefl a : str_ltb a a = false.
Proof.
  induction a as [|x a IH]; [reflexivity|]. cbn [str_ltb].
  now rewrite N.ltb_irrefl, N.eqb_refl, IH.
Qed.







End StrOrder.


(** ** main: what reaches the draft *)

Section Broll.

Variable env : Env.
Variable placed : list DraftCall -> str -> bool.
Variable srt_items : list SrtItem.
Variable materials : list MaterialInfo.

Lemma find_rev_in {A} (f : A -> bool) l x :
  List.find f (rev l) = Some x -> In x l /\ f x = true.
Proof.
  intros H. apply find_some in H as [Hin Hf]. split; [|exact Hf].
  now apply in_rev.
Qed.

Lemma counts_app calls c :
  placed_count (calls ++ [c])
  = (placed_count calls
     + match c with AddMedia _ _ _ true => 1 | _ => 0 end)%nat
  /\ transition_count (calls ++ [c])
     = (transition_count calls + match c with AddTransition _ => 1 | _ => 0 end)%nat.
Proof.
  unfold placed_count, transition_count. rewrite !List.filter_app, !length_app.
  destruct c as [p s d [|]|n]; cbn; split; reflexivity.
Qed.

Lemma broll_place_inv added calls mat sub tname :
  broll_inv srt_items materials (added, calls) ->
  In mat materials -> In sub srt_items -> text sub <> [] ->
  tname ∈ ALLOWED_TRANSITIONS ->
  broll_inv srt_items materials
    (let ok := placed calls (path mat) in
     let calls := calls ++ [AddMedia (path mat) (start sub) (item_duration sub) ok] in
     if ok then
       if (2 <=? S added)%nat then (S added, calls ++ [AddTransition tname])
       else (S added, calls)
     else (added, calls)).
Proof.
  intros (Hg & Hp & Ht) Hm Hs Hx Hn. cbn [fst snd] in *.
  assert (Hcall : forall b, guarded_call srt_items materials
                              (AddMedia (path mat) (start sub) (item_duration sub) b)).
  { intros b. split; [now exists mat|]. exists sub. now repeat split. }
  cbv zeta. destruct (placed calls (path mat)).
  - destruct (Nat.leb_spec 2 (S added)) as [H2|H2]; unfold broll_inv; cbn [fst snd].
    + destruct (counts_app (calls ++ [AddMedia (path mat) (start sub)
                                        (item_duration sub) true])
                  (AddTransition tname)) as [E1 E2].
      destruct (counts_app calls (AddMedia (path mat) (start sub)
                                    (item_duration sub) true)) as [E3 E4].
      rewrite E1, E2, E3, E4. repeat split; try lia.
      apply Forall_app. split; [apply Forall_app; split; [exact Hg|]|].
      * constructor; [apply Hcall|constructor].
      * constructor; [exact Hn|constructor].
    + destruct (counts_app calls (AddMedia (path mat) (start sub)
                                    (item_duration sub) true)) as [E3 E4].
      rewrite E3, E4. repeat split; try lia.
      apply Forall_app. split; [exact Hg|]. constructor; [apply Hcall|constructor].
  - unfold broll_inv; cbn [fst snd].
    destruct (counts_app calls (AddMedia (path mat) (start sub)
                                  (item_duration sub) false)) as [E3 E4].
    rewrite E3, E4. repeat split; try lia.
    apply Forall_app. split; [exact Hg|]. constructor; [apply Hcall|constructor].
Qed.

Lemma broll_step_inv st m :
  broll_inv srt_items materials st -> broll_inv srt_items materials (broll_step env placed srt_items materials st m).
Proof.
  intros Hinv. destruct st as [added calls]. unfold broll_step.
  destruct (let? v := py_get m (lit "srt_idx") PyNone in py_int env v) as [i|e];
    [|exact Hinv].
  destruct (sub_by_idx srt_items i) as [sub|] eqn:Es; [|exact Hinv].
  destruct (str_eqb (text sub) []) eqn:Et; [exact Hinv|].
  destruct m as [| | | | | |d]; try exact Hinv.
  apply find_rev_in in Es as [Hs _].
  unfold str_eqb in Et. apply bool_decide_eq_false in Et.
  destruct (dict_get_default d (lit "id") PyNone) eqn:Emid; try exact Hinv;
    (destruct (py_int env _) as [mi|e]; [|exact Hinv];
     destruct (mat_by_id materials mi) as [mat|] eqn:Em; [|exact Hinv];
     apply find_rev_in in Em as [Hm _];
     apply broll_place_inv; try assumption;
     apply sanitize_transition_allowed, default_allowed).
Qed.

Lemma broll_fold_inv ms : forall st,
  broll_inv srt_items materials st ->
  broll_inv srt_items materials (fold_left (broll_step env placed srt_items materials) ms st).
Proof.
  induction ms as [|m ms IH]; intros st H; cbn [fold_left]; [exact H|].
  apply IH. now apply broll_step_inv.
Qed.

End Broll.

(** Whatever the match list holds, also when it comes unsanitized from
    the cache file, the loop of [main] asks the project only for
    materials of the run, on captions of the run that have text, and
    only for transitions of [ALLOWED_TRANSITIONS]; it asks for one
    transition after each segment placed but the first. *)
Theorem broll_calls_guarded env placed srt_items materials ms :
  exists calls,
    broll_calls env placed srt_items materials (PyList ms) = Ok calls
    /\ Forall (guarded_call srt_items materials) calls
    /\ transition_count calls = Nat.pred (placed_count calls).
Proof.
  eexists. split; [reflexivity|].
  destruct (broll_fold_inv env placed srt_items materials ms (0%nat, []))
    as (Hg & Hp & Ht).
  { unfold broll_inv. cbn. repeat split. constructor. }
  split; [exact Hg|]. now rewrite Ht, Hp.
Qed.

(** ** The caption writer and the parser *)

Section Lines.

Lemma tight_nonempty s : tight s -> s <> [].
Proof. intros [(c & r & -> & _) _]. discriminate. Qed.

Lemma tight_strip s : strip s <> [] -> tight (strip s).
Proof.
  unfold strip. intros Hne.
  destruct (lstrip_head s) as [E|(c & r & E & Hc)].
  - rewrite E in Hne. now contradiction Hne.
  - rewrite E in *. split.
    + unfold rstrip. cbn [rev]. destruct (lstrip_last (rev r) c Hc) as [y ->].
      rewrite rev_app_distr. cbn [rev app]. now exists c, (rev y).
    + unfold rstrip in *. destruct (lstrip_head (rev (c :: r))) as [E2|(d & r2 & E2 & Hd)].
      * rewrite E2 in Hne. now contradiction Hne.
      * rewrite E2. cbn [rev]. now exists (rev r2), d.
Qed.

Lemma tight_padded pre s post :
  tight s -> all_space pre = true -> all_space post = true ->
  strip (pre ++ s ++ post) = s.
Proof.
  intros [(c & r & E1 & Hc) (y & d & E2 & Hd)] Hpre Hpost. unfold strip.
  rewrite lstrip_all_space by assumption.
  rewrite E1. cbn [app]. rewrite lstrip_keeps by assumption.
  change (c :: r ++ post) with ((c :: r) ++ post). rewrite <- E1, E2.
  rewrite <- app_assoc. cbn [app].
  rewrite rstrip_app_nonspace by assumption.
  now rewrite rstrip_space_nil.
Qed.

Lemma tight_fixed s : tight s -> strip s = s.
Proof.
  intros H. pose proof (tight_padded [] s [] H eq_refl eq_refl) as E.
  now rewrite app_nil_r in E.
Qed.

Lemma tight_solid s : solid s = true -> s <> [] -> tight s.
Proof.
  intros Hs Hne. unfold solid in Hs. rewrite forallb_forall in Hs. split.
  - destruct s as [|c r]; [congruence|]. exists c, r. split; [reflexivity|].
    apply negb_true_iff, Hs. now left.
  - destruct (exists_last Hne) as (y & d & ->). exists y, d. split; [reflexivity|].
    apply negb_true_iff, Hs. apply in_or_app. right. now left.
Qed.

Lemma tight_app a mid b : tight a -> tight b -> tight (a ++ mid ++ b).
Proof.
  intros [(c & r & -> & Hc) _] [_ (y & d & -> & Hd)]. split.
  - now exists c, (r ++ mid ++ y ++ [d]).
  - exists ((c :: r) ++ mid ++ y), d. split; [|assumption].
    now rewrite <- !app_assoc.
Qed.

Lemma digit_not_space c : is_ascii_digit c = true -> is_space c = false.
Proof.
  intros H. apply digit_cases in H.
  repeat (destruct H as [H|H]; [subst; reflexivity|]); subst; reflexivity.
Qed.

Lemma digits_solid l : all_digits l = true -> solid l = true.
Proof.
  unfold all_digits, solid. rewrite !forallb_forall. intros H c Hc.
  apply negb_true_iff, digit_not_space. now apply H.
Qed.

Lemma tight_digits l : all_digits l = true -> l <> [] -> tight l.
Proof. intros H Hne. apply tight_solid; [now apply digits_solid|assumption]. Qed.

(** A character that a predicate excludes does not occur in a text of
    characters that satisfy it. *)
Lemma lacks_of (p : char -> bool) c l :
  p c = false -> forallb p l = true -> lacks c l = true.
Proof.
  intros Hc Hl. apply forallb_forall. intros d Hd.
  apply negb_true_iff, N.eqb_neq. intros ->.
  rewrite (proj1 (forallb_forall _ _) Hl d Hd) in Hc. discriminate.
Qed.

Lemma split_go_skip sep acc u rest :
  split_go sep acc (length u) (u ++ rest) = split_go sep acc 0 rest.
Proof.
  induction u as [|x u IH]; [reflexivity|]. cbn [length app split_go]. exact IH.
Qed.

Lemma split_go_absent c sep acc s :
  lacks c s = true -> split_go (c :: sep) acc 0 s = [rev acc ++ s].
Proof.
  revert acc. induction s as [|d s IH]; intros acc H; cbn [split_go].
  - now rewrite app_nil_r.
  - cbn [lacks forallb] in H. apply andb_prop in H as [Hd Hs].
    apply negb_true_iff in Hd. cbn [startswith]. rewrite Hd. cbn [andb].
    rewrite IH by assumption. cbn [rev]. now rewrite <- app_assoc.
Qed.

Lemma split_go_cut_at c sep acc a rest :
  lacks c a = true ->
  split_go (c :: sep) acc 0 (a ++ (c :: sep) ++ rest)
  = (rev acc ++ a) :: split_go (c :: sep) [] 0 rest.
Proof.
  revert acc. induction a as [|d a IH]; intros acc H.
  - cbn [app split_go startswith]. rewrite N.eqb_refl, startswith_self.
    cbn [andb length Nat.sub]. rewrite Nat.sub_0_r, split_go_skip.
    now rewrite app_nil_r.
  - cbn [lacks forallb] in H. apply andb_prop in H as [Hd Hs].
    apply negb_true_iff in Hd. cbn [app split_go startswith]. rewrite Hd. cbn [andb].
    rewrite IH by assumption. cbn [rev]. now rewrite <- app_assoc.
Qed.

Lemma replace_absent c sep new s :
  lacks c s = true -> replace (c :: sep) new s = s.
Proof.
  intros H. unfold replace, split. now rewrite split_go_absent.
Qed.

Lemma lacks_join c sep lines :
  lacks c sep = true -> Forall (fun l => lacks c l = true) lines ->
  lacks c (join sep lines) = true.
Proof.
  intros Hsep H. induction H as [|x l Hx Hl IH]; [reflexivity|].
  destruct l as [|y l]; [exact Hx|].
  rewrite join_cons by discriminate. now rewrite !lacks_app, Hx, Hsep, IH.
Qed.

Lemma split_join c lines :
  lines <> [] -> Forall (fun l => lacks c l = true) lines ->
  split [c] (join [c] lines) = lines.
Proof.
  intros Hne H. unfold split. induction H as [|x l Hx Hl IH]; [congruence|].
  destruct l as [|y l].
  - cbn [join]. now rewrite split_go_none.
  - rewrite join_cons by discriminate. cbn [app].
    rewrite split_go_cut by assumption. cbn [rev app]. f_equal.
    now apply IH.
Qed.

Lemma map_strip_fixed lines :
  Forall (fun l => strip l = l) lines -> List.map strip lines = lines.
Proof.
  induction 1 as [|x l Hx Hl IH]; [reflexivity|]. cbn [List.map]. now rewrite Hx, IH.
Qed.

End Lines.

Section Numbers.

Variable env : Env.

Lemma isdigit_digits l : all_digits l = true -> l <> [] -> isdigit env l = true.
Proof.
  intros H Hne. unfold isdigit. destruct l as [|c l]; [congruence|].
  unfold all_digits in H. rewrite forallb_forall in H. apply forallb_forall.
  intros d Hd. unfold isdigit_char. now rewrite (H d Hd).
Qed.

Lemma int_digits_all l : forall pd acc n,
  all_digits l = true ->
  int_digits env pd acc n l
  = match l with
    | [] => if pd then Some (acc, n) else None
    | _ :: _ => Some (digits_val l acc, (n + length l)%nat)
    end.
Proof.
  induction l as [|c l IH]; intros pd acc n H; [reflexivity|].
  cbn [all_digits forallb] in H. apply andb_prop in H as [Hc Hl].
  cbn [int_digits]. rewrite decimal_value_digit by assumption.
  replace (c =? 95)%N with false.
  2:{ symmetry. apply N.eqb_neq. intros ->. discriminate. }
  rewrite IH by assumption. cbn [digits_val fold_left length].
  destruct l as [|d l]; unfold digits_val; cbn [fold_left length];
    (f_equal; f_equal; lia).
Qed.

Lemma digits_val_bound l :
  all_digits l = true -> 0 <= digits_val l 0 < 10 ^ Z.of_nat (length l).
Proof.
  induction l as [|c l IH]; intros H; [cbn; lia|].
  cbn [all_digits forallb] in H. apply andb_prop in H as [Hc Hl].
  specialize (IH Hl). cbn [digits_val fold_left length].
  fold (digits_val l (0 * 10 + (Z.of_N c - 48))). rewrite digits_val_shift.
  rewrite Nat2Z.inj_succ, Z.pow_succ_r by lia.
  unfold is_ascii_digit in Hc. apply andb_prop in Hc as [H1 H2].
  apply N.leb_le in H1, H2. nia.
Qed.

Lemma int_of_str_digits l :
  all_digits l = true -> l <> [] ->
  env_int_max_str_digits env = 0%nat
  \/ (length l <= env_int_max_str_digits env)%nat ->
  int_of_str env l = Ok (digits_val l 0).
Proof.
  intros H Hne Hlim. unfold int_of_str.
  rewrite strip_num_numeric by now apply digits_numeric.
  destruct l as [|c l]; [congruence|].
  pose proof H as H'. cbn [all_digits forallb] in H'. apply andb_prop in H' as [Hc _].
  rewrite split_sign_digit by assumption.
  rewrite int_digits_all by assumption. cbn [Nat.add].
  replace (negb _ && _) with false; [reflexivity|].
  symmetry. destruct Hlim as [->|Hlim]; [reflexivity|].
  apply andb_false_iff. right. apply Nat.ltb_ge. exact Hlim.
Qed.

Lemma dec_digits_length_mono i n :
  0 <= i <= n -> (length (dec_digits i) <= length (dec_digits n))%nat.
Proof.
  intros Hi.
  destruct (dec_digits_spec n ltac:(lia)) as (Hall & Hne & Hval & _).
  destruct (dec_digits_spec i ltac:(lia)) as (_ & _ & _ & Hlen).
  pose proof (digits_val_bound _ Hall) as Hb. rewrite Hval in Hb.
  destruct (dec_digits n) as [|c l]; [congruence|].
  cbn [length] in *. apply Hlen. lia.
Qed.

Lemma int_of_str_index i n :
  0 <= i <= Z.of_nat n -> int_limit_allows env n ->
  int_of_str env (str_of_int i) = Ok i.
Proof.
  intros Hi Hlim. unfold str_of_int.
  replace (i <? 0) with false by (symmetry; apply Z.ltb_ge; lia).
  destruct (dec_digits_spec i ltac:(lia)) as (Hall & Hne & Hval & _).
  rewrite int_of_str_digits; try assumption; [now rewrite Hval|].
  destruct Hlim as [H|H]; [now left|right].
  pose proof (dec_digits_length_mono i (Z.of_nat n) Hi). lia.
Qed.

(** [_parse_time] on a time of the caption format. *)
Lemma parse_time_string h m s ms :
  0 <= h -> 0 <= m -> 0 <= s -> 0 <= ms < 1000 ->
  _parse_time env (time_string h m s ms) = Ok (seconds_of h m s ms).
Proof.
  intros Hh Hm Hs Hms.
  destruct (fmt_0d_spec 2 h ltac:(lia)) as (Ah & Nh & Vh & _).
  destruct (fmt_0d_spec 2 m ltac:(lia)) as (Am & Nm & Vm & _).
  destruct (fmt_0d_spec 2 s ltac:(lia)) as (As & Ns & Vs & _).
  destruct (fmt_0d_spec 3 ms ltac:(lia)) as (Af & _ & Vf & Lf).
  specialize (Lf 2%nat eq_refl ltac:(change (10 ^ Z.of_nat 3) with 1000; lia)).
  unfold time_string. rewrite parse_time_digits by assumption.
  rewrite Vh, Vm, digits_val_shift, Vs, Vf, Lf. unfold seconds_of.
  change (10 ^ Z.of_nat 3) with 1000. change (0 - Z.of_nat 3) with (-3).
  now rewrite (Z.mul_comm s 1000).
Qed.

Lemma stamp_fields T :
  0 <= T ->
  0 <= T / 1000 / 60 / 60 /\ 0 <= T / 1000 / 60 mod 60 < 60
  /\ 0 <= T / 1000 mod 60 < 60 /\ 0 <= T mod 1000 < 1000.
Proof.
  intros HT.
  assert (0 <= T / 1000) by (apply Z.div_pos; lia).
  assert (0 <= T / 1000 / 60) by (apply Z.div_pos; lia).
  repeat split; try (apply Z.mod_pos_bound; lia). apply Z.div_pos; lia.
Qed.

Lemma parse_time_stamp T :
  0 <= T -> _parse_time env (stamp T) = Ok (stamp_value T).
Proof.
  intros HT. destruct (stamp_fields T HT) as (H1 & H2 & H3 & H4).
  unfold stamp, stamp_value. apply parse_time_string; lia.
Qed.

Lemma format_stamp x T :
  float_round (fmul x (float_of_Z 1000)) = Ok T ->
  format_srt_timestamp x = Ok (stamp T) /\ ms_of x = T.
Proof.
  intros H. unfold format_srt_timestamp, ms_of. rewrite H. split; reflexivity.
Qed.

Lemma digits_stamp_chars l : all_digits l = true -> forallb is_stamp_char l = true.
Proof.
  unfold all_digits. rewrite !forallb_forall. intros H c Hc.
  unfold is_stamp_char. now rewrite (H c Hc).
Qed.

Lemma stamp_chars T :
  0 <= T -> forallb is_stamp_char (stamp T) = true /\ tight (stamp T).
Proof.
  intros HT. destruct (stamp_fields T HT) as (H1 & H2 & H3 & H4).
  destruct (fmt_0d_spec 2 (T / 1000 / 60 / 60) ltac:(lia)) as (Ah & Nh & _).
  destruct (fmt_0d_spec 2 (T / 1000 / 60 mod 60) ltac:(lia)) as (Am & _).
  destruct (fmt_0d_spec 2 (T / 1000 mod 60) ltac:(lia)) as (As & _).
  destruct (fmt_0d_spec 3 (T mod 1000) ltac:(lia)) as (Af & Nf & _).
  unfold stamp, time_string. split.
  - rewrite !forallb_app.
    rewrite (digits_stamp_chars _ Ah), (digits_stamp_chars _ Am),
      (digits_stamp_chars _ As), (digits_stamp_chars _ Af). reflexivity.
  - rewrite (app_assoc [c_colon]), (app_assoc _ [c_colon]), (app_assoc _ (fmt_0d 2 _)),
      (app_assoc _ [c_comma]).
    apply tight_app; now apply tight_digits.
Qed.

End Numbers.

Section Blocks.

Variable env : Env.

Lemma str_eqb_nil_cons c r : str_eqb (c :: r) [] = false.
Proof. unfold str_eqb. now apply bool_decide_eq_false_2. Qed.

Lemma str_eqb_nonempty s : s <> [] -> str_eqb s [] = false.
Proof. destruct s; [congruence|]. intros _. apply str_eqb_nil_cons. Qed.

Lemma kept_have_text segments : Forall (fun seg => seg_line seg <> []) (kept segments).
Proof.
  induction segments as [|seg rest IH]; [constructor|].
  unfold kept in *. cbn [List.filter].
  destruct (seg_line seg) eqn:E.
  - exact IH.
  - rewrite str_eqb_nil_cons. cbn [negb]. constructor; [|exact IH].
    rewrite E. discriminate.
Qed.

Lemma srt_blocks_spec segments : forall i,
  Forall (clean_segment env) (kept segments) ->
  srt_blocks i segments = Ok (block_lines i (kept segments)).
Proof.
  induction segments as [|seg rest IH]; intros i H; [reflexivity|].
  cbn [srt_blocks].
  change (strip match seg_text seg with Some t => t | None => [] end)
    with (seg_line seg).
  unfold kept in *. cbn [List.filter] in *.
  destruct (seg_line seg) as [|c r] eqn:E.
  - now apply IH.
  - rewrite str_eqb_nil_cons in *. cbn [negb] in *.
    apply Forall_cons_1 in H as [Hseg Hrest].
    destruct Hseg as (_ & _ & _ & (Ta & Ha & _) & (Tb & Hb & _)).
    destruct (format_stamp _ _ Ha) as [-> Ea].
    destruct (format_stamp _ _ Hb) as [-> Eb].
    cbn [bind]. rewrite IH by assumption. cbn [bind block_lines].
    now rewrite Ea, Eb, E.
Qed.

Lemma ms_of_nonneg x : time_ok x -> 0 <= ms_of x.
Proof. intros (T & H & HT). unfold ms_of. now rewrite H. Qed.

Lemma index_digits i :
  0 <= i ->
  all_digits (str_of_int i) = true /\ str_of_int i <> [].
Proof.
  intros Hi. unfold str_of_int.
  replace (i <? 0) with false by (symmetry; apply Z.ltb_ge; lia).
  destruct (dec_digits_spec i Hi) as (Hall & Hne & _). now split.
Qed.

Lemma good_tight l :
  tight l -> lacks c_newline l = true -> lacks c_cr l = true -> good_line l.
Proof. intros Ht Hn Hc. repeat split; try assumption. now apply tight_fixed. Qed.

Lemma time_line_facts Ta Tb :
  0 <= Ta -> 0 <= Tb ->
  let t := stamp Ta ++ lit " --> " ++ stamp Tb in
  good_line t /\ contains arrow t = true
  /\ List.map strip (take 2 (split arrow t)) = [stamp Ta; stamp Tb].
Proof.
  intros Ha Hb. cbv zeta.
  destruct (stamp_chars Ta Ha) as [Ca Tia]. destruct (stamp_chars Tb Hb) as [Cb Tib].
  change (lit " --> ") with ([32; 45; 45; 62; 32]%N : str).
  split; [|split].
  - apply good_tight.
    + now apply tight_app.
    + rewrite !lacks_app, (lacks_of is_stamp_char c_newline _ eq_refl Ca),
        (lacks_of is_stamp_char c_newline _ eq_refl Cb). reflexivity.
    + rewrite !lacks_app, (lacks_of is_stamp_char c_cr _ eq_refl Ca),
        (lacks_of is_stamp_char c_cr _ eq_refl Cb). reflexivity.
  - change (stamp Ta ++ [32; 45; 45; 62; 32]%N ++ stamp Tb)
      with (stamp Ta ++ [32%N] ++ arrow ++ 32%N :: stamp Tb).
    rewrite app_assoc. apply contains_app_r, contains_here.
  - unfold split.
    change (stamp Ta ++ [32; 45; 45; 62; 32]%N ++ stamp Tb)
      with (stamp Ta ++ [32%N] ++ arrow ++ 32%N :: stamp Tb).
    rewrite app_assoc. unfold arrow. change (lit "-->") with ([45; 45; 62]%N : str).
    rewrite split_go_cut_at.
    2:{ rewrite lacks_app, (lacks_of is_stamp_char 45%N _ eq_refl Ca). reflexivity. }
    rewrite split_go_absent.
    2:{ cbn [lacks forallb]. fold (lacks 45%N (stamp Tb)).
        rewrite (lacks_of is_stamp_char 45%N _ eq_refl Cb). reflexivity. }
    cbn [rev app take List.map].
    pose proof (tight_padded [] (stamp Ta) [32%N] Tia eq_refl eq_refl) as E1.
    pose proof (tight_padded [32%N] (stamp Tb) [] Tib eq_refl eq_refl) as E2.
    rewrite app_nil_r in E2. f_equal; [exact E1|f_equal; exact E2].
Qed.

Lemma block_lines_good ks : forall i,
  0 <= i ->
  Forall (clean_segment env) ks -> Forall (fun seg => seg_line seg <> []) ks ->
  Forall good_line (block_lines i ks).
Proof.
  induction ks as [|seg rest IH]; intros i Hi Hc Hne; [constructor|].
  apply Forall_cons_1 in Hc as [Hseg Hc]. apply Forall_cons_1 in Hne as [Hx Hne].
  destruct Hseg as (Hn & Hr & _ & Ha & Hb).
  cbn [block_lines app]. repeat apply Forall_cons_2.
  - destruct (index_digits i Hi) as [Hall Hnil]. apply good_tight.
    + now apply tight_digits.
    + now apply lacks_digits.
    + now apply lacks_digits.
  - apply (time_line_facts _ _ (ms_of_nonneg _ Ha) (ms_of_nonneg _ Hb)).
  - apply good_tight; try assumption. now apply tight_strip.
  - repeat split.
  - apply IH; try assumption. lia.
Qed.

(** The joined blocks end with one line feed after a text that
    [strip] leaves alone. *)
Lemma block_lines_join ks : forall i,
  0 <= i -> ks <> [] ->
  Forall (clean_segment env) ks -> Forall (fun seg => seg_line seg <> []) ks ->
  exists body, join [c_newline] (block_lines i ks) = body ++ [c_newline] /\ tight body.
Proof.
  induction ks as [|seg rest IH]; intros i Hi Hnil Hc Hne; [congruence|].
  apply Forall_cons_1 in Hc as [Hseg Hc]. apply Forall_cons_1 in Hne as [Hx Hne].
  destruct (index_digits i Hi) as [Hall Hd].
  assert (Hl : tight (str_of_int i)) by now apply tight_digits.
  assert (Ht : tight (seg_line seg)) by now apply tight_strip.
  cbn [block_lines app].
  set (t := stamp _ ++ _ ++ stamp _).
  destruct rest as [|seg' rest'].
  - cbn [block_lines join app].
    exists (str_of_int i ++ (c_newline :: t ++ [c_newline]) ++ seg_line seg).
    split; [now norm_app|]. now apply tight_app.
  - destruct (IH (i + 1) ltac:(lia) ltac:(discriminate) Hc Hne) as (body & E & Hb).
    rewrite !join_cons by discriminate. rewrite E.
    exists (str_of_int i
            ++ (c_newline :: t ++ c_newline :: seg_line seg ++ [c_newline; c_newline])
            ++ body).
    split; [now norm_app|]. now apply tight_app.
Qed.

Lemma parse_lines_head l t after :
  parse_lines env 0 (l :: t :: after)
  = if isdigit env l && contains arrow t then
      let? idx := int_of_str env l in
      let txt_lines := take_while (is_text_line env) after in
      match List.map strip (take 2 (split arrow t)) with
      | [start_str; end_str] =>
          let? start := _parse_time env start_str in
          let? end_ := _parse_time env end_str in
          let text :=
            strip (join [c_space]
                     (List.filter (fun t => negb (str_eqb t [])) txt_lines)) in
          let? items := parse_lines env (S (length txt_lines)) (t :: after) in
          Ok ({| idx := idx; start := start; end_ := end_; text := text |} :: items)
      | _ => Raise (ValueError "not enough values to unpack")
      end
    else parse_lines env 0 (t :: after).
Proof. reflexivity. Qed.

Lemma parse_lines_skip a b rest :
  parse_lines env 2 (a :: b :: rest) = parse_lines env 0 rest.
Proof. reflexivity. Qed.

Lemma parse_lines_blank more : parse_lines env 0 ([] :: more) = parse_lines env 0 more.
Proof. destruct more; reflexivity. Qed.

(** The parser on one written block. *)
Lemma parse_block i n seg more :
  0 <= i <= Z.of_nat n -> int_limit_allows env n ->
  clean_segment env seg -> seg_line seg <> [] ->
  parse_lines env 0
    ([ str_of_int i;
       stamp (ms_of (seg_start seg)) ++ lit " --> " ++ stamp (ms_of (seg_end seg));
       seg_line seg; [] ] ++ more)
  = let? items := parse_lines env 0 more in Ok (written_item i seg :: items).
Proof.
  intros Hi Hlim (Hn & Hr & Hdig & Ha & Hb) Hx.
  destruct (index_digits i ltac:(lia)) as [Hall Hd].
  destruct (time_line_facts _ _ (ms_of_nonneg _ Ha) (ms_of_nonneg _ Hb))
    as (_ & Harrow & Hsplit).
  cbv zeta in Harrow, Hsplit. cbn [app]. rewrite parse_lines_head.
  rewrite isdigit_digits, Harrow by assumption. cbn [andb].
  rewrite (int_of_str_index env i n) by assumption. cbn [bind]. cbv zeta.
  rewrite Hsplit.
  rewrite !parse_time_stamp by now apply ms_of_nonneg. cbn [bind].
  match goal with
  | |- context [take_while ?p ?l] => assert (Etxt : take_while p l = [seg_line seg])
  end.
  { cbn [take_while]. unfold is_text_line at 1.
    rewrite str_eqb_nonempty, Hdig by assumption. cbn [negb andb].
    reflexivity. }
  rewrite Etxt. cbn [List.filter length].
  rewrite str_eqb_nonempty by assumption. cbn [negb join].
  change (strip (seg_line seg)) with (strip (strip match seg_text seg with
                                                   | Some t => t | None => [] end)).
  rewrite strip_idem, parse_lines_skip, parse_lines_blank.
  reflexivity.
Qed.

Lemma parse_blocks n ks : forall i,
  0 <= i -> i + Z.of_nat (length ks) <= Z.of_nat n + 1 -> int_limit_allows env n ->
  Forall (clean_segment env) ks -> Forall (fun seg => seg_line seg <> []) ks ->
  parse_lines env 0 (block_lines i ks) = Ok (written_items i ks).
Proof.
  induction ks as [|seg rest IH]; intros i Hi Hlen Hlim Hc Hne; [reflexivity|].
  apply Forall_cons_1 in Hc as [Hseg Hc]. apply Forall_cons_1 in Hne as [Hx Hne].
  cbn [length] in Hlen. cbn [block_lines written_items].
  rewrite (parse_block i n) by (assumption || lia).
  rewrite IH by (assumption || lia). reflexivity.
Qed.

End Blocks.

(** The caption file that [transcribe_to_srt_faster_whisper] writes is
    read back by [parse_srt_content] as one caption for each segment
    with text, numbered from 1, with the stripped text and the times to
    the millisecond; segments without text leave no trace. This holds
    for texts of one line that are not numbers, times that are finite
    and not negative, and indices within the digit limit of [int]. *)
Theorem written_captions_read_back env segments :
  Forall (clean_segment env) (kept segments) ->
  int_limit_allows env (length (kept segments)) ->
  exists doc,
    srt_document segments = Ok doc
    /\ parse_srt_content env doc = Ok (written_items 1 (kept segments)).
Proof.
  intros Hc Hlim. unfold srt_document.
  rewrite (srt_blocks_spec env) by assumption. cbn [bind].
  eexists. split; [reflexivity|].
  pose proof (kept_have_text segments) as Hne.
  destruct (kept segments) as [|seg rest] eqn:E.
  - reflexivity.
  - rewrite <- E in *.
    assert (Hnil : kept segments <> []) by (rewrite E; discriminate).
    destruct (block_lines_join env (kept segments) 1 ltac:(lia) Hnil Hc Hne)
      as (body & Ej & Hb).
    pose proof (block_lines_good env (kept segments) 1 ltac:(lia) Hc Hne) as Hgood.
    rewrite Ej.
    pose proof (tight_padded [] body [c_newline] Hb eq_refl eq_refl) as Es.
    cbn [app] in Es. rewrite Es, <- Ej.
    assert (Hcr : lacks c_cr (join [c_newline] (block_lines 1 (kept segments))) = true).
    { apply lacks_join; [reflexivity|].
      eapply Forall_impl; [exact Hgood|]. now intros l (_ & H & _). }
    unfold parse_srt_content.
    rewrite (replace_absent c_cr [c_newline] [c_newline] _ Hcr).
    rewrite (replace_absent c_cr [] [c_newline] _ Hcr).
    rewrite split_join.
    + rewrite map_strip_fixed.
      * apply (parse_blocks env (length (kept segments))); try assumption; lia.
      * eapply Forall_impl; [exact Hgood|]. now intros l (_ & _ & H).
    + rewrite E. discriminate.
    + eapply Forall_impl; [exact Hgood|]. now intros l (H & _).
Qed.

Lemma written_captions_read_back_witness :
  exists doc,
    srt_document sample_segments = Ok doc
    /\ parse_srt_content plain_env doc = Ok (written_items 1 (kept sample_segments)).
Proof.
  apply (written_captions_read_back plain_env sample_segments).
  - repeat apply Forall_cons_2; [| |apply Forall_nil_2].
    + repeat split; try reflexivity.
      * exists 0. split; [reflexivity|lia].
      * exists 2000. split; [vm_compute; reflexivity|lia].
    + repeat split; try reflexivity.
      * exists 3000. split; [vm_compute; reflexivity|lia].
      * exists 5000. split; [vm_compute; reflexivity|lia].
  - right. vm_compute. lia.
Defined.

Section WrittenTimes.

Lemma millis_stamp T :
  0 <= T ->
  millis (T / 1000 / 60 / 60) (T / 1000 / 60 mod 60) (T / 1000 mod 60) (T mod 1000) = T.
Proof.
  intros HT. unfold millis.
  pose proof (Z.div_mod T 1000 ltac:(lia)).
  pose proof (Z.div_mod (T / 1000) 60 ltac:(lia)).
  pose proof (Z.div_mod (T / 1000 / 60) 60 ltac:(lia)).
  lia.
Qed.

Lemma stamp_hours_bound T :
  0 <= T < 360000000000000 -> T / 1000 / 60 / 60 < 10 ^ 8.
Proof.
  intros HT. change (10 ^ 8) with 100000000.
  assert (0 <= T / 1000) by (apply Z.div_pos; lia).
  assert (0 <= T / 1000 / 60) by (apply Z.div_pos; lia).
  assert (T / 1000 < 360000000000) by (apply Z.div_lt_upper_bound; lia).
  assert (T / 1000 / 60 < 6000000000) by (apply Z.div_lt_upper_bound; lia).
  apply Z.div_lt_upper_bound; lia.
Qed.

End WrittenTimes.

(** A time that [format_srt_timestamp] writes, read by [_parse_time] and
    written again, gives the same text: the parsed float stands for the
    same millisecond. This holds for the times from zero to below 10^8
    hours. *)
Theorem written_time_read_back env x T :
  float_round (fmul x (float_of_Z 1000)) = Ok T ->
  0 <= T < 360000000000000 ->
  exists t y,
    format_srt_timestamp x = Ok t
    /\ _parse_time env t = Ok y
    /\ format_srt_timestamp y = Ok t.
Proof.
  intros Hx HT. exists (stamp T), (stamp_value T).
  destruct (format_stamp x T Hx) as [Ef _].
  destruct (stamp_fields T ltac:(lia)) as (H1 & H2 & H3 & H4).
  pose proof (stamp_hours_bound T HT) as Hh.
  split; [exact Ef|]. split; [apply parse_time_stamp; lia|].
  apply format_stamp. unfold stamp_value.
  rewrite seconds_round_trip by (assumption || lia).
  now rewrite millis_stamp by lia.
Qed.

Lemma written_time_read_back_witness :
  exists t y,
    format_srt_timestamp (float_of_Z 2) = Ok t
    /\ _parse_time plain_env t = Ok y
    /\ format_srt_timestamp y = Ok t.
Proof.
  apply (written_time_read_back plain_env (float_of_Z 2) 2000);
    [vm_compute; reflexivity|lia].
Defined.
